(** * Embex: index and retrieval engine

    A shallow embedding of the parts of Embex that carry invariants:
    - [embex/core/chunker.py]        (module [Chunker]),
    - [embex/core/history_store.py]  (module [HistoryStore]),
    - [embex/core/vector_store.py]   (module [VectorStore], the query),
    - [embex/core/rag.py]            (module [Rag]),
    - [embex/core/watcher.py]        (module [Watcher]),
    followed by the properties proved about them.

    Python values are modelled as follows: [int] is [Z]; [str] is the list
    of its code points ([pystr]); [float] is a binary64 primitive float;
    [None]-or-value is [option]; a raised exception is the [Raised] case of
    [outcome]. *)

From Stdlib Require Import ZArith NArith List Bool Lia String Ascii Floats Sorted.
From stdpp Require Import base option list gmap pretty.

Open Scope Z_scope.

(* ===================================================================== *)
(** * Python strings and sequences *)
(* ===================================================================== *)

Module PyStr.

(** A Python [str]: the sequence of its Unicode code points. *)
Definition pystr : Type := list N.

(** Reading an ASCII literal as a [pystr]. *)
Definition py (s : string) : pystr := map N_of_ascii (list_ascii_of_string s).

(** [str.isspace] on one code point (CPython's [_PyUnicode_IsWhitespace]). *)
Definition isspace (c : N) : bool :=
  ((9 <=? c) && (c <=? 13) || (28 <=? c) && (c <=? 32) || (c =? 133)
   || (c =? 160) || (c =? 5760) || (8192 <=? c) && (c <=? 8202)
   || (c =? 8232) || (c =? 8233) || (c =? 8239) || (c =? 8287)
   || (c =? 12288))%N.

(** The line boundaries of [str.splitlines] (CPython's
    [_PyUnicode_IsLinebreak]): LF, VT, FF, CR, FS, GS, RS, NEL, LS, PS. *)
Definition islinebreak (c : N) : bool :=
  ((10 <=? c) && (c <=? 13) || (28 <=? c) && (c <=? 30) || (c =? 133)
   || (c =? 8232) || (c =? 8233))%N.

(** [s.lstrip()], [s.rstrip()], [s.strip()] with no argument. *)
Fixpoint lstrip (s : pystr) : pystr :=
  match s with
  | c :: s' => if isspace c then lstrip s' else s
  | [] => []
  end.

Definition rstrip (s : pystr) : pystr := rev (lstrip (rev s)).

Definition strip (s : pystr) : pystr := rstrip (lstrip s).

(** [s.rstrip(chars)] for a one-character [chars]. *)
Fixpoint lstrip_char (ch : N) (s : pystr) : pystr :=
  match s with
  | c :: s' => if (c =? ch)%N then lstrip_char ch s' else s
  | [] => []
  end.

Definition rstrip_char (ch : N) (s : pystr) : pystr :=
  rev (lstrip_char ch (rev s)).

(** Truthiness of a sequence: [bool(s)]. *)
Definition truthy {A} (s : list A) : bool :=
  match s with [] => false | _ => true end.

(** [s.splitlines(keepends=True)]: [cur] is the line being read.  A CR
    directly followed by LF is one boundary. *)
Fixpoint splitlines_from (cur : pystr) (s : pystr) : list pystr :=
  match s with
  | [] => if truthy cur then [cur] else []
  | c :: s' =>
      if islinebreak c then
        match s' with
        | d :: s'' =>
            if ((c =? 13) && (d =? 10))%N
            then (cur ++ [c; d]) :: splitlines_from [] s''
            else (cur ++ [c]) :: splitlines_from [] s'
        | [] => [cur ++ [c]]
        end
      else splitlines_from (cur ++ [c]) s'
  end.

Definition splitlines_keepends (s : pystr) : list pystr := splitlines_from [] s.

(** A slice bound as Python clamps it: a negative index counts from the
    end, and the result is cut to [0 .. len]. *)
Definition slice_index (len i : Z) : Z :=
  if i <? 0 then Z.max (i + len) 0 else Z.min i len.

(** [l[a:b]] for integer bounds. *)
Definition py_slice {A} (l : list A) (a b : Z) : list A :=
  let len := Z.of_nat (length l) in
  let a' := slice_index len a in
  let b' := slice_index len b in
  take (Z.to_nat (b' - a')) (drop (Z.to_nat a') l).

(** ["".join(parts)]. *)
Definition join (parts : list pystr) : pystr := concat parts.

End PyStr.

(* ===================================================================== *)
(** * Chunker ([embex/core/chunker.py]) *)
(* ===================================================================== *)

Module Chunker.
Import PyStr.

(** A chunk: [(text, chunk_index, start_line, end_line)]. *)
Definition chunk : Type := pystr * Z * Z * Z.

Definition chunk_text (c : chunk) : pystr := let '(t, _, _, _) := c in t.
Definition chunk_index (c : chunk) : Z := let '(_, i, _, _) := c in i.
Definition start_line (c : chunk) : Z := let '(_, _, s, _) := c in s.
Definition end_line (c : chunk) : Z := let '(_, _, _, e) := c in e.

(** The [while start < total] loop of [chunk_content].  Every round adds
    [step >= 1] to [start], so [fuel] rounds are enough once
    [total - start <= fuel]; [None] means the fuel ran out. *)
Fixpoint chunk_loop (fuel : nat) (lines : list pystr)
    (total chunk_size overlap step : Z)
    (chunks : list chunk) (idx start : Z) : option (list chunk) :=
  if start <? total then
    match fuel with
    | O => None
    | S fuel' =>
        let end_ := Z.min (start + chunk_size) total in
        let chunk_text := join (py_slice lines start end_) in
        let chunks := chunks ++ [(chunk_text, idx, start + 1, end_)] in
        let idx := idx + 1 in
        let start := start + step in
        if (start <? total) && (total - start <=? overlap) then
          let chunk_text := join (py_slice lines start total) in
          Some (chunks ++ [(chunk_text, idx, start + 1, total)])
        else
          chunk_loop fuel' lines total chunk_size overlap step chunks idx start
    end
  else Some chunks.

Definition chunk_content (content : pystr) (chunk_size overlap : Z)
    : option (list chunk) :=
  if negb (truthy content) || negb (truthy (strip content)) then Some []
  else
    let lines := splitlines_keepends content in
    let total := Z.of_nat (length lines) in
    if total =? 0 then Some []
    else
      let step := Z.max (chunk_size - overlap) 1 in
      chunk_loop (Z.to_nat total) lines total chunk_size overlap step [] 0 0.

(** The defaults of the signature: [chunk_size=200], [overlap=20]. *)
Definition default_chunk_size : Z := 200.
Definition default_overlap : Z := 20.

(** The line ranges of a chunk list, as [(start_line, end_line)] pairs. *)
Definition ranges (cs : list chunk) : list (Z * Z) :=
  map (fun c => (start_line c, end_line c)) cs.

End Chunker.

(* ===================================================================== *)
(** * Exceptions and effectful code *)
(* ===================================================================== *)

(** The exceptions the modelled code can raise or let through. *)
Inductive exn : Type :=
| IntegrityError (constraint : string)   (* sqlite3.IntegrityError *)
| EnvironmentError (msg : PyStr.pystr)   (* EnvironmentError, i.e. OSError *)
| ImportError (module_name : string)
| ProviderError (what : string)          (* raised inside a collaborator *)
| UnicodeEncodeError                     (* a str UTF-8 cannot encode *)
| OverflowError                          (* an int SQLite cannot hold *)
| ZeroDivisionError.

(** What a call does: it returns a value or raises. *)
Inductive outcome (A : Type) : Type :=
| Returned (a : A)
| Raised (e : exn).
Arguments Returned {A} a.
Arguments Raised {A} e.

(** Code that reads and updates a state of type [St] and may raise: the
    state after a raise is the state the exception left behind. *)
Definition M (St A : Type) : Type := St -> outcome A * St.

#[global] Instance M_ret {St} : MRet (M St) :=
  fun A (a : A) st => (Returned a, st).

#[global] Instance M_bind {St} : MBind (M St) :=
  fun A B (k : A -> M St B) (m : M St A) st =>
    match m st with
    | (Returned a, st') => k a st'
    | (Raised e, st') => (Raised e, st')
    end.

Definition raise {St A} (e : exn) : M St A := fun st => (Raised e, st).
Definition get_state {St} : M St St := fun st => (Returned st, st).

(* ===================================================================== *)
(** * History store ([embex/core/history_store.py]) *)
(* ===================================================================== *)

Module HistoryStore.
Import PyStr.

(** One row of table [snapshots]. *)
Record snapshot_row : Type := {
  snap_id : Z;
  snap_file_path : pystr;
  snap_version : Z;
  snap_content : pystr;
  snap_timestamp : Z;
  snap_checksum : pystr;
  snap_message : option pystr
}.

(** One row of table [file_registry]. *)
Record registry_row : Type := {
  reg_file_path : pystr;
  reg_current_version : Z;
  reg_first_seen : Z;
  reg_last_modified : Z;
  reg_language : pystr;
  reg_folder : pystr
}.

(** The two tables the snapshot operations use, in insertion order, and the
    AUTOINCREMENT counter of [snapshots.id]. *)
Record database : Type := {
  snapshots : list snapshot_row;
  snapshots_seq : Z;
  file_registry : list registry_row
}.

(** A [sqlite3] connection: [view] is the database as this connection sees
    it (its own uncommitted statements included), [committed] is what is
    on disk.  A DML statement opens a transaction that stays open until
    [commit]; nothing in the store rolls back. *)
Record connection : Type := {
  view : database;
  committed : database
}.

(** The database right after [_SCHEMA_SQL] ran on a new file. *)
Definition empty_database : database :=
  {| snapshots := []; snapshots_seq := 0; file_registry := [] |}.

Definition init : connection :=
  {| view := empty_database; committed := empty_database |}.

(** Opening the database file again (a later process): uncommitted
    statements of the old connection are gone. *)
Definition reopen (conn : connection) : connection :=
  {| view := committed conn; committed := committed conn |}.

(** ** SQL statements *)

(** [WHERE file_path = ? AND version = ?] on [snapshots]. *)
Definition snapshot_matches (file_path : pystr) (version : Z)
    (r : snapshot_row) : bool :=
  bool_decide (snap_file_path r = file_path)
  && bool_decide (snap_version r = version).

(** [WHERE file_path = ?] on [file_registry]. *)
Definition registry_matches (file_path : pystr) (r : registry_row) : bool :=
  bool_decide (reg_file_path r = file_path).

(** [SELECT ... FROM snapshots WHERE file_path = ? AND version = ?] then
    [fetchone()]. *)
Definition select_snapshot (db : database) (file_path : pystr) (version : Z)
    : option snapshot_row :=
  find (snapshot_matches file_path version) (snapshots db).

(** [SELECT current_version FROM file_registry WHERE file_path = ?] then
    [fetchone()]. *)
Definition select_current_version (db : database) (file_path : pystr)
    : option Z :=
  reg_current_version <$> find (registry_matches file_path) (file_registry db).

(** [UPDATE file_registry SET current_version = ?, last_modified = ?
     WHERE file_path = ?]. *)
Definition update_registry (new_version now : Z) (file_path : pystr)
    (db : database) : outcome database :=
  Returned
    {| snapshots := snapshots db;
       snapshots_seq := snapshots_seq db;
       file_registry :=
         map (fun r =>
                if registry_matches file_path r then
                  {| reg_file_path := reg_file_path r;
                     reg_current_version := new_version;
                     reg_first_seen := reg_first_seen r;
                     reg_last_modified := now;
                     reg_language := reg_language r;
                     reg_folder := reg_folder r |}
                else r)
             (file_registry db) |}.

(** [INSERT INTO file_registry (...) VALUES (...)]: [file_path] is the
    primary key. *)
Definition insert_registry (row : registry_row) (db : database)
    : outcome database :=
  if existsb (registry_matches (reg_file_path row)) (file_registry db) then
    Raised (IntegrityError "UNIQUE constraint failed: file_registry.file_path")
  else
    Returned
      {| snapshots := snapshots db;
         snapshots_seq := snapshots_seq db;
         file_registry := file_registry db ++ [row] |}.

(** [INSERT INTO snapshots (file_path, version, content, timestamp,
    checksum, message) VALUES (...)] under [UNIQUE(file_path, version)];
    [id] is taken from the AUTOINCREMENT counter. *)
Definition insert_snapshot (file_path : pystr) (version : Z)
    (content : pystr) (timestamp : Z) (checksum : pystr)
    (message : option pystr) (db : database) : outcome database :=
  if existsb (snapshot_matches file_path version) (snapshots db) then
    Raised (IntegrityError
              "UNIQUE constraint failed: snapshots.file_path, snapshots.version")
  else
    let id := snapshots_seq db + 1 in
    Returned
      {| snapshots :=
           snapshots db ++
           [{| snap_id := id; snap_file_path := file_path;
               snap_version := version; snap_content := content;
               snap_timestamp := timestamp; snap_checksum := checksum;
               snap_message := message |}];
         snapshots_seq := id;
         file_registry := file_registry db |}.

(** [cur.execute] of a DML statement: on success the connection sees the
    change; a failing statement changes nothing and raises, and what
    earlier statements of the open transaction did stays in [view]. *)
Definition execute (stmt : database -> outcome database) : M connection unit :=
  fun conn =>
    match stmt (view conn) with
    | Returned db => (Returned tt, {| view := db; committed := committed conn |})
    | Raised e => (Raised e, conn)
    end.

(** [cur.execute] of a SELECT followed by [fetchone()]. *)
Definition fetchone {A} (q : database -> option A) : M connection (option A) :=
  fun conn => (Returned (q (view conn)), conn).

(** [self._conn.commit()]. *)
Definition commit : M connection unit :=
  fun conn => (Returned tt, {| view := view conn; committed := view conn |}).

Section Store.

(** [hashlib.sha256(b).hexdigest()] of the UTF-8 bytes of a string: the
    hash function is a parameter of the model. *)
Variable sha256_hexdigest : pystr -> pystr.

Definition _checksum (content : pystr) : pystr := sha256_hexdigest content.

(** ** [HistoryStore.snapshot_file]; [now] is [int(time.time())].  The
    strings are taken to be ones UTF-8 can encode and the integers to fit
    64 bits; what the method does otherwise is in [Sqlite3Store]. *)
Definition snapshot_file (file_path content language folder : pystr)
    (message : option pystr) (now : Z) : M connection Z :=
  let cs := _checksum content in
  let insert_and_commit (new_version : Z) : M connection Z :=
    execute (insert_snapshot file_path new_version content now cs message);;
    commit;;
    mret new_version in
  row ← fetchone (fun db => select_current_version db file_path);
  match row with
  | Some current_version =>
      snap ← fetchone (fun db => select_snapshot db file_path current_version);
      if match snap with
         | Some s => bool_decide (snap_checksum s = cs)
         | None => false
         end
      then mret current_version
      else
        let new_version := current_version + 1 in
        execute (update_registry new_version now file_path);;
        insert_and_commit new_version
  | None =>
      let new_version := 1 in
      execute (insert_registry
                 {| reg_file_path := file_path;
                    reg_current_version := new_version;
                    reg_first_seen := now; reg_last_modified := now;
                    reg_language := language; reg_folder := folder |});;
      insert_and_commit new_version
  end.

End Store.

(** ** Read operations *)

Definition get_snapshot (file_path : pystr) (version : Z)
    : M connection (option pystr) :=
  row ← fetchone (fun db => select_snapshot db file_path version);
  mret (snap_content <$> row).

Definition get_latest_version (file_path : pystr) : M connection Z :=
  row ← fetchone (fun db => select_current_version db file_path);
  mret (match row with Some v => v | None => 0 end).

Definition get_latest_content (file_path : pystr)
    : M connection (option pystr) :=
  version ← get_latest_version file_path;
  if version =? 0 then mret None else get_snapshot file_path version.

(** ** [HistoryStore.restore_to_version]; [now] is [int(time.time())].
    As for [snapshot_file], the path is one UTF-8 can encode and the
    version fits 64 bits; [Sqlite3Store] has the other cases. *)
Definition restore_to_version (file_path : pystr) (version : Z) (now : Z)
    : M connection bool :=
  row ← fetchone (fun db => select_snapshot db file_path version);
  match row with
  | None => mret false
  | Some _ =>
      execute (update_registry version now file_path);;
      commit;;
      mret true
  end.

(** ** Folder queries *)

(** SQLite's [LIKE] with its defaults: [%] matches any run of characters,
    [_] any one character, there is no escape character, and ASCII
    letters match without regard to case.  Pattern and string are taken
    to hold no U+0000, where SQLite stops reading both. *)
Definition sqlite_tolower (c : N) : N :=
  if ((65 <=? c) && (c <=? 90))%N then (c + 32)%N else c.

Definition like_char (c c2 : N) : bool :=
  ((c =? c2)
   || (sqlite_tolower c =? sqlite_tolower c2) && (c <? 128) && (c2 <? 128))%N.

Fixpoint like (pattern : pystr) : pystr -> bool :=
  match pattern with
  | [] => fun s => negb (truthy s)
  | c :: pattern' =>
      if (c =? 37)%N then
        fix any (s : pystr) : bool :=
          like pattern' s
          || match s with [] => false | _ :: s' => any s' end
      else if (c =? 95)%N then
        fun s => match s with [] => false | _ :: s' => like pattern' s' end
      else
        fun s =>
          match s with
          | [] => false
          | d :: s' => like_char c d && like pattern' s'
          end
  end.

(** [ORDER BY file_path]: the BINARY collation compares the UTF-8 bytes,
    which orders strings as their code points do. *)
Fixpoint pystr_leb (a b : pystr) : bool :=
  match a, b with
  | [], _ => true
  | _ :: _, [] => false
  | x :: a', y :: b' => ((x <? y) || (x =? y) && pystr_leb a' b')%N
  end.

Fixpoint insert_sorted (x : pystr) (l : list pystr) : list pystr :=
  match l with
  | [] => [x]
  | y :: l' => if pystr_leb x y then x :: l else y :: insert_sorted x l'
  end.

Definition order_by (l : list pystr) : list pystr :=
  foldr insert_sorted [] l.

Definition list_all_files : M connection (list pystr) :=
  fun conn =>
    (Returned (order_by (map reg_file_path (file_registry (view conn)))), conn).

Definition slash : N := 47%N.
Definition percent : N := 37%N.

Definition list_files_in_folder (folder_prefix : pystr)
    : M connection (list pystr) :=
  let prefix := rstrip_char slash folder_prefix ++ [slash] in
  fun conn =>
    (Returned
       (order_by
          (filter (fun p => like (prefix ++ [percent]) p = true)
                  (map reg_file_path (file_registry (view conn))))),
     conn).

End HistoryStore.

(* ===================================================================== *)
(** * Vector store queries ([embex/core/vector_store.py]) *)
(* ===================================================================== *)

Module VectorStore.
Import PyStr.

(** The metadata keys [query] reads, each possibly absent. *)
Record metadata : Type := {
  meta_file_path : option pystr;
  meta_chunk_index : option Z;
  meta_folder : option pystr;
  meta_language : option pystr
}.

(** One row of a ChromaDB answer: the zipped [ids], [documents],
    [metadatas], [distances] of the single query embedding. *)
Record hit : Type := {
  hit_id : pystr;
  hit_document : option pystr;
  hit_metadata : metadata;
  hit_distance : float
}.

(** A ChromaDB collection as [query] uses it: [col.count()] and
    [col.query(query_embeddings=[e], n_results=n, include=...)]. *)
Record collection : Type := {
  count : outcome Z;
  col_query : list float -> Z -> outcome (list hit)
}.

(** The persistent client. *)
Record client : Type := {
  get_or_create_collection : pystr -> collection;
  list_collections : list collection
}.

(** One retrieval result, the dict [query] builds. *)
Record result : Type := {
  file_path : pystr;
  chunk_index : Z;
  score : float;
  preview : pystr;
  folder : pystr;
  language : pystr
}.

(** The dict built from one row.  The divisor [1.0 + dist] is taken to be
    other than zero; [ScoredQuery] has the other case. *)
Definition result_of_hit (h : hit) : result :=
  let meta := hit_metadata h in
  {| file_path := default [] (meta_file_path meta);
     chunk_index := default 0 (meta_chunk_index meta);
     score := (1.0 / (1.0 + hit_distance h))%float;
     preview := py_slice (default [] (hit_document h)) 0 200;
     folder := default [] (meta_folder meta);
     language := default [] (meta_language meta) |}.

(** The body of [for col in collections] for one collection: what it
    appends to [results]. An exception of [count] or [query] skips the
    collection. *)
Definition collection_results (query_embedding : list float) (top_k : Z)
    (col : collection) : list result :=
  match count col with
  | Raised _ => []
  | Returned cnt =>
      if cnt =? 0 then []
      else
        let n := Z.min top_k cnt in
        match col_query col query_embedding n with
        | Raised _ => []
        | Returned hits => map result_of_hit hits
        end
  end.

(** [results.sort(key=lambda r: r["score"], reverse=True)]: a stable sort
    into descending score. *)
Fixpoint insert_by_score (x : result) (l : list result) : list result :=
  match l with
  | [] => [x]
  | y :: l' =>
      if (score x <? score y)%float then y :: insert_by_score x l' else x :: l
  end.

Definition sort_by_score_desc (l : list result) : list result :=
  foldr insert_by_score [] l.

Definition query (cl : client) (query_embedding : list float)
    (folder : option pystr) (top_k : Z) : list result :=
  let collections :=
    match folder with
    | Some f => if truthy f then [get_or_create_collection cl f]
                else list_collections cl
    | None => list_collections cl
    end in
  let results := concat (map (collection_results query_embedding top_k) collections) in
  py_slice (sort_by_score_desc results) 0 top_k.

End VectorStore.

(* ===================================================================== *)
(** * Corrective RAG pipeline ([embex/core/rag.py]) *)
(* ===================================================================== *)

Module Rag.
Import PyStr.
Export VectorStore.

#[warnings="-inexact-float"]
Definition _RELEVANCE_THRESHOLD : float := 0.30%float.

Definition _MAX_CHUNK_CHARS : Z := 1200.

(** A chat message of the request, [{"role": ..., "content": ...}]. *)
Record message : Type := { role : pystr; content : pystr }.

(** The request [client.chat.completions.create] sends. *)
Record chat_request : Type := {
  req_api_key : pystr;
  req_base_url : pystr;
  req_model : pystr;
  req_messages : list message
}.

(** [response.choices[i].message]. *)
Record reply_message : Type := {
  msg_content : option pystr;
  msg_reasoning_content : option pystr
}.

(** Calls that leave the pipeline: to the embedding provider, to the
    vector index, to the generation endpoint. *)
Inductive call : Type :=
| EmbedTexts (texts : list pystr)
| IndexQuery (folder : option pystr) (top_k : Z)
| ChatCompletion (req : chat_request).

(** The process and what is around it: [os.environ], and the calls
    issued so far, oldest first. *)
Record world : Type := {
  environ : gmap pystr pystr;
  calls : list call
}.

Definition issue (c : call) : M world unit :=
  fun w => (Returned tt, {| environ := environ w; calls := calls w ++ [c] |}).

(** What is installed and configured outside the code: the two [.env]
    files [load_dotenv] reads ([None] when python-dotenv is missing), and
    the answer of the z.ai endpoint to a request ([None] when the [openai]
    package is missing). *)
Record platform : Type := {
  dotenv : option (gmap pystr pystr * gmap pystr pystr);
  openai : option (chat_request -> outcome (list reply_message))
}.

(** [config.llm]. *)
Record LLMConfig : Type := {
  llm_provider : pystr;
  llm_model : pystr;
  api_key_env : pystr
}.

(** The collaborators [ask] receives as arguments. *)
Record Embedder : Type := {
  embed_query : pystr -> M world (list float)
}.

Record VectorStoreObj : Type := {
  vs_query : list float -> option pystr -> Z -> M world (list result)
}.

(** One entry of [sources]. *)
Record source : Type := {
  src_file_path : pystr;
  src_chunk_index : Z;
  src_score : float;
  src_preview : pystr;
  src_language : pystr;
  src_folder : pystr
}.

(** The dict [ask] returns. *)
Record ask_result : Type := {
  answer : pystr;
  sources : list source;
  relevant_count : Z;
  total_retrieved : Z
}.

Definition quote : pystr := [34%N].
Definition nl : pystr := [10%N].

Definition _SYSTEM_PROMPT : pystr :=
  py "You are Embex, an expert code assistant with deep knowledge of the project's codebase.
You are given retrieved code chunks from the project as grounding context.

Rules:
1. Answer the user's question using ONLY the provided code chunks.
2. For every claim, cite the exact file path (e.g. " ++ quote ++
  py "In `src/auth/login.py`..." ++ quote ++ py ").
3. If the retrieved chunks do not contain enough information to answer, say exactly:
   " ++ quote ++
  py "I don't have enough code context to answer that confidently. Try running `embex init` to re-index or widen the search with --folder."
  ++ quote ++ py "
4. Do NOT hallucinate code, function names, or file paths not present in the chunks.
5. Format code with proper markdown code blocks and language tags.
6. Be concise but complete " ++ [8212%N] ++
  py " prefer bullet points for multi-part answers.
".

Definition _build_messages (question context : pystr) : list message :=
  [ {| role := py "system"; content := _SYSTEM_PROMPT |};
    {| role := py "user";
       content :=
         py "Here are the relevant code chunks from the project:" ++ nl ++ nl
         ++ context ++ nl ++ nl ++ py "---" ++ nl ++ nl
         ++ py "Question: " ++ question |} ].

(** [sep.join(parts)]. *)
Fixpoint join_with (sep : pystr) (parts : list pystr) : pystr :=
  match parts with
  | [] => []
  | [p] => p
  | p :: ps => p ++ sep ++ join_with sep ps
  end.

(** [x or y] on optional strings, as [msg.content or ... or ""]. *)
Definition str_or (x : option pystr) (y : pystr) : pystr :=
  match x with
  | Some s => if truthy s then s else y
  | None => y
  end.

Section Pipeline.

(** What is outside the code. *)
Variable pf : platform.

(** [format(x, ".3f")] on a float: a parameter of the model. *)
Variable format_3f : float -> pystr.

(** [load_dotenv(path, override=False)]: variables of the file that the
    environment does not have yet are added. *)
Definition load_dotenv (file : gmap pystr pystr) : M world unit :=
  fun w => (Returned tt, {| environ := environ w ∪ file; calls := calls w |}).

(** ** [_call_zai] *)
Definition _call_zai (question context : pystr) (config : LLMConfig)
    : M world pystr :=
  match dotenv pf with
  | Some (project_env, global_env) =>
      load_dotenv project_env;; load_dotenv global_env
  | None => mret tt
  end;;
  match openai pf with
  | None => raise (ImportError "openai")
  | Some endpoint =>
      w ← get_state;
      let api_key := environ w !! api_key_env config in
      if negb (truthy (default [] api_key)) then
        raise (EnvironmentError
                 (py "Z.ai API key not set. Set the '" ++ api_key_env config
                  ++ py "' environment variable."))
      else
        let req :=
          {| req_api_key := default [] api_key;
             req_base_url := py "https://api.z.ai/api/paas/v4/";
             req_model := if truthy (llm_model config) then llm_model config
                          else py "glm-4.7-flash";
             req_messages := _build_messages question context |} in
        issue (ChatCompletion req);;
        match endpoint req with
        | Raised e => raise e
        | Returned choices =>
            match choices with
            | [] => raise (ProviderError "IndexError: list index out of range")
            | msg :: _ =>
                mret (str_or (msg_content msg)
                        (str_or (msg_reasoning_content msg) []))
            end
        end
  end.

Definition _call_llm (question context : pystr) (config : LLMConfig)
    : M world pystr :=
  _call_zai question context config.

(** The body of [for r in context_chunks]: the context part and the
    source entry of one chunk. *)
Definition chunk_preview (r : result) : pystr :=
  py_slice (preview r) 0 _MAX_CHUNK_CHARS.

Definition context_part (r : result) : pystr :=
  py "### " ++ file_path r ++ py " (chunk #" ++ py (pretty (chunk_index r))
  ++ py ", score=" ++ format_3f (score r) ++ py ")" ++ nl
  ++ py "```" ++ nl ++ chunk_preview r ++ nl ++ py "```".

Definition source_of (r : result) : source :=
  {| src_file_path := file_path r;
     src_chunk_index := chunk_index r;
     src_score := score r;
     src_preview := chunk_preview r;
     src_language := language r;
     src_folder := folder r |}.

(** ** [ask] *)
Definition ask (question : pystr) (config : LLMConfig) (embedder : Embedder)
    (vector_store : VectorStoreObj) (top_k : Z) (folder : option pystr)
    (relevance_threshold : option float) : M world ask_result :=
  let threshold := default _RELEVANCE_THRESHOLD relevance_threshold in
  query_embedding ← embed_query embedder question;
  results ← vs_query vector_store query_embedding folder top_k;
  let relevant := filter (fun r => (threshold <=? score r)%float = true) results in
  let context_chunks := if truthy relevant then relevant else results in
  let context_parts := map context_part context_chunks in
  let sources := map source_of context_chunks in
  let context_str :=
    if truthy context_parts then join_with (nl ++ nl) context_parts
    else py "(No code chunks retrieved.)" in
  answer ← _call_llm question context_str config;
  mret {| answer := answer;
          sources := sources;
          relevant_count := Z.of_nat (length relevant);
          total_retrieved := Z.of_nat (length results) |}.

End Pipeline.

(** ** The collaborators of the repository *)

(** [Embedder.embed_query]: [embed_texts([query])[0]], one batch handed to
    the provider (the local model's [encode], or one [embeddings.create]
    request); [reply] is what the provider answers. *)
Definition provider_embedder (reply : list pystr -> outcome (list (list float)))
    : Embedder :=
  {| embed_query := fun query =>
       issue (EmbedTexts [query]);;
       match reply [query] with
       | Raised e => raise e
       | Returned (v :: _) => mret v
       | Returned [] => raise (ProviderError "IndexError: list index out of range")
       end |}.

(** [VectorStore.query] on the persistent client [cl]. *)
Definition chroma_store (cl : client) : VectorStoreObj :=
  {| vs_query := fun query_embedding folder top_k =>
       issue (IndexQuery folder top_k);;
       mret (VectorStore.query cl query_embedding folder top_k) |}.

End Rag.

(* ===================================================================== *)
(** * Watcher ([embex/core/watcher.py]) *)
(* ===================================================================== *)

Module Watcher.
Import PyStr.

(** Debounce window in seconds. *)
Definition _DEBOUNCE_SECONDS : float := 1.0%float.

(** A watchdog [FileSystemEvent], as the handler reads it: [src_path] is
    the path as [str(Path(event.src_path))] gives it. *)
Record FileSystemEvent : Type := {
  is_directory : bool;
  src_path : pystr
}.

(** The callback watchdog dispatches an event to. *)
Inductive event_type : Type := Created | Modified | Deleted.

(** One delivery: the callback, the event, and what [time.time()] reads
    while the event is handled. *)
Record delivery : Type := {
  dtype : event_type;
  devent : FileSystemEvent;
  dnow : float
}.

(** What the handler does to the index. *)
Inductive action : Type :=
| ProcessFile (file_path : pystr)     (* [_process_file(file_path)] *)
| DeleteFile (file_path : pystr).     (* [vector_store.delete_file(...)] *)

(** [EmbexEventHandler]: the [_last_event] dict, and the pipeline calls
    made so far, oldest first. *)
Record handler : Type := {
  _last_event : gmap pystr float;
  performed : list action
}.

Definition new_handler : handler :=
  {| _last_event := ∅; performed := [] |}.

Definition perform (a : action) : M handler unit :=
  fun h => (Returned tt,
            {| _last_event := _last_event h; performed := performed h ++ [a] |}).

(** [_is_debounced]: [now] is the value [time.time()] returned. *)
Definition _is_debounced (path : pystr) (now : float) : M handler bool :=
  fun h =>
    let last := default 0%float (_last_event h !! path) in
    if (now - last <? _DEBOUNCE_SECONDS)%float then (Returned true, h)
    else (Returned false,
          {| _last_event := <[path := now]> (_last_event h);
             performed := performed h |}).

Section Handler.

(** [should_ignore(file_path, self._project_root, self._config)]: it reads
    the file system and the configuration, and is a parameter here. *)
Variable should_ignore : pystr -> bool.

(** [_process_file] catches every exception of the pipeline it runs, so
    for the handler it is one call that returns. *)
Definition _process_file (file_path : pystr) : M handler unit :=
  perform (ProcessFile file_path).

Definition _handle_event (event : FileSystemEvent) (now : float)
    : M handler unit :=
  if is_directory event then mret tt
  else
    let file_path := src_path event in
    if should_ignore file_path then mret tt
    else
      debounced ← _is_debounced file_path now;
      if (debounced : bool) then mret tt
      else _process_file file_path.

Definition on_created (event : FileSystemEvent) (now : float) : M handler unit :=
  _handle_event event now.

Definition on_modified (event : FileSystemEvent) (now : float) : M handler unit :=
  _handle_event event now.

Definition on_deleted (event : FileSystemEvent) (now : float) : M handler unit :=
  if is_directory event then mret tt
  else
    let file_path := src_path event in
    if should_ignore file_path then mret tt
    else perform (DeleteFile file_path).

(** watchdog's [dispatch]. *)
Definition dispatch (d : delivery) : M handler unit :=
  match dtype d with
  | Created => on_created (devent d) (dnow d)
  | Modified => on_modified (devent d) (dnow d)
  | Deleted => on_deleted (devent d) (dnow d)
  end.

(** The handler after one delivery, and after a sequence of them (the
    observer thread delivers events one at a time). *)
Definition after (h : handler) (d : delivery) : handler := snd (dispatch d h).

Definition run (h : handler) (ds : list delivery) : handler :=
  foldl after h ds.

(** The delivery made the handler run [_process_file]: it was accepted. *)
Definition accepted (h : handler) (d : delivery) : Prop :=
  performed (after h d) = performed h ++ [ProcessFile (src_path (devent d))].

(** The delivery was dropped: nothing was run and nothing was recorded. *)
Definition dropped (h : handler) (d : delivery) : Prop :=
  after h d = h.

(** [d] arrives inside the debounce window that an event accepted at
    time [t] opened, as the handler computes it. *)
Definition within_window (t : float) (d : delivery) : bool :=
  (dnow d - t <? _DEBOUNCE_SECONDS)%float.

(** A create or modify delivery for the file [path]. *)
Definition touches (path : pystr) (d : delivery) : bool :=
  match dtype d with
  | Deleted => false
  | _ => bool_decide (src_path (devent d) = path)
  end.

End Handler.

End Watcher.

(* ===================================================================== *)
(** * Specification vocabulary *)
(* ===================================================================== *)

Module ChunkerSpec.
Import PyStr Chunker.

(** Number of lines a chunk spans. *)
Definition line_count (c : chunk) : Z := end_line c - start_line c + 1.

(** Number of lines two chunks have in common. *)
Definition shared_lines (a b : chunk) : Z :=
  Z.max 0 (Z.min (end_line a) (end_line b)
           - Z.max (start_line a) (start_line b) + 1).

(** [b] lies inside the line range of [a]. *)
Definition inside (a b : chunk) : Prop :=
  start_line a <= start_line b /\ end_line b <= end_line a.

(** The window the loop appends when it is at [start]. *)
Definition window (lines : list pystr) (total chunk_size idx start : Z) : chunk :=
  (join (py_slice lines start (Z.min (start + chunk_size) total)),
   idx, start + 1, Z.min (start + chunk_size) total).

(** The trailing chunk the loop appends before [break]. *)
Definition trailing (lines : list pystr) (total idx start : Z) : chunk :=
  (join (py_slice lines start total), idx, start + 1, total).

(** The runs of the loop, as a relation: [emits idx start cs] when the loop
    entered with [idx] and [start] appends exactly [cs]. *)
Inductive emits (lines : list pystr) (total chunk_size overlap step : Z)
    : Z -> Z -> list chunk -> Prop :=
| emits_done idx start :
    total <= start ->
    emits lines total chunk_size overlap step idx start []
| emits_break idx start :
    start < total ->
    start + step < total ->
    total - (start + step) <= overlap ->
    emits lines total chunk_size overlap step idx start
      [window lines total chunk_size idx start;
       trailing lines total (idx + 1) (start + step)]
| emits_next idx start cs :
    start < total ->
    ~ (start + step < total /\ total - (start + step) <= overlap) ->
    emits lines total chunk_size overlap step (idx + 1) (start + step) cs ->
    emits lines total chunk_size overlap step idx start
      (window lines total chunk_size idx start :: cs).

(** Ten one-letter lines. *)
Definition ten_lines : pystr := py "a
b
c
d
e
f
g
h
i
j
".

(** A file of [n] identical lines. *)
Definition n_lines (n : nat) : pystr := concat (replicate n (py "x
")).

End ChunkerSpec.

Module HistorySpec.
Import PyStr HistoryStore.

(** The version the registry holds for a file, 0 when it is untracked:
    what [get_latest_version] returns. *)
Definition current_version_of (conn : connection) (file_path : pystr) : Z :=
  default 0 (select_current_version (view conn) file_path).

(** The checksum of the snapshot at the file's current version, if the
    file is tracked and that snapshot is stored. *)
Definition current_checksum (conn : connection) (file_path : pystr)
    : option pystr :=
  v ← select_current_version (view conn) file_path;
  snap_checksum <$> select_snapshot (view conn) file_path v.

(** Number of rows of table [snapshots], as the connection sees it. *)
Definition snapshot_rows (conn : connection) : Z :=
  Z.of_nat (length (snapshots (view conn))).

(** The database after [UPDATE file_registry ... WHERE file_path = ?]. *)
Definition updated_registry (new_version now : Z) (file_path : pystr)
    (db : database) : database :=
  match update_registry new_version now file_path db with
  | Returned db' => db'
  | Raised _ => db
  end.

(** A stand-in digest for worked examples: the text itself. *)
Definition example_digest (s : pystr) : pystr := s.

Section Store.

Variable sha256_hexdigest : pystr -> pystr.

(** What every database written by the store satisfies: a snapshot row
    carries the checksum of its own content, and its file has a row in
    the registry. *)
Definition db_ok (db : database) : Prop :=
  (forall r, r ∈ snapshots db ->
     snap_checksum r = _checksum sha256_hexdigest (snap_content r))
  /\ (forall r, r ∈ snapshots db ->
        existsb (registry_matches (snap_file_path r)) (file_registry db) = true).

Definition conn_ok (conn : connection) : Prop :=
  db_ok (view conn) /\ db_ok (committed conn).

(** The connections the store can be in: a new database, then any calls
    of [snapshot_file] and [restore_to_version], whatever they return, and
    reopening the file. *)
Inductive reachable : connection -> Prop :=
| reachable_init : reachable init
| reachable_snapshot conn file_path content language folder message now :
    reachable conn ->
    reachable (snd (snapshot_file sha256_hexdigest file_path content
                      language folder message now conn))
| reachable_restore conn file_path version now :
    reachable conn ->
    reachable (snd (restore_to_version file_path version now conn))
| reachable_reopen conn :
    reachable conn -> reachable (reopen conn).

End Store.

(** Two files of a small project, for worked examples. *)
Definition store_x : connection :=
  snd (snapshot_file example_digest (py "src/x.py") (py "one") (py "python")
         (py "src") None 100 init).

Definition store_xy : connection :=
  snd (snapshot_file example_digest (py "srcx.py") (py "two") (py "python")
         (py ".") None 101 store_x).

(** Versions 1 and 2 of one file, then a restore to version 1. *)
Definition store_v2 : connection :=
  snd (snapshot_file example_digest (py "src/x.py") (py "two") (py "python")
         (py "src") None 200 store_x).

Definition store_rewound : connection :=
  snd (restore_to_version (py "src/x.py") 1 300 store_v2).

End HistorySpec.


Module RagSpec.
Import PyStr Rag.

(** The collections [query] searches. *)
Definition searched (cl : client) (folder : option pystr) : list collection :=
  match folder with
  | Some f => if truthy f then [get_or_create_collection cl f]
              else list_collections cl
  | None => list_collections cl
  end.

(** Everything the searched collections returned: what is available to
    [query] before it sorts and cuts to [top_k]. *)
Definition available (cl : client) (query_embedding : list float)
    (folder : option pystr) (top_k : Z) : list result :=
  concat (map (collection_results query_embedding top_k) (searched cl folder)).

Section Pipeline.

Variable pf : platform.
Variable format_3f : float -> pystr.

(** The context string [ask] builds from the chunks it uses. *)
Definition context_string (chunks : list result) : pystr :=
  let parts := map (context_part format_3f) chunks in
  if truthy parts then join_with (nl ++ nl) parts
  else py "(No code chunks retrieved.)".

(** The world once [_call_zai] has read the [.env] files. *)
Definition after_dotenv (w : world) : world :=
  match dotenv pf with
  | Some (project_env, global_env) =>
      {| environ := environ w ∪ project_env ∪ global_env; calls := calls w |}
  | None => w
  end.

(** The API key [_call_zai] finds, [""] when the variable is unset. *)
Definition api_key (config : LLMConfig) (w : world) : pystr :=
  default [] (environ (after_dotenv w) !! api_key_env config).

(** The request [_call_zai] sends. *)
Definition request_of (question context : pystr) (config : LLMConfig)
    (w : world) : chat_request :=
  {| req_api_key := api_key config w;
     req_base_url := py "https://api.z.ai/api/paas/v4/";
     req_model := if truthy (llm_model config) then llm_model config
                  else py "glm-4.7-flash";
     req_messages := _build_messages question context |}.

(** The chunks [ask] uses as context: the relevant ones, or all of the
    retrieved ones when none is relevant. *)
Definition used_chunks (relevance_threshold : option float)
    (results : list result) : list result :=
  let threshold := default _RELEVANCE_THRESHOLD relevance_threshold in
  let relevant :=
    filter (fun r => (threshold <=? score r)%float = true) results in
  if truthy relevant then relevant else results.

(** The request [ask] sends to the generation endpoint. *)
Definition ask_request (question : pystr) (config : LLMConfig)
    (relevance_threshold : option float) (results : list result) (w : world)
    : chat_request :=
  request_of question
    (context_string (used_chunks relevance_threshold results)) config w.

(** The world after [r] was sent from [w]. *)
Definition sent (r : chat_request) (w : world) : world :=
  {| environ := environ w; calls := calls w ++ [ChatCompletion r] |}.

(** What [ask] returns for the retrieved [results] when nothing is above
    the threshold and the generation step answered [a]. *)
Definition fallback_result (results : list result) (a : pystr) : ask_result :=
  {| answer := a;
     sources := map source_of results;
     relevant_count := 0;
     total_retrieved := Z.of_nat (length results) |}.

End Pipeline.

(** ** A small installation, for worked examples *)

Definition example_config : LLMConfig :=
  {| llm_provider := py "zai"; llm_model := py "glm-4.7-flash";
     api_key_env := py "ZAI_API_KEY" |}.

Definition example_reply : reply_message :=
  {| msg_content := Some (py "See src/x.py."); msg_reasoning_content := None |}.

(** No python-dotenv; the endpoint answers. *)
Definition example_platform : platform :=
  {| dotenv := None; openai := Some (fun _ => Returned [example_reply]) |}.

(** No python-dotenv; the endpoint fails. *)
Definition failing_platform : platform :=
  {| dotenv := None;
     openai := Some (fun _ => Raised (ProviderError "APIConnectionError")) |}.

(** A stand-in for [format(x, ".3f")]. *)
Definition example_format (x : float) : pystr := py "0.000".

(** No API key in the environment, nothing called yet. *)
Definition unkeyed_world : world := {| environ := ∅; calls := [] |}.

Definition keyed_world : world :=
  {| environ := {[ py "ZAI_API_KEY" := py "secret" ]}; calls := [] |}.

Definition example_embedder : Embedder :=
  provider_embedder (fun _ => Returned [[0.5%float; 0.5%float]]).

Definition example_hit (path : string) (i : Z) (dist : float) : hit :=
  {| hit_id := py path;
     hit_document := Some (py "def f(): pass");
     hit_metadata := {| meta_file_path := Some (py path);
                        meta_chunk_index := Some i;
                        meta_folder := Some (py "src");
                        meta_language := Some (py "python") |};
     hit_distance := dist |}.

(** One collection holding two chunks, at distances 9 and 4 from every
    query: scores 0.1 and 0.2. *)
Definition example_collection : collection :=
  {| count := Returned 2;
     col_query := fun _ n =>
       Returned (py_slice [example_hit "src/x.py" 0 9.0%float;
                           example_hit "src/y.py" 0 4.0%float] 0 n) |}.

Definition example_client : client :=
  {| get_or_create_collection := fun _ => example_collection;
     list_collections := [example_collection] |}.

Definition example_store : VectorStoreObj := chroma_store example_client.

Definition example_question : pystr := py "how does auth work?".

End RagSpec.


Module WatcherSpec.
Import PyStr Watcher.

(** A project where no path is ignored, and a burst of saves: [a.py] at
    100.0 s, [b.py] at 100.25 s, [a.py] again at 100.5 s and at 101.5 s. *)
Definition nothing_ignored (path : pystr) : bool := false.

Definition modified (path : string) (now : float) : delivery :=
  {| dtype := Modified;
     devent := {| is_directory := false; src_path := py path |};
     dnow := now |}.

Definition burst : list delivery :=
  [ modified "/proj/a.py" 100.0%float;
    modified "/proj/b.py" 100.25%float;
    modified "/proj/a.py" 100.5%float;
    modified "/proj/a.py" 101.5%float ].

End WatcherSpec.


Module HistoryReads.
Import PyStr HistoryStore.

(** One entry of [get_file_history]: the dict of a row's [version],
    [timestamp], [checksum] and [message]. *)
Record history_entry : Type := {
  hist_version : Z;
  hist_timestamp : Z;
  hist_checksum : pystr;
  hist_message : option pystr
}.

Definition history_entry_of (r : snapshot_row) : history_entry :=
  {| hist_version := snap_version r;
     hist_timestamp := snap_timestamp r;
     hist_checksum := snap_checksum r;
     hist_message := snap_message r |}.

(** [WHERE file_path = ?] on [snapshots]. *)
Definition snapshots_of (db : database) (file_path : pystr) : list snapshot_row :=
  filter (fun r => snap_file_path r = file_path) (snapshots db).

(** [ORDER BY version DESC] (rows of one file have distinct versions under
    the UNIQUE constraint). *)
Fixpoint insert_by_version (r : snapshot_row) (l : list snapshot_row)
    : list snapshot_row :=
  match l with
  | [] => [r]
  | y :: l' =>
      if snap_version r <? snap_version y then y :: insert_by_version r l'
      else r :: l
  end.

Definition order_by_version_desc (l : list snapshot_row) : list snapshot_row :=
  foldr insert_by_version [] l.

(** [HistoryStore.get_file_history]. *)
Definition get_file_history (file_path : pystr)
    : M connection (list history_entry) :=
  fun conn =>
    (Returned (map history_entry_of
                 (order_by_version_desc (snapshots_of (view conn) file_path))),
     conn).

(** The versions stored for a file, in the order they were written. *)
Definition versions_of (db : database) (file_path : pystr) : list Z :=
  map snap_version (snapshots_of db file_path).

(** The highest version stored for a file, 0 when there is none. *)
Definition version_count (db : database) (file_path : pystr) : Z :=
  Z.of_nat (length (versions_of db file_path)).

(** What the store keeps true of its tables: the versions of a file are
    1, 2, ..., n in the order written; a registry row points at one of
    them; no file has two registry rows; a snapshot's file is in the
    registry. *)
Definition store_wf (db : database) : Prop :=
  (forall p, versions_of db p = seqZ 1 (version_count db p))
  /\ (forall g, g ∈ file_registry db ->
        1 <= reg_current_version g <= version_count db (reg_file_path g))
  /\ NoDup (map reg_file_path (file_registry db))
  /\ (forall r, r ∈ snapshots db ->
        existsb (registry_matches (snap_file_path r)) (file_registry db) = true).

End HistoryReads.


(* ===================================================================== *)
(** * Collection names ([embex/core/vector_store.py]) *)
(* ===================================================================== *)

Module CollectionName.
Import PyStr.

Definition backslash : N := 92%N.
Definition underscore : N := 95%N.

(** [s.replace(old, new)] for one-character [old] and [new]. *)
Definition replace_char (old new : N) (s : pystr) : pystr :=
  map (fun c => if (c =? old)%N then new else c) s.

(** [s.lstrip(chars)], [s.rstrip(chars)] and [s.strip(chars)]: the
    characters of [chars] are removed from the ends. *)
Fixpoint lstrip_chars (chars : pystr) (s : pystr) : pystr :=
  match s with
  | c :: s' => if existsb (N.eqb c) chars then lstrip_chars chars s' else s
  | [] => []
  end.

Definition rstrip_chars (chars : pystr) (s : pystr) : pystr :=
  rev (lstrip_chars chars (rev s)).

Definition strip_chars (chars : pystr) (s : pystr) : pystr :=
  rstrip_chars chars (lstrip_chars chars s).

(** [_collection_name(folder)]. *)
Definition _collection_name (folder : pystr) : pystr :=
  if bool_decide (folder ∈ [py "."; []; py "/"]) then py "root"
  else
    let name :=
      replace_char backslash underscore
        (replace_char HistoryStore.slash underscore folder) in
    let name := strip_chars (py "_-.") name in
    let name :=
      if Z.of_nat (length name) <? 3 then name ++ py "_col" else name in
    if 63 <? Z.of_nat (length name)
    then rstrip_chars (py "_-") (py_slice name 0 63)
    else name.

End CollectionName.


Module WatcherRuns.
Import PyStr Watcher.

(** A delivery can reach the pipeline: it is for a file, not a
    directory, and its path is not ignored. *)
Definition eligible (should_ignore : pystr -> bool) (d : delivery) : bool :=
  negb (is_directory (devent d)) && negb (should_ignore (src_path (devent d))).

(** What the handler runs for a delivery it serves. *)
Definition action_of (d : delivery) : action :=
  match dtype d with
  | Deleted => DeleteFile (src_path (devent d))
  | _ => ProcessFile (src_path (devent d))
  end.

End WatcherRuns.


(* ===================================================================== *)
(** * Folders of paths ([embex/utils/ignore.py]) *)
(* ===================================================================== *)

Module IgnoreRules.
Import PyStr.

(** [s.split(sep)] for a one-character separator: the pieces between
    the separators, at least one. *)
Fixpoint split_from (sep : N) (cur : pystr) (s : pystr) : list pystr :=
  match s with
  | [] => [cur]
  | c :: s' =>
      if (c =? sep)%N then cur :: split_from sep [] s'
      else split_from sep (cur ++ [c]) s'
  end.

Definition split_char (sep : N) (s : pystr) : list pystr := split_from sep [] s.

(** [get_folder]: [rel] is what [get_relative_path(file_path,
    project_root)] returns, the POSIX path of the file from the project
    root, which the file system decides. *)
Definition get_folder (rel : pystr) : pystr :=
  let parts := split_char HistoryStore.slash rel in
  if Z.of_nat (length parts) <=? 1 then py "."
  else Rag.join_with [HistoryStore.slash] (py_slice parts 0 (-1)).

End IgnoreRules.

(* ===================================================================== *)
(** * The fallback of the AST chunker ([embex/core/smart_chunker.py]) *)
(* ===================================================================== *)

Module SmartChunker.
Import PyStr.

(** The dataclass [SmartChunk]. *)
Record SmartChunk : Type := {
  text : pystr;
  start_line : Z;
  end_line : Z;
  kind : pystr;
  name : pystr
}.

(** [_fallback_chunk]; [chunk_size] and [overlap] are
    [config.chunking.chunk_size] and [config.chunking.overlap]. *)
Definition _fallback_chunk (content : pystr) (chunk_size overlap : Z)
    : option (list SmartChunk) :=
  raw_chunks ← Chunker.chunk_content content chunk_size overlap;
  Some (imap (fun i '(text, _, start_line, end_line) =>
                {| text := text;
                   start_line := start_line;
                   end_line := end_line;
                   kind := py "chunk";
                   name := py "chunk_" ++ py (pretty (Z.of_nat i)) |})
             raw_chunks).

End SmartChunker.

(* ===================================================================== *)
(** * The embed-checksum cache ([embex/core/history_store.py]) *)
(* ===================================================================== *)

Module EmbedCache.
Import PyStr.






End EmbedCache.


(* ===================================================================== *)
(** * Statement parameters ([sqlite3]) *)
(* ===================================================================== *)

Module Sqlite3Params.
Import PyStr.

(** A [str] UTF-8 can encode: it holds no surrogate code point (U+D800
    to U+DFFF). *)
Definition encodable (s : pystr) : bool :=
  forallb (fun c => negb ((55296 <=? c) && (c <=? 57343))%N) s.

(** A Python [int] SQLite can hold: a signed 64-bit integer. *)
Definition int64 (z : Z) : bool := (- 2 ^ 63 <=? z) && (z <? 2 ^ 63).

(** A value passed for a [?] of a statement. *)
Inductive param : Type :=
| Text (s : pystr)
| Integer (z : Z)
| Null.

(** A [str | None] parameter. *)
Definition optional_text (s : option pystr) : param :=
  match s with Some s => Text s | None => Null end.

Definition convertible (x : param) : bool :=
  match x with
  | Text s => encodable s
  | Integer z => int64 z
  | Null => true
  end.

(** [cur.execute(sql, params)] converts the parameters in order before
    the statement runs.  A [str] UTF-8 cannot encode raises
    UnicodeEncodeError and an [int] outside 64 bits OverflowError; the
    statement then does not run. *)
Fixpoint bind (params : list param) : option exn :=
  match params with
  | [] => None
  | Text s :: params' =>
      if encodable s then bind params' else Some UnicodeEncodeError
  | Integer z :: params' =>
      if int64 z then bind params' else Some OverflowError
  | Null :: params' => bind params'
  end.

Definition bound {St} (params : list param) : M St unit :=
  match bind params with
  | Some e => raise e
  | None => mret tt
  end.

End Sqlite3Params.

(* ===================================================================== *)
(** * The history store with its parameter conversions
      ([embex/core/history_store.py]) *)
(* ===================================================================== *)

(** The methods of [HistoryStore] again, with what [HistoryStore] above
    leaves out: [content.encode("utf-8")] in [_checksum] and the
    conversion of the parameters of every statement can raise.  On
    strings UTF-8 can encode and 64-bit integers the two agree.  What
    the machine can run out of (memory, disk, SQLite's limit on the
    length of a value) is not part of it. *)
Module Sqlite3Store.
Import PyStr HistoryStore HistoryReads Sqlite3Params.

Section Store.

Variable sha256_hexdigest : pystr -> pystr.

(** [_checksum]: [content.encode("utf-8")] comes first. *)
Definition _checksum (content : pystr) : M connection pystr :=
  if encodable content
  then mret (HistoryStore._checksum sha256_hexdigest content)
  else raise UnicodeEncodeError.

(** [HistoryStore.snapshot_file]; [now] is [int(time.time())].  The
    checksum handed to the last statement is a hexadecimal digest, which
    always converts. *)
Definition snapshot_file (file_path content language folder : pystr)
    (message : option pystr) (now : Z) : M connection Z :=
  cs ← _checksum content;
  let insert_and_commit (new_version : Z) : M connection Z :=
    bound [Text file_path; Integer new_version; Text content; Integer now;
           optional_text message];;
    execute (insert_snapshot file_path new_version content now cs message);;
    commit;;
    mret new_version in
  bound [Text file_path];;
  row ← fetchone (fun db => select_current_version db file_path);
  match row with
  | Some current_version =>
      bound [Text file_path; Integer current_version];;
      snap ← fetchone (fun db => select_snapshot db file_path current_version);
      if match snap with
         | Some s => bool_decide (snap_checksum s = cs)
         | None => false
         end
      then mret current_version
      else
        let new_version := current_version + 1 in
        bound [Integer new_version; Integer now; Text file_path];;
        execute (update_registry new_version now file_path);;
        insert_and_commit new_version
  | None =>
      let new_version := 1 in
      bound [Text file_path; Integer new_version; Integer now; Integer now;
             Text language; Text folder];;
      execute (insert_registry
                 {| reg_file_path := file_path;
                    reg_current_version := new_version;
                    reg_first_seen := now; reg_last_modified := now;
                    reg_language := language; reg_folder := folder |});;
      insert_and_commit new_version
  end.

End Store.

Definition get_file_history (file_path : pystr)
    : M connection (list history_entry) :=
  bound [Text file_path];;
  HistoryReads.get_file_history file_path.

Definition get_snapshot (file_path : pystr) (version : Z)
    : M connection (option pystr) :=
  bound [Text file_path; Integer version];;
  row ← fetchone (fun db => select_snapshot db file_path version);
  mret (snap_content <$> row).

Definition get_latest_version (file_path : pystr) : M connection Z :=
  bound [Text file_path];;
  row ← fetchone (fun db => select_current_version db file_path);
  mret (match row with Some v => v | None => 0 end).

Definition get_latest_content (file_path : pystr)
    : M connection (option pystr) :=
  version ← get_latest_version file_path;
  if version =? 0 then mret None else get_snapshot file_path version.

(** [HistoryStore.restore_to_version]; [now] is [int(time.time())]. *)
Definition restore_to_version (file_path : pystr) (version : Z) (now : Z)
    : M connection bool :=
  bound [Text file_path; Integer version];;
  row ← fetchone (fun db => select_snapshot db file_path version);
  match row with
  | None => mret false
  | Some _ =>
      bound [Integer version; Integer now; Text file_path];;
      execute (update_registry version now file_path);;
      commit;;
      mret true
  end.

End Sqlite3Store.

Module Sqlite3Spec.
Import PyStr HistoryStore HistoryReads Sqlite3Params.

(** A [message] argument that converts: [None], or a string UTF-8 can
    encode. *)
Definition message_converts (message : option pystr) : bool :=
  convertible (optional_text message).


Section Store.

Variable sha256_hexdigest : pystr -> pystr.

(** The states of a connection that the store reaches from a new
    database file by [snapshot_file] with any path, content, language
    and folder and a message that converts, by [restore_to_version] with
    any arguments, by a commit of what is pending (the one
    [set_embed_checksum] makes), and by opening the file again; calls
    that raise included. *)
Inductive reachable : connection -> Prop :=
| reachable_init : reachable init
| reachable_snapshot conn file_path content language folder message now :
    reachable conn ->
    message_converts message = true ->
    reachable (snd (Sqlite3Store.snapshot_file sha256_hexdigest file_path
                      content language folder message now conn))
| reachable_restore conn file_path version now :
    reachable conn ->
    reachable (snd (Sqlite3Store.restore_to_version file_path version now conn))
| reachable_commit conn :
    reachable conn -> reachable (snd (commit conn))
| reachable_reopen conn :
    reachable conn -> reachable (reopen conn).

End Store.

End Sqlite3Spec.


(* ===================================================================== *)
(** * [VectorStore.query] with its division
      ([embex/core/vector_store.py]) *)
(* ===================================================================== *)

(** [query] again, with what [VectorStore.query] above leaves out: the
    division that computes a score raises ZeroDivisionError when the
    divisor is zero, and the loop that computes the scores is outside
    the [try] block, so the exception leaves [query].  On divisors other
    than zero the two agree. *)
Module ScoredQuery.
Import PyStr VectorStore.

(** [score = 1.0 / (1.0 + dist)] and the dict built from it. *)
Definition result_of_hit (h : hit) : outcome result :=
  if (1.0 + hit_distance h =? 0)%float then Raised ZeroDivisionError
  else Returned (VectorStore.result_of_hit h).

(** The [try] block for one collection: the rows [col.query] gave, none
    when the collection is empty or [count] or [query] raised. *)
Definition collection_hits (query_embedding : list float) (top_k : Z)
    (col : collection) : list hit :=
  match count col with
  | Raised _ => []
  | Returned cnt =>
      if cnt =? 0 then []
      else
        let n := Z.min top_k cnt in
        match col_query col query_embedding n with
        | Raised _ => []
        | Returned hits => hits
        end
  end.

(** The inner [for] loop: one result appended per row. *)
Fixpoint append_results (hits : list hit) (results : list result)
    : outcome (list result) :=
  match hits with
  | [] => Returned results
  | h :: hits' =>
      match result_of_hit h with
      | Raised e => Raised e
      | Returned r => append_results hits' (results ++ [r])
      end
  end.

(** [for col in collections]. *)
Fixpoint collect (query_embedding : list float) (top_k : Z)
    (collections : list collection) (results : list result)
    : outcome (list result) :=
  match collections with
  | [] => Returned results
  | col :: collections' =>
      match append_results (collection_hits query_embedding top_k col) results
      with
      | Raised e => Raised e
      | Returned results' =>
          collect query_embedding top_k collections' results'
      end
  end.

Definition query (cl : client) (query_embedding : list float)
    (folder : option pystr) (top_k : Z) : outcome (list result) :=
  let collections :=
    match folder with
    | Some f => if truthy f then [get_or_create_collection cl f]
                else list_collections cl
    | None => list_collections cl
    end in
  match collect query_embedding top_k collections [] with
  | Raised e => Raised e
  | Returned results => Returned (py_slice (sort_by_score_desc results) 0 top_k)
  end.

(** The rows the searched collections gave, in the order [query] reads
    them. *)
Definition retrieved (cl : client) (query_embedding : list float)
    (folder : option pystr) (top_k : Z) : list hit :=
  concat (map (collection_hits query_embedding top_k)
              (RagSpec.searched cl folder)).

End ScoredQuery.


(* ===================================================================== *)
(** * Properties of the chunker *)
(* ===================================================================== *)

Import PyStr Chunker ChunkerSpec.

Lemma chunk_loop_acc fuel lines total chunk_size overlap step :
  forall acc idx start,
    chunk_loop fuel lines total chunk_size overlap step acc idx start
    = (app acc) <$> chunk_loop fuel lines total chunk_size overlap step [] idx start.
Proof.
  induction fuel as [|fuel IH]; intros acc idx start; simpl.
  - destruct (start <? total); simpl; [reflexivity|].
    by rewrite app_nil_r.
  - destruct (start <? total); simpl; [|by rewrite app_nil_r].
    destruct ((start + step <? total) && (total - (start + step) <=? overlap)).
    + simpl. by rewrite <- app_assoc.
    + rewrite IH. rewrite (IH [_]).
      destruct (chunk_loop fuel lines total chunk_size overlap step [] _ _);
        simpl; [|reflexivity].
      by rewrite <- app_assoc.
Qed.

(** The loop returns once the fuel covers the lines left, and what it
    returns is a run of [emits]. *)
Lemma chunk_loop_emits lines total chunk_size overlap step :
  1 <= step ->
  forall fuel idx start,
    total - start <= Z.of_nat fuel ->
    exists cs,
      chunk_loop fuel lines total chunk_size overlap step [] idx start = Some cs
      /\ emits lines total chunk_size overlap step idx start cs.
Proof.
  intros Hstep fuel.
  induction fuel as [|fuel IH]; intros idx start Hfuel; simpl.
  - destruct (Z.ltb_spec start total); [lia|].
    eexists; split; [reflexivity|]. by constructor.
  - destruct (Z.ltb_spec start total) as [Hlt|Hge].
    2:{ eexists; split; [reflexivity|]. by constructor. }
    destruct (Z.ltb_spec (start + step) total) as [Hlt'|Hge']; simpl.
    + destruct (Z.leb_spec (total - (start + step)) overlap) as [Hle|Hgt].
      * eexists; split; [reflexivity|]. by apply emits_break.
      * rewrite chunk_loop_acc.
        destruct (IH (idx + 1) (start + step)) as (cs & -> & Hcs); [lia|].
        eexists; split; [reflexivity|].
        apply emits_next; [done|lia|done].
    + rewrite chunk_loop_acc.
      destruct (IH (idx + 1) (start + step)) as (cs & -> & Hcs); [lia|].
      eexists; split; [reflexivity|].
      apply emits_next; [done|lia|done].
Qed.

Lemma splitlines_from_nonempty s :
  forall cur, truthy cur || truthy s = true -> splitlines_from cur s <> [].
Proof.
  induction s as [|c s IH]; intros cur H; simpl.
  - rewrite orb_false_r in H. by rewrite H.
  - destruct (islinebreak c).
    + destruct s as [|d s']; [done|].
      by destruct ((c =? 13)%N && (d =? 10)%N).
    + apply IH. by destruct cur.
Qed.

Lemma strip_truthy content : truthy (strip content) = true -> truthy content = true.
Proof. by destruct content. Qed.

(** [chunk_content] on content that passes the blank guard: it returns,
    and what it returns is the run of the loop from line 0. *)
Lemma chunk_content_emits content chunk_size overlap :
  truthy (strip content) = true ->
  let lines := splitlines_keepends content in
  let total := Z.of_nat (length lines) in
  1 <= total /\
  exists cs,
    chunk_content content chunk_size overlap = Some cs
    /\ emits lines total chunk_size overlap (Z.max (chunk_size - overlap) 1) 0 0 cs.
Proof.
  intros Hs lines total.
  assert (Hne : lines <> []).
  { apply splitlines_from_nonempty. rewrite (strip_truthy _ Hs). apply orb_true_r. }
  assert (Htot : 1 <= total).
  { subst total. destruct lines; [done|]. simpl. lia. }
  split; [done|].
  unfold chunk_content. rewrite Hs, (strip_truthy _ Hs). simpl.
  fold lines. fold total.
  destruct (Z.eqb_spec total 0); [lia|].
  apply chunk_loop_emits; lia.
Qed.

Section Windows.

Variable lines : list pystr.
Variables total chunk_size overlap : Z.
Hypothesis overlap_nonneg : 0 <= overlap.
Hypothesis overlap_lt_size : overlap < chunk_size.

Local Abbreviation step := (chunk_size - overlap).
Local Abbreviation runs := (emits lines total chunk_size overlap step).

Lemma emits_head idx start cs :
  runs idx start cs -> start < total ->
  exists cs', cs = window lines total chunk_size idx start :: cs'.
Proof. intros H Hlt. destruct H; [lia| |]; eauto. Qed.

Lemma emits_last idx start cs :
  runs idx start cs -> start < total ->
  exists c, last cs = Some c /\ end_line c = total.
Proof.
  induction 1 as [| |idx start cs Hlt Hno Hrun IH]; intros Hs; [lia| |].
  - eexists; split; [reflexivity|]. done.
  - destruct (Z.lt_ge_cases (start + step) total) as [Hlt'|Hge'].
    + destruct (IH Hlt') as (c & Hc & Hend).
      exists c. split; [|done].
      destruct (emits_head _ _ _ Hrun Hlt') as (cs' & ->). done.
    + inversion Hrun; subst; try lia.
      eexists; split; [reflexivity|]. simpl. lia.
Qed.

Lemma emits_index idx start cs :
  runs idx start cs ->
  forall i c, cs !! i = Some c -> chunk_index c = idx + Z.of_nat i.
Proof.
  induction 1 as [| |idx start cs Hlt Hno Hrun IH]; intros i c Hi.
  - done.
  - destruct i as [|[|i]]; simplify_eq/=; lia.
  - destruct i as [|i]; simplify_eq/=; [lia|].
    rewrite (IH _ _ Hi). lia.
Qed.

Lemma emits_text idx start cs :
  runs idx start cs ->
  forall c, c ∈ cs ->
    chunk_text c = join (py_slice lines (start_line c - 1) (end_line c)).
Proof.
  induction 1 as [| |idx start cs Hlt Hno Hrun IH]; intros c Hc.
  - by apply elem_of_nil in Hc.
  - apply elem_of_cons in Hc as [->|Hc]; simpl.
    { by replace (start + 1 - 1) with start by lia. }
    apply list_elem_of_singleton in Hc as ->. simpl.
    by replace (start + step + 1 - 1) with (start + step) by lia.
  - apply elem_of_cons in Hc as [->|Hc]; [|by apply IH].
    simpl. by replace (start + 1 - 1) with start by lia.
Qed.

Lemma emits_cover idx start cs :
  runs idx start cs ->
  forall l, start + 1 <= l <= total
            <-> exists c, c ∈ cs /\ start_line c <= l <= end_line c.
Proof.
  induction 1 as [| |idx start cs Hlt Hno Hrun IH]; intros l.
  - split; [lia|]. intros (c & Hc & _). by apply elem_of_nil in Hc.
  - split.
    + intros Hl. eexists; split; [apply elem_of_cons; by left|]. simpl. lia.
    + intros (c & Hc & Hl).
      apply elem_of_cons in Hc as [->|Hc]; simpl in Hl; [lia|].
      apply list_elem_of_singleton in Hc as ->. simpl in Hl. lia.
  - split.
    + intros Hl. destruct (Z.le_gt_cases l (start + step)) as [Hle|Hgt].
      * eexists; split; [apply elem_of_cons; by left|]. simpl. lia.
      * destruct (proj1 (IH l)) as (c & Hc & Hc'); [lia|].
        exists c. split; [apply elem_of_cons; by right|done].
    + intros (c & Hc & Hl).
      apply elem_of_cons in Hc as [->|Hc]; simpl in Hl; [lia|].
      assert (start + step + 1 <= l <= total); [|lia].
      apply IH. eauto.
Qed.

(** Two chunks in a row: either the first is a full window and the next
    one, longer than [overlap], starts [overlap] lines before its end; or
    the next one is the chunk appended before [break], the last of the
    list, which has at most [overlap] lines, all of them in the first. *)
Lemma emits_pairs idx start cs :
  runs idx start cs ->
  forall i a b, cs !! i = Some a -> cs !! S i = Some b ->
    start_line a < start_line b <= end_line a + 1
    /\ end_line a <= end_line b
    /\ (shared_lines a b = overlap /\ overlap < line_count b
        \/ S (S i) = length cs /\ 1 <= line_count b <= overlap
           /\ shared_lines a b = line_count b /\ inside a b).
Proof.
  induction 1 as [| |idx start cs Hlt Hno Hrun IH]; intros i a b Ha Hb.
  - done.
  - destruct i as [|[|i]]; simplify_eq/=.
    unfold shared_lines, line_count, inside; simpl.
    split; [lia|]. split; [lia|]. right. lia.
  - destruct i as [|i]; simplify_eq/=.
    2:{ destruct (IH _ _ _ Ha Hb) as (H1 & H2 & H3).
        split; [done|]. split; [done|].
        destruct H3 as [H3|(H3 & H4)]; [by left|right].
        split; [by rewrite H3|done]. }
    assert (Hlt' : start + step < total).
    { inversion Hrun; subst; [done|lia|lia]. }
    destruct (emits_head _ _ _ Hrun Hlt') as (cs' & ->).
    simplify_eq/=.
    unfold shared_lines, line_count; simpl.
    split; [lia|]. split; [lia|]. left. lia.
Qed.

End Windows.

(** The chunker returns on every input: the fuel of the loop is enough. *)
Lemma chunk_content_returns content chunk_size overlap :
  exists cs, chunk_content content chunk_size overlap = Some cs.
Proof.
  unfold chunk_content.
  destruct (negb (truthy content) || negb (truthy (strip content))); [eauto|].
  destruct (_ =? 0); [eauto|].
  destruct (chunk_loop_emits (splitlines_keepends content)
              (Z.of_nat (length (splitlines_keepends content)))
              chunk_size overlap (Z.max (chunk_size - overlap) 1)
              ltac:(lia)
              (Z.to_nat (Z.of_nat (length (splitlines_keepends content)))) 0 0
              ltac:(lia))
    as (cs & Hcs & _).
  eauto.
Qed.

(** C1 (the code departs from the claim).  On ten lines with
    [chunk_size = 10] and [overlap = 2] the chunker returns two chunks,
    lines 1-10 and lines 9-10: the second chunk is not the first one, has
    no more than [overlap] lines, and every line of it is in the chunk
    before it.  The claim (and the comment in the loop, "Avoid creating a
    tiny trailing chunk that is purely overlap") says that no such chunk is
    emitted. *)
Theorem chunk_content_emits_pure_overlap_tail :
  exists first tail,
    chunk_content ten_lines 10 2 = Some [first; tail]
    /\ ranges [first; tail] = [(1, 10); (9, 10)]
    /\ line_count tail <= 2
    /\ inside first tail.
Proof.
  do 2 eexists. split; [vm_compute; reflexivity|].
  split; [reflexivity|]. split; [vm_compute; discriminate|].
  split; vm_compute; discriminate.
Qed.

(** The same with the defaults of the signature: a file of exactly 200
    lines is returned as lines 1-200 followed by lines 181-200. *)
Lemma chunk_content_default_pure_overlap_tail :
  ranges <$> chunk_content (n_lines 200) default_chunk_size default_overlap
  = Some [(1, 200); (181, 200)].
Proof. vm_compute. reflexivity. Qed.

(** X30.  Whenever a chunk after the first has at most [overlap] lines,
    it is the last chunk and lies inside the chunk before it. *)
Lemma chunk_content_short_chunk_is_pure_overlap content chunk_size overlap cs :
  0 <= overlap < chunk_size ->
  chunk_content content chunk_size overlap = Some cs ->
  forall i a b, cs !! i = Some a -> cs !! S i = Some b ->
    line_count b <= overlap ->
    S (S i) = length cs /\ inside a b.
Proof.
  intros [H0 H1] Hcs i a b Ha Hb Hshort.
  destruct (truthy (strip content)) eqn:Hs.
  2:{ unfold chunk_content in Hcs. rewrite Hs, orb_true_r in Hcs.
      by simplify_eq. }
  destruct (chunk_content_emits content chunk_size overlap Hs)
    as (_ & cs' & Hcs' & Hrun).
  rewrite Hcs in Hcs'. simplify_eq.
  rewrite Z.max_l in Hrun by lia.
  destruct (emits_pairs _ _ _ _ H0 H1 _ _ _ Hrun _ _ _ Ha Hb)
    as (_ & _ & [[_ ?]|(? & _ & _ & ?)]); [lia|done].
Qed.

(** C6, as stated, fails on content made of blank lines: the single line
    of a file holding one newline is in no chunk, because the chunker
    returns no chunk at all. *)
Lemma chunk_content_blank_line_uncovered :
  Z.of_nat (length (splitlines_keepends [10%N])) = 1
  /\ default_overlap < default_chunk_size
  /\ chunk_content [10%N] default_chunk_size default_overlap = Some [].
Proof. by vm_compute. Qed.

(** A negative [overlap] is below every [chunk_size], and then lines are
    skipped: with [chunk_size = 2] and [overlap = -1] lines 3, 6 and 9 of
    ten lines are in no chunk. *)
Lemma chunk_content_negative_overlap_gaps :
  ranges <$> chunk_content ten_lines 2 (-1)
  = Some [(1, 2); (4, 5); (7, 8); (10, 10)].
Proof. vm_compute. reflexivity. Qed.

(** C6 (amended).  For content that is not blank and
    [0 <= overlap < chunk_size], the chunker returns chunks
    - whose line ranges cover exactly the lines [1 .. lineCount],
    - in order and without a gap: each chunk starts after the one before
      it, no later than the line after its end, and ends no earlier,
    - with exactly [overlap] lines shared by two chunks in a row, except
      for the chunk appended before [break], which is the last one and has
      at most [overlap] lines,
    - the first starting at line 1 and the last ending at the last line,
    - numbered from 0 in order, each holding the text of its lines. *)
Theorem chunk_content_covers_with_overlap content chunk_size overlap :
  truthy (strip content) = true ->
  0 <= overlap < chunk_size ->
  let lines := splitlines_keepends content in
  let total := Z.of_nat (length lines) in
  exists cs,
    chunk_content content chunk_size overlap = Some cs
    /\ (forall l, 1 <= l <= total
                  <-> exists c, c ∈ cs /\ start_line c <= l <= end_line c)
    /\ (forall i a b, cs !! i = Some a -> cs !! S i = Some b ->
          start_line a < start_line b <= end_line a + 1
          /\ end_line a <= end_line b
          /\ (shared_lines a b = overlap
              \/ S (S i) = length cs /\ line_count b <= overlap))
    /\ (exists first final,
          head cs = Some first /\ last cs = Some final
          /\ start_line first = 1 /\ end_line final = total)
    /\ (forall i c, cs !! i = Some c ->
          chunk_index c = Z.of_nat i
          /\ chunk_text c = join (py_slice lines (start_line c - 1) (end_line c))).
Proof.
  intros Hs [H0 H1] lines total.
  destruct (chunk_content_emits content chunk_size overlap Hs)
    as (Htot & cs & Hcs & Hrun).
  fold lines in Hrun, Htot. fold total in Hrun, Htot.
  rewrite Z.max_l in Hrun by lia.
  exists cs. split; [done|].
  split; [|split; [|split]].
  - intros l. rewrite <- (emits_cover _ _ _ _ H0 H1 _ _ _ Hrun). lia.
  - intros i a b Ha Hb.
    destruct (emits_pairs _ _ _ _ H0 H1 _ _ _ Hrun _ _ _ Ha Hb)
      as (? & ? & Hsh).
    split; [done|]. split; [done|].
    destruct Hsh as [[? _]|(? & ? & _)]; [by left|right; split; [done|lia]].
  - destruct (emits_head _ _ _ _ _ _ _ Hrun) as (cs' & ->); [lia|].
    destruct (emits_last _ _ _ _ H0 _ _ _ Hrun) as (c & Hc & Hend); [lia|].
    do 2 eexists. split; [reflexivity|]. split; [exact Hc|]. done.
  - intros i c Hc. split.
    + rewrite (emits_index _ _ _ _ _ _ _ Hrun _ _ Hc). lia.
    + eapply emits_text; [exact Hrun|]. by eapply list_elem_of_lookup_2.
Qed.

(** The theorem at ten lines in windows of four with one line of overlap. *)
Lemma chunk_content_covers_with_overlap_witness :
  truthy (strip ten_lines) = true /\ 0 <= 1 < 4 /\
  exists cs, chunk_content ten_lines 4 1 = Some cs
             /\ forall l, 1 <= l <= 10
                  <-> exists c, c ∈ cs /\ start_line c <= l <= end_line c.
Proof.
  split; [reflexivity|]. split; [lia|].
  destruct (chunk_content_covers_with_overlap ten_lines 4 1)
    as (cs & Hcs & Hcover & _); [reflexivity|lia|].
  exists cs. split; [exact Hcs|exact Hcover].
Defined.

(* ===================================================================== *)
(** * Properties of the history store *)
(* ===================================================================== *)

Import HistoryStore HistorySpec.

Lemma find_app_Some {A} (f : A -> bool) l l' x :
  find f l = Some x -> find f (l ++ l') = Some x.
Proof.
  induction l as [|y l IH]; simpl; [done|].
  destruct (f y); [done|exact IH].
Qed.

Lemma find_app_None {A} (f : A -> bool) l l' :
  find f l = None -> find f (l ++ l') = find f l'.
Proof.
  induction l as [|y l IH]; simpl; [done|].
  destruct (f y); [done|exact IH].
Qed.

Lemma existsb_find {A} (f : A -> bool) l :
  existsb f l = match find f l with Some _ => true | None => false end.
Proof.
  induction l as [|y l IH]; simpl; [done|].
  destruct (f y); [done|exact IH].
Qed.

Lemma find_elem_of {A} (f : A -> bool) l x :
  find f l = Some x -> x ∈ l /\ f x = true.
Proof.
  induction l as [|y l IH]; simpl; [done|].
  destruct (f y) eqn:Hy.
  - intros [= ->]. split; [apply elem_of_cons; by left|done].
  - intros H. destruct (IH H). split; [apply elem_of_cons; by right|done].
Qed.

Lemma existsb_elem_of {A} (f : A -> bool) l x :
  x ∈ l -> f x = true -> existsb f l = true.
Proof.
  induction l as [|y l IH]; simpl.
  - intros H. by apply elem_of_nil in H.
  - intros [->|H]%elem_of_cons Hx; [by rewrite Hx|].
    rewrite (IH H Hx). apply orb_true_r.
Qed.

Lemma update_registry_returns new_version now file_path db :
  update_registry new_version now file_path db
  = Returned (updated_registry new_version now file_path db).
Proof. reflexivity. Qed.

Lemma updated_registry_snapshots v now p db :
  snapshots (updated_registry v now p db) = snapshots db.
Proof. reflexivity. Qed.

Lemma updated_registry_matches v now p db q :
  existsb (registry_matches q) (file_registry (updated_registry v now p db))
  = existsb (registry_matches q) (file_registry db).
Proof.
  simpl. induction (file_registry db) as [|r l IH]; simpl; [done|].
  rewrite IH. f_equal. unfold registry_matches at 1 3.
  by destruct (registry_matches p r).
Qed.

Lemma updated_registry_select v now p db :
  is_Some (select_current_version db p) ->
  select_current_version (updated_registry v now p db) p = Some v.
Proof.
  unfold select_current_version. simpl.
  induction (file_registry db) as [|r l IH]; simpl.
  - by intros [? ?].
  - destruct (registry_matches p r) eqn:Hr; simpl.
    + unfold registry_matches at 1. simpl.
      unfold registry_matches in Hr. rewrite Hr. done.
    + rewrite Hr. exact IH.
Qed.

Lemma updated_registry_select_None v now p db :
  select_current_version db p = None ->
  updated_registry v now p db = db.
Proof.
  unfold select_current_version, updated_registry. simpl.
  destruct db as [snaps seq reg]. simpl. intros H. f_equal.
  induction reg as [|r l IH]; simpl in *; [done|].
  destruct (registry_matches p r); [done|]. by rewrite IH.
Qed.

Section HistoryProofs.

Variable sha : pystr -> pystr.

Local Abbreviation snapshot := (snapshot_file sha).

(** ** What one call of [snapshot_file] does, case by case *)

Lemma snapshot_file_unchanged conn p c l f m now cur :
  select_current_version (view conn) p = Some cur ->
  current_checksum conn p = Some (_checksum sha c) ->
  snapshot p c l f m now conn = (Returned cur, conn).
Proof.
  intros Hcur Hcs. unfold current_checksum in Hcs. rewrite Hcur in Hcs.
  simpl in Hcs.
  unfold snapshot_file, mbind, M_bind, fetchone. simpl. rewrite Hcur.
  destruct (select_snapshot (view conn) p cur) as [s|]; simplify_eq/=.
  rewrite bool_decide_eq_true_2; done.
Qed.

Lemma snapshot_file_tracked conn p c l f m now cur :
  select_current_version (view conn) p = Some cur ->
  current_checksum conn p <> Some (_checksum sha c) ->
  snapshot p c l f m now conn =
  let db := updated_registry (cur + 1) now p (view conn) in
  match insert_snapshot p (cur + 1) c now (_checksum sha c) m db with
  | Returned db' => (Returned (cur + 1), {| view := db'; committed := db' |})
  | Raised e => (Raised e, {| view := db; committed := committed conn |})
  end.
Proof.
  intros Hcur Hcs. unfold current_checksum in Hcs. rewrite Hcur in Hcs.
  simpl in Hcs.
  unfold snapshot_file, mbind, M_bind, fetchone. simpl. rewrite Hcur.
  destruct (select_snapshot (view conn) p cur) as [s|] eqn:Hs; simpl in *.
  - rewrite bool_decide_eq_false_2 by congruence.
    unfold execute at 1. simpl.
    unfold execute. simpl.
    by destruct (insert_snapshot _ _ _ _ _ _ _).
  - unfold execute at 1. simpl.
    unfold execute. simpl.
    by destruct (insert_snapshot _ _ _ _ _ _ _).
Qed.

Lemma snapshot_file_untracked conn p c l f m now :
  select_current_version (view conn) p = None ->
  snapshot p c l f m now conn =
  let row := {| reg_file_path := p; reg_current_version := 1;
                reg_first_seen := now; reg_last_modified := now;
                reg_language := l; reg_folder := f |} in
  let db := {| snapshots := snapshots (view conn);
               snapshots_seq := snapshots_seq (view conn);
               file_registry := file_registry (view conn) ++ [row] |} in
  match insert_snapshot p 1 c now (_checksum sha c) m db with
  | Returned db' => (Returned 1, {| view := db'; committed := db' |})
  | Raised e => (Raised e, {| view := db; committed := committed conn |})
  end.
Proof.
  intros Hcur.
  unfold snapshot_file, mbind, M_bind, fetchone. simpl. rewrite Hcur.
  unfold execute at 1. unfold insert_registry. simpl.
  assert (existsb (registry_matches p) (file_registry (view conn)) = false) as ->.
  { rewrite existsb_find. unfold select_current_version in Hcur.
    by destruct (find _ _). }
  unfold execute. simpl.
  by destruct (insert_snapshot _ _ _ _ _ _ _).
Qed.

(** ** The invariant of reachable connections *)

Lemma db_ok_updated v now p db :
  db_ok sha db -> db_ok sha (updated_registry v now p db).
Proof.
  intros [H1 H2]. split; [exact H1|].
  intros r Hr. rewrite updated_registry_matches. by apply H2.
Qed.

Lemma db_ok_insert_snapshot p v c now m db db' :
  db_ok sha db ->
  existsb (registry_matches p) (file_registry db) = true ->
  insert_snapshot p v c now (_checksum sha c) m db = Returned db' ->
  db_ok sha db'.
Proof.
  intros [H1 H2] Hp. unfold insert_snapshot.
  destruct (existsb _ (snapshots db)); [done|]. intros [= <-].
  split; simpl; intros r [Hr|Hr]%elem_of_app.
  - by apply H1.
  - by apply list_elem_of_singleton in Hr as ->.
  - by apply H2.
  - by apply list_elem_of_singleton in Hr as ->.
Qed.

Lemma select_current_version_matches db p :
  is_Some (select_current_version db p) ->
  existsb (registry_matches p) (file_registry db) = true.
Proof.
  rewrite existsb_find. unfold select_current_version.
  destruct (find _ _); [done|]. by intros [? ?].
Qed.

Lemma conn_ok_snapshot conn p c l f m now :
  conn_ok sha conn -> conn_ok sha (snd (snapshot p c l f m now conn)).
Proof.
  intros [Hv Hc].
  destruct (select_current_version (view conn) p) as [cur|] eqn:Hcur.
  - destruct (decide (current_checksum conn p = Some (_checksum sha c)))
      as [Hcs|Hcs].
    + by rewrite (snapshot_file_unchanged _ _ _ _ _ _ _ _ Hcur Hcs).
    + rewrite (snapshot_file_tracked _ _ _ _ _ _ _ _ Hcur Hcs). simpl.
      pose proof (db_ok_updated (cur + 1) now p _ Hv) as Hu.
      destruct (insert_snapshot _ _ _ _ _ _ _) as [db'|e] eqn:Hins; simpl.
      * assert (db_ok sha db'); [|by split].
        eapply db_ok_insert_snapshot; [exact Hu| |exact Hins].
        rewrite updated_registry_matches.
        apply select_current_version_matches. by rewrite Hcur.
      * by split.
  - rewrite (snapshot_file_untracked _ _ _ _ _ _ _ Hcur). simpl.
    set (db := {| snapshots := _; snapshots_seq := _; file_registry := _ |}).
    assert (Hdb : db_ok sha db).
    { destruct Hv as [H1 H2]. split; [exact H1|]. intros r Hr. simpl.
      rewrite existsb_app, (H2 r Hr). done. }
    destruct (insert_snapshot _ _ _ _ _ _ _) as [db'|e] eqn:Hins; simpl.
    + assert (db_ok sha db'); [|by split].
      eapply db_ok_insert_snapshot; [exact Hdb| |exact Hins].
      simpl. rewrite existsb_app. simpl. unfold registry_matches at 2. simpl.
      rewrite bool_decide_eq_true_2 by done. by rewrite orb_true_r.
    + by split.
Qed.

Lemma restore_to_version_spec p v now conn :
  restore_to_version p v now conn =
  match select_snapshot (view conn) p v with
  | None => (Returned false, conn)
  | Some _ =>
      let db := updated_registry v now p (view conn) in
      (Returned true, {| view := db; committed := db |})
  end.
Proof.
  unfold restore_to_version, mbind, M_bind, fetchone. simpl.
  by destruct (select_snapshot (view conn) p v).
Qed.

Lemma conn_ok_restore conn p v now :
  conn_ok sha conn -> conn_ok sha (snd (restore_to_version p v now conn)).
Proof.
  intros [Hv Hc]. rewrite restore_to_version_spec.
  destruct (select_snapshot _ _ _); [|by split].
  simpl. split; by apply db_ok_updated.
Qed.

Lemma reachable_ok conn : reachable sha conn -> conn_ok sha conn.
Proof.
  induction 1 as [| | |conn _ [_ Hc]].
  - split; split; intros r Hr; by apply elem_of_nil in Hr.
  - by apply conn_ok_snapshot.
  - by apply conn_ok_restore.
  - by split.
Qed.

Lemma get_latest_version_spec p conn :
  get_latest_version p conn = (Returned (current_version_of conn p), conn).
Proof.
  unfold get_latest_version, current_version_of, mbind, M_bind, fetchone.
  simpl. by destruct (select_current_version (view conn) p).
Qed.

Lemma get_snapshot_spec p v conn :
  get_snapshot p v conn
  = (Returned (snap_content <$> select_snapshot (view conn) p v), conn).
Proof. reflexivity. Qed.

(** ** Inserting a snapshot *)

Lemma insert_snapshot_inv p v c now cs m db db' :
  insert_snapshot p v c now cs m db = Returned db' ->
  select_snapshot db p v = None
  /\ file_registry db' = file_registry db
  /\ exists row,
       snapshots db' = snapshots db ++ [row]
       /\ snap_checksum row = cs
       /\ select_snapshot db' p v = Some row.
Proof.
  unfold insert_snapshot. rewrite existsb_find. unfold select_snapshot.
  destruct (find _ (snapshots db)) eqn:Hf; [done|]. intros [= <-]. simpl.
  split; [done|]. split; [done|].
  eexists. split; [reflexivity|]. split; [reflexivity|].
  rewrite (find_app_None _ _ _ Hf). simpl.
  unfold snapshot_matches. simpl. by rewrite !bool_decide_eq_true_2.
Qed.

Lemma insert_snapshot_taken p v c now cs m db :
  is_Some (select_snapshot db p v) ->
  exists msg, insert_snapshot p v c now cs m db = Raised (IntegrityError msg).
Proof.
  unfold insert_snapshot. rewrite existsb_find. unfold select_snapshot.
  destruct (find _ (snapshots db)); [eauto|]. by intros [? ?].
Qed.

Lemma select_appended_registry db p row :
  select_current_version db p = None ->
  reg_file_path row = p ->
  find (registry_matches p) (file_registry db ++ [row]) = Some row.
Proof.
  unfold select_current_version. intros Hn Hp.
  destruct (find _ (file_registry db)) eqn:Hf; [done|].
  rewrite (find_app_None _ _ _ Hf). simpl.
  unfold registry_matches. by rewrite bool_decide_eq_true_2.
Qed.

(** After a call that returned [v], the registry points at [v] and the
    snapshot at [v] carries the checksum of the content passed. *)
Lemma snapshot_file_returned conn p c l f m now v conn1 :
  snapshot p c l f m now conn = (Returned v, conn1) ->
  select_current_version (view conn1) p = Some v
  /\ current_checksum conn1 p = Some (_checksum sha c)
  /\ snapshot_rows conn1 =
     snapshot_rows conn
     + (if decide (current_checksum conn p = Some (_checksum sha c))
        then 0 else 1).
Proof.
  intros Hcall.
  destruct (select_current_version (view conn) p) as [cur|] eqn:Hcur.
  - destruct (decide (current_checksum conn p = Some (_checksum sha c)))
      as [Hcs|Hcs].
    + rewrite (snapshot_file_unchanged _ _ _ _ _ _ _ _ Hcur Hcs) in Hcall.
      simplify_eq. split; [done|]. split; [done|]. lia.
    + rewrite (snapshot_file_tracked _ _ _ _ _ _ _ _ Hcur Hcs) in Hcall.
      simpl in Hcall.
      destruct (insert_snapshot _ _ _ _ _ _ _) as [db'|e] eqn:Hins;
        simplify_eq.
      destruct (insert_snapshot_inv _ _ _ _ _ _ _ _ Hins)
        as (_ & Hreg & row & Hsnaps & Hrow & Hsel).
      assert (Hv : select_current_version db' p = Some (cur + 1)).
      { unfold select_current_version. rewrite Hreg.
        apply updated_registry_select. by rewrite Hcur. }
      split; [done|]. split.
      * unfold current_checksum. simpl. rewrite Hv. simpl.
        by rewrite Hsel, <- Hrow.
      * unfold snapshot_rows. simpl. rewrite Hsnaps, length_app. simpl. lia.
  - assert (Hcs : current_checksum conn p <> Some (_checksum sha c)).
    { unfold current_checksum. by rewrite Hcur. }
    rewrite (snapshot_file_untracked _ _ _ _ _ _ _ Hcur) in Hcall.
    simpl in Hcall.
    destruct (insert_snapshot _ _ _ _ _ _ _) as [db'|e] eqn:Hins; simplify_eq.
    destruct (insert_snapshot_inv _ _ _ _ _ _ _ _ Hins)
      as (_ & Hreg & row & Hsnaps & Hrow & Hsel).
    assert (Hv : select_current_version db' p = Some 1).
    { unfold select_current_version. rewrite Hreg. simpl.
      by erewrite select_appended_registry. }
    split; [done|]. split.
    + unfold current_checksum. simpl. rewrite Hv. simpl.
      by rewrite Hsel, <- Hrow.
    + unfold snapshot_rows. simpl. rewrite Hsnaps, length_app. simpl.
      destruct (decide _); [done|lia].
Qed.

(** C4.  A call of [snapshot_file] that returns, made with content whose
    hash is not the checksum of the snapshot at the file's current
    version (an untracked file has no such snapshot, and current version
    0), leaves [current_version] one above what it was, and returns it. *)
Theorem snapshot_file_new_content_increments conn p c l f m now v conn1 :
  snapshot p c l f m now conn = (Returned v, conn1) ->
  current_checksum conn p <> Some (_checksum sha c) ->
  get_latest_version p conn1 = (Returned (current_version_of conn p + 1), conn1)
  /\ v = current_version_of conn p + 1.
Proof.
  intros Hcall Hnew. rewrite get_latest_version_spec.
  destruct (snapshot_file_returned _ _ _ _ _ _ _ _ _ Hcall) as (Hv & _ & _).
  assert (Hcur1 : current_version_of conn1 p = v).
  { unfold current_version_of. by rewrite Hv. }
  rewrite Hcur1.
  assert (Hv' : v = current_version_of conn p + 1);
    [|rewrite <- Hv'; split; reflexivity].
  unfold current_version_of.
  destruct (select_current_version (view conn) p) as [cur|] eqn:Hcur.
  - rewrite (snapshot_file_tracked _ _ _ _ _ _ _ _ Hcur Hnew) in Hcall.
    simpl in *. by destruct (insert_snapshot _ _ _ _ _ _ _); simplify_eq.
  - rewrite (snapshot_file_untracked _ _ _ _ _ _ _ Hcur) in Hcall.
    simpl in *. by destruct (insert_snapshot _ _ _ _ _ _ _); simplify_eq.
Qed.

(** C3 (amended).  When [snapshot_file] returns [v], calling it again
    with the same content returns [v] again and changes nothing: no
    table, no [current_version].  The two calls together write one
    snapshot row when the first call met new content, and none when the
    content was already the one at the current version. *)
Theorem snapshot_file_twice conn p c l f m now l' f' m' now' v conn1 :
  snapshot p c l f m now conn = (Returned v, conn1) ->
  snapshot p c l' f' m' now' conn1 = (Returned v, conn1)
  /\ snapshot_rows conn1 =
     snapshot_rows conn
     + (if decide (current_checksum conn p = Some (_checksum sha c))
        then 0 else 1).
Proof.
  intros Hcall.
  destruct (snapshot_file_returned _ _ _ _ _ _ _ _ _ Hcall) as (Hv & Hcs & Hn).
  split; [|exact Hn].
  by apply snapshot_file_unchanged.
Qed.

(** C5.  A tracked file was rewound by [restore_to_version] to version
    [v] while the snapshot of version [v + 1] is still stored.  The next
    [snapshot_file] with content whose hash is not the checksum of
    snapshot [v] tries to insert key [(file_path, v + 1)] again: it
    raises [IntegrityError] and writes no snapshot row.  (The registry
    update made before the insert stays in the open transaction.) *)
Theorem snapshot_after_rewind_raises conn p v c l f m now now' conn1 :
  is_Some (select_current_version (view conn) p) ->
  restore_to_version p v now conn = (Returned true, conn1) ->
  is_Some (select_snapshot (view conn) p (v + 1)) ->
  snap_checksum <$> select_snapshot (view conn) p v <> Some (_checksum sha c) ->
  exists msg conn2,
    snapshot p c l f m now' conn1 = (Raised (IntegrityError msg), conn2)
    /\ snapshots (view conn2) = snapshots (view conn1)
    /\ committed conn2 = committed conn1
    /\ current_version_of conn2 p = v + 1.
Proof.
  intros Htracked Hrestore Hnext Hdiff.
  rewrite restore_to_version_spec in Hrestore.
  destruct (select_snapshot (view conn) p v) as [s|] eqn:Hs; simplify_eq/=.
  set (db1 := updated_registry v now p (view conn)).
  assert (Hcur : select_current_version db1 p = Some v)
    by by apply updated_registry_select.
  assert (Hcs : current_checksum {| view := db1; committed := db1 |} p
                <> Some (_checksum sha c)).
  { unfold current_checksum. simpl. rewrite Hcur. simpl.
    unfold select_snapshot, db1. rewrite updated_registry_snapshots.
    fold (select_snapshot (view conn) p v). by rewrite Hs. }
  rewrite (snapshot_file_tracked {| view := db1; committed := db1 |}
             _ _ _ _ _ _ _ Hcur Hcs). simpl.
  destruct (insert_snapshot_taken p (v + 1) c now' (_checksum sha c) m
              (updated_registry (v + 1) now' p db1)) as (msg & ->).
  { unfold select_snapshot. by rewrite !updated_registry_snapshots. }
  exists msg. eexists. split; [reflexivity|]. simpl.
  split; [done|]. split; [done|].
  unfold current_version_of. simpl.
  rewrite updated_registry_select; [done|]. by rewrite Hcur.
Qed.

(** C2.  In every state the store can reach, for every file and every
    version [v] that has a stored snapshot: [restore_to_version] succeeds,
    and [snapshot_file] with the content of snapshot [v] then returns [v],
    leaves [current_version] at [v] and writes nothing: the connection
    after it is the connection before it, with the snapshot rows the
    store had before the restore. *)
Theorem restore_then_snapshot conn p v l f m now now' :
  reachable sha conn ->
  is_Some (select_snapshot (view conn) p v) ->
  exists conn1 content,
    restore_to_version p v now conn = (Returned true, conn1)
    /\ get_snapshot p v conn1 = (Returned (Some content), conn1)
    /\ snapshot p content l f m now' conn1 = (Returned v, conn1)
    /\ get_latest_version p conn1 = (Returned v, conn1)
    /\ snapshots (view conn1) = snapshots (view conn).
Proof.
  intros Hreach [s Hs].
  destruct (reachable_ok _ Hreach) as [[Hsum Hreg] _].
  destruct (find_elem_of _ _ _ Hs) as [Hin Hm].
  assert (Hp : snap_file_path s = p).
  { unfold snapshot_matches in Hm. apply andb_true_iff in Hm as [Hm _].
    by apply bool_decide_eq_true in Hm. }
  assert (Htracked : is_Some (select_current_version (view conn) p)).
  { pose proof (Hreg s Hin) as He. rewrite Hp, existsb_find in He.
    unfold select_current_version. by destruct (find _ _). }
  rewrite restore_to_version_spec, Hs. simpl.
  set (db1 := updated_registry v now p (view conn)).
  assert (Hcur : select_current_version db1 p = Some v)
    by by apply updated_registry_select.
  assert (Hs1 : select_snapshot db1 p v = Some s) by exact Hs.
  exists {| view := db1; committed := db1 |}, (snap_content s).
  split; [done|]. split; [by rewrite get_snapshot_spec; simpl; rewrite Hs1|].
  split.
  - apply (snapshot_file_unchanged {| view := db1; committed := db1 |});
      [done|].
    unfold current_checksum. simpl. rewrite Hcur. simpl. rewrite Hs1. simpl.
    by rewrite (Hsum s Hin).
  - split; [|done].
    rewrite get_latest_version_spec. unfold current_version_of. simpl.
    by rewrite Hcur.
Qed.

End HistoryProofs.

(** The theorems at a small store. *)

Lemma restore_then_snapshot_witness :
  reachable example_digest store_v2
  /\ is_Some (select_snapshot (view store_v2) (py "src/x.py") 1)
  /\ exists conn1 content,
       restore_to_version (py "src/x.py") 1 300 store_v2 = (Returned true, conn1)
       /\ get_snapshot (py "src/x.py") 1 conn1 = (Returned (Some content), conn1)
       /\ snapshot_file example_digest (py "src/x.py") content (py "python")
            (py "src") None 301 conn1 = (Returned 1, conn1)
       /\ get_latest_version (py "src/x.py") conn1 = (Returned 1, conn1)
       /\ snapshots (view conn1) = snapshots (view store_v2).
Proof.
  assert (Hr : reachable example_digest store_v2).
  { unfold store_v2, store_x. do 2 apply reachable_snapshot.
    apply reachable_init. }
  assert (Hs : is_Some (select_snapshot (view store_v2) (py "src/x.py") 1)).
  { vm_compute. eauto. }
  split; [exact Hr|]. split; [exact Hs|].
  exact (restore_then_snapshot example_digest store_v2 (py "src/x.py") 1
           (py "python") (py "src") None 300 301 Hr Hs).
Defined.

Lemma snapshot_file_twice_witness :
  snapshot_file example_digest (py "src/x.py") (py "one") (py "python")
    (py "src") None 100 init = (Returned 1, store_x)
  /\ snapshot_file example_digest (py "src/x.py") (py "one") (py "python")
       (py "src") None 101 store_x = (Returned 1, store_x)
  /\ snapshot_rows store_x = snapshot_rows init + 1.
Proof.
  assert (H : snapshot_file example_digest (py "src/x.py") (py "one")
                (py "python") (py "src") None 100 init = (Returned 1, store_x))
    by reflexivity.
  split; [exact H|].
  exact (snapshot_file_twice example_digest init (py "src/x.py") (py "one")
           (py "python") (py "src") None 100 (py "python") (py "src") None 101
           1 store_x H).
Defined.

(** C3, as stated, fails when the content is already the one at the
    current version: both calls return version 1, and together they
    write no snapshot row, not one. *)
Lemma snapshot_file_twice_writes_no_row :
  let call now conn :=
    snapshot_file example_digest (py "src/x.py") (py "one") (py "python")
      (py "src") None now conn in
  fst (call 101 store_x) = Returned 1
  /\ fst (call 102 (snd (call 101 store_x))) = Returned 1
  /\ snapshot_rows (snd (call 102 (snd (call 101 store_x))))
     = snapshot_rows store_x.
Proof. by vm_compute. Qed.

Lemma snapshot_file_new_content_increments_witness :
  snapshot_file example_digest (py "src/x.py") (py "two") (py "python")
    (py "src") None 200 store_x = (Returned 2, store_v2)
  /\ current_checksum store_x (py "src/x.py")
     <> Some (_checksum example_digest (py "two"))
  /\ get_latest_version (py "src/x.py") store_v2
     = (Returned (current_version_of store_x (py "src/x.py") + 1), store_v2)
  /\ 2 = current_version_of store_x (py "src/x.py") + 1.
Proof.
  assert (H : snapshot_file example_digest (py "src/x.py") (py "two")
                (py "python") (py "src") None 200 store_x
              = (Returned 2, store_v2)) by reflexivity.
  assert (Hn : current_checksum store_x (py "src/x.py")
               <> Some (_checksum example_digest (py "two")))
    by (vm_compute; discriminate).
  split; [exact H|]. split; [exact Hn|].
  exact (snapshot_file_new_content_increments example_digest store_x
           (py "src/x.py") (py "two") (py "python") (py "src") None 200 2
           store_v2 H Hn).
Defined.

Lemma snapshot_after_rewind_raises_witness :
  is_Some (select_current_version (view store_v2) (py "src/x.py"))
  /\ restore_to_version (py "src/x.py") 1 300 store_v2
     = (Returned true, store_rewound)
  /\ is_Some (select_snapshot (view store_v2) (py "src/x.py") (1 + 1))
  /\ exists msg conn2,
       snapshot_file example_digest (py "src/x.py") (py "three") (py "python")
         (py "src") None 301 store_rewound
       = (Raised (IntegrityError msg), conn2)
       /\ snapshots (view conn2) = snapshots (view store_rewound)
       /\ committed conn2 = committed store_rewound
       /\ current_version_of conn2 (py "src/x.py") = 1 + 1.
Proof.
  assert (H1 : is_Some (select_current_version (view store_v2) (py "src/x.py")))
    by (vm_compute; eauto).
  assert (H2 : restore_to_version (py "src/x.py") 1 300 store_v2
               = (Returned true, store_rewound)) by reflexivity.
  assert (H3 : is_Some (select_snapshot (view store_v2) (py "src/x.py") (1 + 1)))
    by (vm_compute; eauto).
  assert (H4 : snap_checksum <$> select_snapshot (view store_v2) (py "src/x.py") 1
               <> Some (_checksum example_digest (py "three")))
    by (vm_compute; discriminate).
  split; [exact H1|]. split; [exact H2|]. split; [exact H3|].
  exact (snapshot_after_rewind_raises example_digest store_v2 (py "src/x.py") 1
           (py "three") (py "python") (py "src") None 300 301 store_rewound
           H1 H2 H3 H4).
Defined.

(** ** Folder queries *)

(** C9 (the code departs from the claim).  With [src/x.py] and [srcx.py]
    tracked, the folder prefix [SRC], which no tracked path extends, is
    answered with [src/x.py]: [LIKE] compares ASCII letters without regard
    to case, while the docstring says "The comparison is case-sensitive".
    The same happens through the wildcards of the pattern: the prefixes
    [s_c] and [sr%] are answered with [src/x.py] too.  The prefix [src]
    itself is answered as the claim says, with [src/x.py] and without
    [srcx.py]. *)
Theorem list_files_in_folder_is_not_exact :
  fst (list_files_in_folder (py "SRC") store_xy) = Returned [py "src/x.py"]
  /\ fst (list_files_in_folder (py "s_c") store_xy) = Returned [py "src/x.py"]
  /\ fst (list_files_in_folder (py "sr%") store_xy) = Returned [py "src/x.py"]
  /\ fst (list_files_in_folder (py "src") store_xy) = Returned [py "src/x.py"]
  /\ fst (list_all_files store_xy) = Returned [py "src/x.py"; py "srcx.py"].
Proof. by vm_compute. Qed.

(** What the query returns in general: the tracked paths that match the
    [LIKE] pattern.  Every tracked path that extends the prefix at a
    segment boundary is among them; the converse is what fails. *)








(* ===================================================================== *)
(** * Properties of the retrieval pipeline *)
(* ===================================================================== *)

Import Rag RagSpec.

(** ** Comparing binary64 floats *)

Lemma SFcompare_swap x y :
  SFcompare y x = CompOpp <$> SFcompare x y.
Proof.
  destruct x as [sx|sx| |sx mx ex], y as [sy|sy| |sy my ey]; simpl;
    try reflexivity;
    try (by destruct sx); try (by destruct sy);
    try (by destruct sx, sy).
  destruct sx, sy; simpl; try reflexivity.
  - rewrite (Z.compare_antisym ex ey).
    destruct (ex ?= ey)%Z; simpl; try reflexivity.
    by rewrite (Pos.compare_cont_antisym mx my Eq).
  - rewrite (Z.compare_antisym ex ey).
    destruct (ex ?= ey)%Z; simpl; try reflexivity.
    by rewrite (Pos.compare_cont_antisym mx my Eq).
Qed.

(** A score strictly below the threshold does not reach it. *)
Lemma float_ltb_not_leb (x y : float) :
  (x <? y)%float = true -> (y <=? x)%float = false.
Proof.
  rewrite ltb_spec, leb_spec. unfold SFltb, SFleb.
  rewrite (SFcompare_swap (Prim2SF x) (Prim2SF y)).
  by destruct (SFcompare (Prim2SF x) (Prim2SF y)) as [[]|].
Qed.

Lemma filter_none_below (threshold : float) (results : list result) :
  Forall (fun r => (score r <? threshold)%float = true) results ->
  filter (fun r => (threshold <=? score r)%float = true) results = [].
Proof.
  induction 1 as [|r l Hr _ IH]; [done|].
  rewrite filter_cons, IH.
  rewrite decide_False; [done|].
  by rewrite (float_ltb_not_leb _ _ Hr).
Qed.

Section PipelineProofs.

Variable pf : platform.
Variable format_3f : float -> pystr.

Local Abbreviation ask' := (ask pf format_3f).

(** ** What [_call_zai] and [ask] do, step by step *)

Lemma _call_zai_spec question context config w :
  _call_zai pf question context config w =
  let w' := after_dotenv pf w in
  match openai pf with
  | None => (Raised (ImportError "openai"), w')
  | Some endpoint =>
      if negb (truthy (api_key pf config w)) then
        (Raised (EnvironmentError
                   (py "Z.ai API key not set. Set the '" ++ api_key_env config
                    ++ py "' environment variable.")), w')
      else
        let req := request_of pf question context config w in
        match endpoint req with
        | Raised e => (Raised e, sent req w')
        | Returned [] =>
            (Raised (ProviderError "IndexError: list index out of range"),
             sent req w')
        | Returned (msg :: _) =>
            (Returned (str_or (msg_content msg)
                         (str_or (msg_reasoning_content msg) [])),
             sent req w')
        end
  end.
Proof.
  unfold _call_zai, request_of, sent, api_key, after_dotenv.
  unfold mbind, M_bind, load_dotenv, get_state, raise, issue, mret, M_ret.
  destruct (dotenv pf) as [[project_env global_env]|]; simpl;
    (destruct (openai pf) as [endpoint|]; [|reflexivity]);
    (destruct (negb _); [reflexivity|]);
    by destruct (endpoint _) as [[|msg ?]|].
Qed.

Lemma ask_spec question config embedder vector_store top_k folder threshold w :
  ask' question config embedder vector_store top_k folder threshold w =
  match embed_query embedder question w with
  | (Raised e, w1) => (Raised e, w1)
  | (Returned query_embedding, w1) =>
      match vs_query vector_store query_embedding folder top_k w1 with
      | (Raised e, w2) => (Raised e, w2)
      | (Returned results, w2) =>
          let relevant :=
            filter (fun r => (default _RELEVANCE_THRESHOLD threshold
                              <=? score r)%float = true) results in
          match _call_llm pf question
                  (context_string format_3f (used_chunks threshold results))
                  config w2 with
          | (Raised e, w3) => (Raised e, w3)
          | (Returned a, w3) =>
              (Returned
                 {| answer := a;
                    sources := map source_of (used_chunks threshold results);
                    relevant_count := Z.of_nat (length relevant);
                    total_retrieved := Z.of_nat (length results) |}, w3)
          end
      end
  end.
Proof.
  unfold ask, mbind, M_bind.
  destruct (embed_query embedder question w) as [[qe|e] w1]; [|reflexivity].
  destruct (vs_query vector_store qe folder top_k w1) as [[results|e] w2];
    [|reflexivity].
  reflexivity.
Qed.

(** With every score below the threshold, [ask] is the generation step
    run on all the retrieved chunks. *)
Lemma ask_fallback
    question config embedder vector_store top_k folder threshold
    w query_embedding w1 results w2 :
  embed_query embedder question w = (Returned query_embedding, w1) ->
  vs_query vector_store query_embedding folder top_k w1 = (Returned results, w2) ->
  Forall (fun r => (score r <? default _RELEVANCE_THRESHOLD threshold)%float = true)
         results ->
  ask' question config embedder vector_store top_k folder threshold w =
    match _call_llm pf question (context_string format_3f results) config w2 with
    | (Returned a, w3) => (Returned (fallback_result results a), w3)
    | (Raised e, w3) => (Raised e, w3)
    end.
Proof.
  intros He Hq Hlow.
  rewrite ask_spec, He, Hq. simpl.
  unfold used_chunks. rewrite (filter_none_below _ _ Hlow). simpl.
  by destruct (_call_llm _ _ _ _ _) as [[a|e] w3].
Qed.

(** C7.  Whatever the question, the embedder and the vector store: when
    every retrieved score is strictly below the threshold, [ask] hands all
    the retrieved chunks to the generation step and, when that step
    answers, returns [relevant_count = 0] with one source per retrieved
    entry, in order ([total_retrieved] of them).  When the generation
    step raises, so does [ask]. *)
Theorem ask_falls_back_to_all_results
    question config embedder vector_store top_k folder threshold
    w query_embedding w1 results w2 :
  embed_query embedder question w = (Returned query_embedding, w1) ->
  vs_query vector_store query_embedding folder top_k w1 = (Returned results, w2) ->
  Forall (fun r => (score r <? default _RELEVANCE_THRESHOLD threshold)%float = true)
         results ->
  ask' question config embedder vector_store top_k folder threshold w =
    match _call_llm pf question (context_string format_3f results) config w2 with
    | (Returned a, w3) => (Returned (fallback_result results a), w3)
    | (Raised e, w3) => (Raised e, w3)
    end
  /\ (forall a, relevant_count (fallback_result results a) = 0
                /\ length (sources (fallback_result results a)) = length results
                /\ total_retrieved (fallback_result results a)
                   = Z.of_nat (length results)
                /\ forall i r, results !! i = Some r ->
                     sources (fallback_result results a) !! i = Some (source_of r)).
Proof.
  intros He Hq Hlow. split.
  - by eapply ask_fallback.
  - intros a. simpl. split; [done|]. split; [by rewrite length_map|].
    split; [done|]. intros i r Hr. by rewrite list_lookup_fmap, Hr.
Qed.

(** C10 (amended).  [ask] first calls the embedder and the vector store.
    Once both returned, with the [openai] package installed:
    - when the API key variable is unset (or empty) after the [.env] files
      were read, [ask] raises [EnvironmentError] and no request is sent
      to the generation endpoint: the calls made are those of the
      embedder and the vector store;
    - when the key is set and the endpoint raises, [ask] raises the same
      exception, after the one request it sent. *)
Theorem ask_key_check_follows_retrieval
    question config embedder vector_store top_k folder threshold
    w query_embedding w1 results w2 endpoint :
  embed_query embedder question w = (Returned query_embedding, w1) ->
  vs_query vector_store query_embedding folder top_k w1 = (Returned results, w2) ->
  openai pf = Some endpoint ->
  (truthy (api_key pf config w2) = false ->
     exists msg,
       ask' question config embedder vector_store top_k folder threshold w
       = (Raised (EnvironmentError msg), after_dotenv pf w2)
       /\ calls (after_dotenv pf w2) = calls w2)
  /\ (forall e,
        truthy (api_key pf config w2) = true ->
        endpoint (ask_request pf format_3f question config threshold results w2)
        = Raised e ->
        ask' question config embedder vector_store top_k folder threshold w
        = (Raised e,
           sent (ask_request pf format_3f question config threshold results w2)
                (after_dotenv pf w2))).
Proof.
  intros He Hq Hopenai. split.
  - intros Hkey. eexists. split.
    + rewrite ask_spec, He, Hq. simpl. unfold _call_llm.
      rewrite _call_zai_spec, Hopenai. simpl. by rewrite Hkey.
    + unfold after_dotenv. by destruct (dotenv pf) as [[? ?]|].
  - intros e Hkey Hfail.
    rewrite ask_spec, He, Hq. simpl. unfold _call_llm.
    rewrite _call_zai_spec, Hopenai. simpl. rewrite Hkey. simpl.
    unfold ask_request in Hfail. by rewrite Hfail.
Qed.

(** A failure of the embedder or of the vector store is raised by [ask]
    as it is, and the generation step is not reached. *)
Lemma ask_propagates_retrieval_failure
    question config embedder vector_store top_k folder threshold w :
  (forall e w1,
     embed_query embedder question w = (Raised e, w1) ->
     ask' question config embedder vector_store top_k folder threshold w
     = (Raised e, w1))
  /\ (forall query_embedding w1 e w2,
        embed_query embedder question w = (Returned query_embedding, w1) ->
        vs_query vector_store query_embedding folder top_k w1 = (Raised e, w2) ->
        ask' question config embedder vector_store top_k folder threshold w
        = (Raised e, w2)).
Proof.
  split.
  - intros e w1 He. by rewrite ask_spec, He.
  - intros qe w1 e w2 He Hq. by rewrite ask_spec, He, Hq.
Qed.

End PipelineProofs.

(** ** How many entries the vector store retrieves *)

Lemma insert_by_score_length x l :
  length (insert_by_score x l) = S (length l).
Proof.
  induction l as [|y l IH]; simpl; [done|].
  destruct (score x <? score y)%float; simpl; by rewrite ?IH.
Qed.

Lemma sort_by_score_desc_length l :
  length (sort_by_score_desc l) = length l.
Proof.
  induction l as [|x l IH]; simpl; [done|].
  by rewrite insert_by_score_length, IH.
Qed.

Lemma py_slice_prefix_length {A} (l : list A) k :
  0 <= k ->
  Z.of_nat (length (py_slice l 0 k)) = Z.min k (Z.of_nat (length l)).
Proof.
  intros Hk. unfold py_slice, slice_index.
  destruct (Z.ltb_spec 0 0); [lia|].
  destruct (Z.ltb_spec k 0); [lia|].
  rewrite length_take, length_drop. lia.
Qed.

(** [VectorStore.query] returns [min(top_k, available)] entries, where
    [available] counts what the searched collections returned. *)
Lemma query_length cl query_embedding folder top_k :
  0 <= top_k ->
  Z.of_nat (length (VectorStore.query cl query_embedding folder top_k))
  = Z.min top_k (Z.of_nat (length (available cl query_embedding folder top_k))).
Proof.
  intros Hk. unfold VectorStore.query.
  rewrite py_slice_prefix_length by done.
  by rewrite sort_by_score_desc_length.
Qed.

(** With the vector store of the repository, the fallback of C7 returns
    [min(top_k, available)] sources. *)
Lemma ask_fallback_sources_length pf format_3f
    question config embedder cl top_k folder threshold
    w query_embedding w1 :
  0 <= top_k ->
  embed_query embedder question w = (Returned query_embedding, w1) ->
  let results := VectorStore.query cl query_embedding folder top_k in
  Forall (fun r => (score r <? default _RELEVANCE_THRESHOLD threshold)%float = true)
         results ->
  forall r w3,
    ask pf format_3f question config embedder (chroma_store cl) top_k folder
      threshold w = (Returned r, w3) ->
    relevant_count r = 0
    /\ Z.of_nat (length (sources r))
       = Z.min top_k (Z.of_nat (length (available cl query_embedding folder top_k))).
Proof.
  intros Hk He results Hlow r w3 Hask.
  pose proof (ask_fallback pf format_3f question config embedder
                (chroma_store cl) top_k folder threshold w query_embedding w1
                results _ He eq_refl Hlow) as Hres.
  rewrite Hask in Hres.
  destruct (_call_llm _ _ _ _ _) as [[a|e] w3']; simplify_eq/=.
  split; [done|]. rewrite length_map. by apply query_length.
Qed.

(** The theorems at the small installation. *)

Lemma ask_falls_back_to_all_results_witness :
  let query_embedding := [0.5; 0.5]%float in
  let w1 := snd (embed_query example_embedder example_question keyed_world) in
  let results := VectorStore.query example_client query_embedding None 8 in
  let w2 := snd (vs_query example_store query_embedding None 8 w1) in
  Forall (fun r => (score r <? _RELEVANCE_THRESHOLD)%float = true) results
  /\ length results = 2%nat
  /\ ask example_platform example_format example_question example_config
       example_embedder example_store 8 None None keyed_world
     = match _call_llm example_platform example_question
               (context_string example_format results) example_config w2 with
       | (Returned a, w3) => (Returned (fallback_result results a), w3)
       | (Raised e, w3) => (Raised e, w3)
       end.
Proof.
  intros query_embedding w1 results w2.
  assert (Hlow : Forall (fun r => (score r <? default _RELEVANCE_THRESHOLD None)%float
                                  = true) results).
  { vm_compute. repeat constructor. }
  split; [exact Hlow|]. split; [reflexivity|].
  exact (proj1 (ask_falls_back_to_all_results example_platform example_format
                  example_question example_config example_embedder
                  example_store 8 None None keyed_world query_embedding w1
                  results w2 eq_refl eq_refl Hlow)).
Defined.

Lemma ask_key_check_follows_retrieval_witness :
  let query_embedding := [0.5; 0.5]%float in
  let w1 := snd (embed_query example_embedder example_question unkeyed_world) in
  let results := VectorStore.query example_client query_embedding None 8 in
  let w2 := snd (vs_query example_store query_embedding None 8 w1) in
  truthy (api_key example_platform example_config w2) = false
  /\ exists msg,
       ask example_platform example_format example_question example_config
         example_embedder example_store 8 None None unkeyed_world
       = (Raised (EnvironmentError msg), after_dotenv example_platform w2)
       /\ calls (after_dotenv example_platform w2) = calls w2.
Proof.
  intros query_embedding w1 results w2.
  assert (Hkey : truthy (api_key example_platform example_config w2) = false)
    by reflexivity.
  split; [exact Hkey|].
  exact (proj1 (ask_key_check_follows_retrieval example_platform example_format
                  example_question example_config example_embedder
                  example_store 8 None None unkeyed_world query_embedding w1
                  results w2 _ eq_refl eq_refl eq_refl) Hkey).
Defined.

(** C10, as stated, fails: with the API key variable unset, [ask] raises
    the configuration error only after the embedder was asked for the
    query vector and the vector store was queried. *)
Lemma ask_embeds_and_retrieves_before_key_check :
  let r := ask example_platform example_format example_question example_config
             example_embedder example_store 8 None None unkeyed_world in
  environ unkeyed_world !! api_key_env example_config = None
  /\ fst r = Raised (EnvironmentError
                      (py "Z.ai API key not set. Set the 'ZAI_API_KEY' environment variable."))
  /\ calls (snd r) = [EmbedTexts [example_question]; IndexQuery None 8].
Proof. vm_compute. by repeat split. Qed.

(** The second half of C10 at the small installation: the endpoint fails,
    and [ask] raises its exception after the one request. *)
Lemma ask_propagates_provider_failure_example :
  let r := ask failing_platform example_format example_question example_config
             example_embedder example_store 8 None None keyed_world in
  fst r = Raised (ProviderError "APIConnectionError")
  /\ exists req,
       calls (snd r) = [EmbedTexts [example_question]; IndexQuery None 8;
                        ChatCompletion req].
Proof. vm_compute. split; [reflexivity|]. eexists. reflexivity. Qed.

(* ===================================================================== *)
(** * Properties of the watcher *)
(* ===================================================================== *)

Import Watcher.

Section WatcherProofs.

Variable should_ignore : pystr -> bool.

Local Abbreviation after' := (after should_ignore).
Local Abbreviation run' := (run should_ignore).
Local Abbreviation accepted' := (accepted should_ignore).
Local Abbreviation dropped' := (dropped should_ignore).

(** One delivery does one of three things. *)
Lemma after_cases h d :
  let p := src_path (devent d) in
  after' h d = h
  \/ (touches p d = true
      /\ within_window (default 0%float (_last_event h !! p)) d = false
      /\ after' h d = {| _last_event := <[p := dnow d]> (_last_event h);
                         performed := performed h ++ [ProcessFile p] |})
  \/ (dtype d = Deleted
      /\ after' h d = {| _last_event := _last_event h;
                         performed := performed h ++ [DeleteFile p] |}).
Proof.
  intros p. unfold after, dispatch, on_created, on_modified, on_deleted,
    _handle_event, touches, within_window.
  destruct (dtype d); simpl;
    (destruct (is_directory (devent d)); [by left|]);
    (destruct (should_ignore (src_path (devent d))); [by left|]).
  - unfold mbind, M_bind, _is_debounced. fold p.
    destruct (dnow d - default 0 (_last_event h !! p) <? _DEBOUNCE_SECONDS)%float
      eqn:Hw; [by left|].
    right; left. by rewrite bool_decide_eq_true_2.
  - unfold mbind, M_bind, _is_debounced. fold p.
    destruct (dnow d - default 0 (_last_event h !! p) <? _DEBOUNCE_SECONDS)%float
      eqn:Hw; [by left|].
    right; left. by rewrite bool_decide_eq_true_2.
  - right; right. done.
Qed.

Lemma not_accepted_unchanged h d : after' h d = h -> ~ accepted' h d.
Proof.
  unfold accepted. intros -> Heq.
  apply (f_equal length) in Heq. rewrite length_app in Heq. simpl in Heq. lia.
Qed.

Lemma touches_path p d : touches p d = true -> src_path (devent d) = p.
Proof.
  unfold touches. destruct (dtype d); try done; by intros ?%bool_decide_eq_true.
Qed.

(** An accepted delivery records its time for its path. *)
Lemma accepted_records h d p :
  touches p d = true -> accepted' h d ->
  _last_event (after' h d) !! p = Some (dnow d).
Proof.
  intros Ht Hacc. pose proof (touches_path _ _ Ht) as Hp.
  destruct (after_cases h d) as [Hsame|[(_ & _ & ->)|(Hdel & _)]].
  - by destruct (not_accepted_unchanged _ _ Hsame).
  - simpl. rewrite Hp. apply lookup_insert_eq.
  - unfold touches in Ht. by rewrite Hdel in Ht.
Qed.

(** The time recorded for a path stays until a delivery for that path is
    accepted. *)
Lemma last_event_kept h d p t :
  _last_event h !! p = Some t ->
  (touches p d = true -> ~ accepted' h d) ->
  _last_event (after' h d) !! p = Some t.
Proof.
  intros Hl Hno.
  destruct (after_cases h d) as [->|[(Ht & _ & Heq)|(_ & ->)]]; [done| |done].
  rewrite Heq. simpl.
  destruct (decide (src_path (devent d) = p)) as [Hp|Hp].
  - destruct Hno.
    + by rewrite <- Hp.
    + unfold accepted. by rewrite Heq.
  - by rewrite lookup_insert_ne.
Qed.

(** Inside the window of the time recorded for its path, a create or
    modify delivery changes nothing. *)
Lemma within_window_dropped h d p t :
  _last_event h !! p = Some t ->
  touches p d = true ->
  within_window t d = true ->
  after' h d = h.
Proof.
  intros Hl Ht Hw. pose proof (touches_path _ _ Ht) as Hp.
  destruct (after_cases h d) as [Hsame|[(_ & Hout & _)|(Hdel & _)]]; [done| |].
  - rewrite Hp, Hl in Hout. simpl in Hout. congruence.
  - unfold touches in Ht. by rewrite Hdel in Ht.
Qed.

Lemma run_take_S h (ds : list delivery) k d :
  ds !! k = Some d ->
  run' h (take (S k) ds) = after' (run' h (take k ds)) d.
Proof.
  intros Hk. rewrite (take_S_r _ _ _ Hk). unfold run. by rewrite foldl_app.
Qed.

(** C8 (amended).  For every handler state and every sequence of
    deliveries: take a create or modify delivery [di] for a path and a
    later create or modify delivery [dj] for the same path, with no
    delivery for that path accepted between the two, and [dj] arriving
    less than the debounce window (1 second) after [di].  If [di] was
    accepted, then [dj] is dropped: [_process_file] is not run, and the
    handler, its recorded time for the path included, is left as it was.
    So the two never both trigger file processing.  A delete delivery is
    not debounced: see [debounce_does_not_drop_delete]. *)
Theorem debounce_drops_within_window h (ds : list delivery) i j di dj p :
  (i < j)%nat ->
  ds !! i = Some di ->
  ds !! j = Some dj ->
  touches p di = true ->
  touches p dj = true ->
  (forall k dk, (i < k < j)%nat -> ds !! k = Some dk -> touches p dk = true ->
     ~ accepted' (run' h (take k ds)) dk) ->
  within_window (dnow di) dj = true ->
  (accepted' (run' h (take i ds)) di ->
     dropped' (run' h (take j ds)) dj
     /\ _last_event (run' h (take j ds)) !! p = Some (dnow di))
  /\ ~ (accepted' (run' h (take i ds)) di /\ accepted' (run' h (take j ds)) dj).
Proof.
  intros Hij Hi Hj Hti Htj Hbetween Hw.
  assert (Hdrop : accepted' (run' h (take i ds)) di ->
            dropped' (run' h (take j ds)) dj
            /\ _last_event (run' h (take j ds)) !! p = Some (dnow di)).
  { intros Hacc.
    assert (Hinv : forall n, (S i + n <= j)%nat ->
              _last_event (run' h (take (S i + n) ds)) !! p = Some (dnow di)).
    { induction n as [|n IH]; intros Hn.
      - rewrite Nat.add_0_r, (run_take_S _ _ _ _ Hi).
        by apply accepted_records.
      - destruct (lookup_lt_is_Some_2 ds (S i + n)) as [dk Hk].
        { apply lookup_lt_Some in Hj. lia. }
        replace (S i + S n)%nat with (S (S i + n)) by lia.
        rewrite (run_take_S _ _ _ _ Hk).
        apply last_event_kept; [apply IH; lia|].
        intros Htk. apply (Hbetween (S i + n)%nat dk); [lia|done|done]. }
    specialize (Hinv (j - S i)%nat ltac:(lia)).
    replace (S i + (j - S i))%nat with j in Hinv by lia.
    split; [|done].
    unfold dropped. by eapply within_window_dropped. }
  split; [exact Hdrop|].
  intros [Hacc Hacc'].
  destruct (Hdrop Hacc) as [Hd _].
  by apply (not_accepted_unchanged _ _ Hd).
Qed.

End WatcherProofs.

Import WatcherSpec.

(** The theorem at the burst: the save of [a.py] at 100.5 s is dropped. *)
Lemma debounce_drops_within_window_witness :
  let p := py "/proj/a.py" in
  let di := modified "/proj/a.py" 100.0%float in
  let dj := modified "/proj/a.py" 100.5%float in
  accepted nothing_ignored (run nothing_ignored new_handler (take 0 burst)) di
  /\ within_window (dnow di) dj = true
  /\ dropped nothing_ignored (run nothing_ignored new_handler (take 2 burst)) dj
  /\ _last_event (run nothing_ignored new_handler (take 2 burst)) !! p
     = Some (dnow di).
Proof.
  intros p di dj.
  assert (Hacc : accepted nothing_ignored
                   (run nothing_ignored new_handler (take 0 burst)) di)
    by reflexivity.
  assert (Hw : within_window (dnow di) dj = true) by reflexivity.
  assert (Hbetween : forall k dk, (0 < k < 2)%nat -> burst !! k = Some dk ->
            touches p dk = true ->
            ~ accepted nothing_ignored
                (run nothing_ignored new_handler (take k burst)) dk).
  { intros k dk Hk Hdk Ht. destruct k as [|[|k]]; [lia| |lia].
    simpl in Hdk. injection Hdk as <-. vm_compute in Ht. discriminate. }
  split; [exact Hacc|]. split; [exact Hw|].
  exact (proj1 (debounce_drops_within_window nothing_ignored new_handler burst
                  0 2 di dj p ltac:(lia) eq_refl eq_refl eq_refl eq_refl
                  Hbetween Hw) Hacc).
Defined.

(** C8, as stated, fails for a delete: [on_deleted] never asks
    [_is_debounced].  After the save of [a.py] accepted at 100.0 s, the
    delete of [a.py] delivered at 100.5 s, inside the window, is not
    dropped: the handler removes the file's embeddings. *)
Lemma debounce_does_not_drop_delete :
  let h := run nothing_ignored new_handler [modified "/proj/a.py" 100.0%float] in
  let d := {| dtype := Deleted;
              devent := {| is_directory := false;
                           src_path := py "/proj/a.py" |};
              dnow := 100.5%float |} in
  accepted nothing_ignored new_handler (modified "/proj/a.py" 100.0%float)
  /\ _last_event h !! py "/proj/a.py" = Some 100.0%float
  /\ within_window 100.0%float d = true
  /\ performed (after nothing_ignored h d)
     = performed h ++ [DeleteFile (py "/proj/a.py")]
  /\ ~ dropped nothing_ignored h d.
Proof.
  intros h d. split; [reflexivity|]. split; [reflexivity|].
  split; [reflexivity|]. split; [reflexivity|].
  unfold dropped. intros H. apply (f_equal performed) in H.
  vm_compute in H. discriminate H.
Qed.

(** The whole burst runs [_process_file] three times: for [a.py] at
    100.0 s, for [b.py], and for [a.py] at 101.5 s, one second and more
    after the save that was accepted. *)
Lemma burst_processed :
  performed (run nothing_ignored new_handler burst)
  = [ProcessFile (py "/proj/a.py"); ProcessFile (py "/proj/b.py");
     ProcessFile (py "/proj/a.py")].
Proof. reflexivity. Qed.

(* ===================================================================== *)
(** * Further properties of the chunker *)
(* ===================================================================== *)

Lemma lstrip_nil_iff s : lstrip s = [] <-> forallb isspace s = true.
Proof.
  induction s as [|c s IH]; simpl; [done|].
  destruct (isspace c); simpl; [exact IH|]. split; discriminate.
Qed.

Lemma lstrip_head s c r : lstrip s = c :: r -> isspace c = false.
Proof.
  induction s as [|d s IH]; simpl; [done|].
  destruct (isspace d) eqn:Hd; [exact IH|]. by intros [= -> _].
Qed.

Lemma forallb_rev_true {A} (f : A -> bool) l :
  forallb f (rev l) = true -> forallb f l = true.
Proof.
  rewrite !forallb_forall. intros H x Hx. apply H. by apply in_rev in Hx.
Qed.

(** [content.strip()] is empty exactly when every character of [content]
    is whitespace. *)
Lemma strip_blank_iff content :
  truthy (strip content) = false <-> forallb isspace content = true.
Proof.
  unfold strip, rstrip. split.
  - intros H.
    assert (Hl : lstrip (rev (lstrip content)) = []).
    { destruct (lstrip (rev (lstrip content))) as [|c r] eqn:E; [done|].
      simpl in H. by destruct (rev r). }
    apply lstrip_nil_iff, forallb_rev_true in Hl.
    destruct (lstrip content) as [|c r] eqn:E; [by apply lstrip_nil_iff|].
    apply lstrip_head in E. simpl in Hl. by rewrite E in Hl.
  - intros H. apply lstrip_nil_iff in H. by rewrite H.
Qed.

Section Runs.

Variable lines : list pystr.
Variables total chunk_size overlap step : Z.
Hypothesis step_pos : 1 <= step.

Local Abbreviation runs := (emits lines total chunk_size overlap step).

Lemma runs_nonempty idx start cs : runs idx start cs -> start < total -> cs <> [].
Proof. intros H Hlt. destruct H; [lia|done|done]. Qed.

Lemma runs_index idx start cs :
  runs idx start cs ->
  forall i c, cs !! i = Some c -> Chunker.chunk_index c = idx + Z.of_nat i.
Proof.
  induction 1 as [| |idx start cs Hlt Hno Hrun IH]; intros i c Hi.
  - done.
  - destruct i as [|[|i]]; simplify_eq/=; lia.
  - destruct i as [|i]; simplify_eq/=; [lia|].
    rewrite (IH _ _ Hi). lia.
Qed.


(** Every chunk of a run holds between one and [chunk_size] lines of the
    file, when [chunk_size] is positive and [overlap] does not exceed it. *)
Lemma runs_bounds idx start cs :
  1 <= chunk_size -> overlap <= chunk_size -> 0 <= start ->
  runs idx start cs ->
  forall c, c ∈ cs ->
    start + 1 <= start_line c <= end_line c
    /\ end_line c <= total
    /\ line_count c <= chunk_size.
Proof.
  intros Hsize Hov Hstart Hrun. revert Hstart.
  induction Hrun as [| |idx start cs Hlt Hno Hrun IH]; intros Hstart c Hc.
  - by apply elem_of_nil in Hc.
  - apply elem_of_cons in Hc as [->|Hc]; unfold line_count; simpl; [lia|].
    apply list_elem_of_singleton in Hc as ->. simpl. lia.
  - apply elem_of_cons in Hc as [->|Hc]; unfold line_count; simpl; [lia|].
    destruct (IH ltac:(lia) c Hc) as (? & ? & ?).
    unfold line_count in *. lia.
Qed.

End Runs.

Lemma splitlines_from_cons cur c s :
  splitlines_from cur (c :: s) =
  if islinebreak c then
    match s with
    | d :: s'' =>
        if ((c =? 13) && (d =? 10))%N
        then (cur ++ [c; d]) :: splitlines_from [] s''
        else (cur ++ [c]) :: splitlines_from [] s
    | [] => [cur ++ [c]]
    end
  else splitlines_from (cur ++ [c]) s.
Proof. by destruct s. Qed.

(** [splitlines(keepends=True)] loses nothing: joined again, the lines
    are the text. *)
Lemma splitlines_from_concat n :
  forall s cur, (length s <= n)%nat ->
    concat (splitlines_from cur s) = cur ++ s.
Proof.
  induction n as [|n IH]; intros s cur Hn.
  - destruct s; [|simpl in Hn; lia]. simpl.
    destruct cur; simpl; by rewrite ?app_nil_r.
  - destruct s as [|c s].
    { simpl. destruct cur; simpl; by rewrite ?app_nil_r. }
    rewrite splitlines_from_cons. simpl in Hn.
    destruct (islinebreak c).
    + destruct s as [|d s'].
      { simpl. by rewrite app_nil_r. }
      simpl in Hn.
      destruct ((c =? 13)%N && (d =? 10)%N); rewrite concat_cons.
      * rewrite (IH s' []) by lia. by rewrite <- app_assoc.
      * rewrite (IH (d :: s') []) by (simpl; lia). by rewrite <- app_assoc.
    + rewrite (IH s (cur ++ [c])) by lia. by rewrite <- app_assoc.
Qed.

Lemma splitlines_keepends_concat s : join (splitlines_keepends s) = s.
Proof. exact (splitlines_from_concat (length s) s [] (le_n _)). Qed.

Lemma py_slice_in_range {A} (l : list A) a b :
  0 <= a <= b -> b <= Z.of_nat (length l) ->
  py_slice l a b = take (Z.to_nat (b - a)) (drop (Z.to_nat a) l).
Proof.
  intros Hab Hb. unfold py_slice, slice_index.
  destruct (Z.ltb_spec a 0); [lia|]. destruct (Z.ltb_spec b 0); [lia|].
  by rewrite !Z.min_l by lia.
Qed.

Lemma py_slice_all {A} (l : list A) :
  py_slice l 0 (Z.of_nat (length l)) = l.
Proof.
  rewrite py_slice_in_range by lia. simpl.
  rewrite Z.sub_0_r, Nat2Z.id. apply firstn_all.
Qed.

(** With no overlap the windows of a run follow each other: their texts,
    joined, are the lines from [start] on. *)
Lemma runs_concat_no_overlap lines chunk_size idx start cs :
  1 <= chunk_size -> 0 <= start ->
  emits lines (Z.of_nat (length lines)) chunk_size 0 chunk_size idx start cs ->
  concat (map chunk_text cs) = concat (drop (Z.to_nat start) lines).
Proof.
  intros Hsize Hstart Hrun. remember (Z.of_nat (length lines)) as total.
  remember 0 as overlap in Hrun.
  remember chunk_size as step in Hrun at 2.
  revert Hstart.
  induction Hrun as [| |idx start cs Hlt Hno Hrun IH]; intros Hstart; subst.
  - by rewrite drop_ge by lia.
  - lia.
  - simpl. rewrite IH by (done || lia).
    rewrite py_slice_in_range by lia.
    destruct (Z.le_gt_cases (start + chunk_size) (Z.of_nat (length lines)))
      as [Hfull|Hshort].
    + rewrite Z.min_l by lia.
      replace (Z.to_nat (start + chunk_size - start))
        with (Z.to_nat chunk_size) by lia.
      replace (Z.to_nat (start + chunk_size))
        with (Z.to_nat start + Z.to_nat chunk_size)%nat by lia.
      rewrite <- drop_drop. unfold join.
      by rewrite <- concat_app, take_drop.
    + rewrite Z.min_r by lia.
      rewrite (drop_ge lines (Z.to_nat (start + chunk_size))) by lia.
      rewrite take_ge by (rewrite length_drop; lia).
      unfold join. simpl. by rewrite app_nil_r.
Qed.

(** ** What the chunker returns, for all parameters *)

(** X1.  The chunker returns no chunk exactly when every character of the
    content is whitespace (the empty content included). *)
Theorem chunk_content_empty_iff_blank content chunk_size overlap :
  chunk_content content chunk_size overlap = Some []
  <-> forallb isspace content = true.
Proof.
  rewrite <- strip_blank_iff. split.
  - intros Hcs. destruct (truthy (strip content)) eqn:Hs; [|done].
    destruct (chunk_content_emits content chunk_size overlap Hs)
      as (Htot & cs & Hcs' & Hrun).
    rewrite Hcs in Hcs'. simplify_eq.
    by destruct (runs_nonempty _ _ _ _ _ _ _ _ Hrun ltac:(lia)).
  - intros Hs. unfold chunk_content. by rewrite Hs, orb_true_r.
Qed.


(** X3.  With a positive [chunk_size] and [overlap <= chunk_size], every chunk
    spans at least one and at most [chunk_size] lines, all of them lines
    of the file. *)
Theorem chunk_content_line_bounds content chunk_size overlap :
  1 <= chunk_size -> overlap <= chunk_size ->
  exists cs,
    chunk_content content chunk_size overlap = Some cs
    /\ forall c, c ∈ cs ->
         1 <= start_line c <= end_line c
         /\ end_line c <= Z.of_nat (length (splitlines_keepends content))
         /\ 1 <= line_count c <= chunk_size.
Proof.
  intros Hsize Hov.
  destruct (truthy (strip content)) eqn:Hs.
  - destruct (chunk_content_emits content chunk_size overlap Hs)
      as (_ & cs & Hcs & Hrun).
    exists cs. split; [done|]. intros c Hc.
    destruct (runs_bounds _ _ _ _ (Z.max (chunk_size - overlap) 1)
                ltac:(lia) 0 0 _ Hsize Hov ltac:(lia) Hrun c Hc)
      as (? & ? & ?).
    unfold line_count in *. lia.
  - exists []. split; [unfold chunk_content; by rewrite Hs, orb_true_r|].
    intros c Hc. by apply elem_of_nil in Hc.
Qed.

Lemma chunk_content_line_bounds_witness :
  1 <= 4 /\ 3 <= 4 /\
  exists cs,
    chunk_content ten_lines 4 3 = Some cs
    /\ forall c, c ∈ cs ->
         1 <= start_line c <= end_line c
         /\ end_line c <= Z.of_nat (length (splitlines_keepends ten_lines))
         /\ 1 <= line_count c <= 4.
Proof.
  split; [lia|]. split; [lia|].
  exact (chunk_content_line_bounds ten_lines 4 3 ltac:(lia) ltac:(lia)).
Defined.

(** X4.  With [overlap = 0] the chunks cut the content without loss: their
    texts, joined in order, are the content. *)
Theorem chunk_content_no_overlap_round_trip content chunk_size :
  1 <= chunk_size ->
  truthy (strip content) = true ->
  exists cs,
    chunk_content content chunk_size 0 = Some cs
    /\ join (map chunk_text cs) = content.
Proof.
  intros Hsize Hs.
  destruct (chunk_content_emits content chunk_size 0 Hs)
    as (_ & cs & Hcs & Hrun).
  exists cs. split; [done|].
  rewrite Z.sub_0_r, Z.max_l in Hrun by lia.
  unfold join.
  rewrite (runs_concat_no_overlap _ _ 0 0 _ Hsize (Z.le_refl 0) Hrun).
  simpl. apply splitlines_keepends_concat.
Qed.

Lemma chunk_content_no_overlap_round_trip_witness :
  1 <= 3 /\ truthy (strip ten_lines) = true /\
  exists cs,
    chunk_content ten_lines 3 0 = Some cs
    /\ join (map chunk_text cs) = ten_lines.
Proof.
  split; [lia|]. split; [reflexivity|].
  exact (chunk_content_no_overlap_round_trip ten_lines 3 ltac:(lia) eq_refl).
Defined.

(** X5.  A file of at most [chunk_size - overlap] lines is returned as one
    chunk, numbered 0, spanning all its lines and holding the content. *)
Theorem chunk_content_small_file content chunk_size overlap :
  0 <= overlap ->
  truthy (strip content) = true ->
  let total := Z.of_nat (length (splitlines_keepends content)) in
  total <= chunk_size - overlap ->
  chunk_content content chunk_size overlap = Some [(content, 0, 1, total)].
Proof.
  intros Hov Hs total Hsmall.
  destruct (chunk_content_emits content chunk_size overlap Hs)
    as (Htot & cs & Hcs & Hrun).
  fold total in Htot, Hrun. rewrite Hcs. f_equal.
  rewrite Z.max_l in Hrun by lia.
  inversion Hrun as [| |? ? cs' _ _ Hrun']; subst; try lia.
  inversion Hrun'; subst; try lia.
  unfold window. rewrite Z.min_r by lia. simpl.
  unfold total. by rewrite py_slice_all, splitlines_keepends_concat.
Qed.

Lemma chunk_content_small_file_witness :
  0 <= 20 /\ truthy (strip ten_lines) = true
  /\ Z.of_nat (length (splitlines_keepends ten_lines)) <= 200 - 20
  /\ chunk_content ten_lines 200 20 = Some [(ten_lines, 0, 1, 10)].
Proof.
  split; [lia|]. split; [reflexivity|]. split; [vm_compute; discriminate|].
  exact (chunk_content_small_file ten_lines 200 20 ltac:(lia) eq_refl
           ltac:(vm_compute; discriminate)).
Defined.

Lemma chunk_content_short_chunk_is_pure_overlap_witness :
  0 <= 1 < 4
  /\ exists cs a b,
       chunk_content ten_lines 4 1 = Some cs
       /\ cs !! 2%nat = Some a /\ cs !! 3%nat = Some b
       /\ line_count b <= 1
       /\ 4%nat = length cs /\ inside a b.
Proof.
  split; [lia|].
  destruct (chunk_content ten_lines 4 1) as [cs|] eqn:Hcs; [|discriminate].
  vm_compute in Hcs. injection Hcs as <-.
  do 3 eexists. split; [reflexivity|].
  split; [reflexivity|]. split; [reflexivity|].
  split; [vm_compute; discriminate|].
  refine (chunk_content_short_chunk_is_pure_overlap ten_lines 4 1 _
            ltac:(lia) ltac:(vm_compute; reflexivity) 2%nat _ _
            eq_refl eq_refl ltac:(vm_compute; discriminate)).
Defined.

(* ===================================================================== *)
(** * Further properties of the history store *)
(* ===================================================================== *)

Import HistoryReads.

(** ** Versions of a file *)

Lemma select_snapshot_versions db p v :
  is_Some (select_snapshot db p v) <-> v ∈ versions_of db p.
Proof.
  unfold versions_of, snapshots_of, select_snapshot. split.
  - intros [r Hr]. destruct (find_elem_of _ _ _ Hr) as [Hin Hm].
    apply andb_true_iff in Hm as [Hp Hv].
    apply bool_decide_eq_true in Hp. apply bool_decide_eq_true in Hv.
    apply list_elem_of_fmap. exists r. split; [done|].
    by apply list_elem_of_filter.
  - intros (r & -> & [Hp Hin]%list_elem_of_filter)%list_elem_of_fmap.
    assert (He : existsb (snapshot_matches p (snap_version r)) (snapshots db) = true).
    { eapply existsb_elem_of; [exact Hin|]. unfold snapshot_matches.
      by rewrite !bool_decide_eq_true_2. }
    rewrite existsb_find in He. by destruct (find _ _).
Qed.

Lemma versions_of_updated v now p db q :
  versions_of (updated_registry v now p db) q = versions_of db q.
Proof. reflexivity. Qed.

Lemma version_count_updated v now p db q :
  version_count (updated_registry v now p db) q = version_count db q.
Proof. reflexivity. Qed.

Lemma versions_of_inserted p v c now cs m db db' q :
  insert_snapshot p v c now cs m db = Returned db' ->
  versions_of db' q = versions_of db q ++ (if decide (p = q) then [v] else []).
Proof.
  unfold insert_snapshot. destruct (existsb _ _); [done|]. intros [= <-].
  unfold versions_of, snapshots_of. simpl.
  rewrite filter_app, fmap_app. f_equal.
  rewrite filter_singleton; [|exact []]. simpl.
  by destruct (decide (p = q)).
Qed.

Lemma version_count_inserted p v c now cs m db db' q :
  insert_snapshot p v c now cs m db = Returned db' ->
  version_count db' q = version_count db q + (if decide (p = q) then 1 else 0).
Proof.
  intros H. unfold version_count. rewrite (versions_of_inserted _ _ _ _ _ _ _ _ q H).
  rewrite length_app. destruct (decide (p = q)); simpl; lia.
Qed.

(** ** The registry under [UPDATE] *)

Lemma updated_registry_paths v now p db :
  map reg_file_path (file_registry (updated_registry v now p db))
  = map reg_file_path (file_registry db).
Proof.
  simpl. induction (file_registry db) as [|r l IH]; simpl; [done|].
  rewrite IH. f_equal. by destruct (registry_matches p r).
Qed.

Lemma updated_registry_elem v now p db g' :
  g' ∈ file_registry (updated_registry v now p db) ->
  exists g, g ∈ file_registry db
            /\ reg_file_path g' = reg_file_path g
            /\ (reg_current_version g' = reg_current_version g
                \/ reg_file_path g = p /\ reg_current_version g' = v).
Proof.
  simpl. intros (g & -> & Hg)%list_elem_of_fmap. exists g. split; [done|].
  destruct (registry_matches p g) eqn:Hm; simpl; [|by split; [|left]].
  split; [done|]. right. split; [|done].
  by apply bool_decide_eq_true in Hm.
Qed.

Lemma select_current_version_elem db p cur :
  select_current_version db p = Some cur ->
  exists g, g ∈ file_registry db /\ reg_file_path g = p
            /\ reg_current_version g = cur.
Proof.
  unfold select_current_version.
  destruct (find _ _) as [g|] eqn:Hf; [|done]. intros [= <-].
  destruct (find_elem_of _ _ _ Hf) as [Hin Hm].
  exists g. split; [done|]. split; [|done]. by apply bool_decide_eq_true in Hm.
Qed.

Lemma select_current_version_None db p :
  select_current_version db p = None ->
  p ∉ map reg_file_path (file_registry db).
Proof.
  unfold select_current_version. intros Hn Hin.
  apply list_elem_of_fmap in Hin as (g & -> & Hg).
  assert (He : existsb (registry_matches (reg_file_path g)) (file_registry db) = true).
  { eapply existsb_elem_of; [exact Hg|]. unfold registry_matches.
    by rewrite bool_decide_eq_true_2. }
  rewrite existsb_find in He. by destruct (find _ _).
Qed.

(** ** The invariant is kept *)

Lemma store_wf_update v now p db :
  store_wf db -> 1 <= v <= version_count db p ->
  store_wf (updated_registry v now p db).
Proof.
  intros (H1 & H2 & H3 & H4) Hv. split; [|split; [|split]].
  - intros q. by rewrite versions_of_updated, version_count_updated.
  - intros g' (g & Hg & Hp & Hc)%updated_registry_elem.
    rewrite version_count_updated, Hp.
    destruct Hc as [->|[<- ->]]; [by apply H2|done].
  - by rewrite updated_registry_paths.
  - intros r Hr. rewrite updated_registry_matches. by apply H4.
Qed.

Lemma store_wf_untracked db p :
  store_wf db -> select_current_version db p = None -> version_count db p = 0.
Proof.
  intros (_ & _ & _ & H4) Hn. unfold version_count, versions_of, snapshots_of.
  destruct (filter _ _) as [|r l] eqn:Hf; [done|].
  assert (Hr : r ∈ filter (fun r => snap_file_path r = p) (snapshots db)).
  { rewrite Hf. apply elem_of_cons. by left. }
  apply list_elem_of_filter in Hr as [Hp Hin].
  pose proof (H4 r Hin) as He. rewrite Hp, existsb_find in He.
  unfold select_current_version in Hn. by destruct (find _ _).
Qed.

Lemma store_wf_tracked db p cur :
  store_wf db -> select_current_version db p = Some cur ->
  1 <= cur <= version_count db p.
Proof.
  intros (_ & H2 & _ & _) (g & Hg & <- & <-)%select_current_version_elem.
  by apply H2.
Qed.

Lemma store_wf_version_stored db p v :
  store_wf db ->
  (is_Some (select_snapshot db p v) <-> 1 <= v <= version_count db p).
Proof.
  intros (H1 & _). rewrite select_snapshot_versions, (H1 p).
  rewrite elem_of_seqZ. pose proof (Zle_0_nat (length (versions_of db p))).
  unfold version_count. lia.
Qed.

(** Appending version [count + 1] for a file that has a registry row
    pointing at most there keeps the invariant. *)
Lemma store_wf_insert p c now cs m db db' :
  (forall q, versions_of db q = seqZ 1 (version_count db q)) ->
  (forall g, g ∈ file_registry db ->
     1 <= reg_current_version g
     <= version_count db (reg_file_path g)
        + (if decide (p = reg_file_path g) then 1 else 0)) ->
  NoDup (map reg_file_path (file_registry db)) ->
  (forall r, r ∈ snapshots db ->
     existsb (registry_matches (snap_file_path r)) (file_registry db) = true) ->
  existsb (registry_matches p) (file_registry db) = true ->
  insert_snapshot p (version_count db p + 1) c now cs m db = Returned db' ->
  store_wf db'.
Proof.
  intros H1 H2 H3 H4 Hp Hins.
  destruct (insert_snapshot_inv _ _ _ _ _ _ _ _ Hins)
    as (_ & Hreg & row & Hsnaps & _ & Hsel).
  split; [|split; [|split]].
  - intros q. rewrite (version_count_inserted _ _ _ _ _ _ _ _ q Hins).
    rewrite (versions_of_inserted _ _ _ _ _ _ _ _ q Hins), (H1 q).
    destruct (decide (p = q)) as [->|Hne].
    + unfold version_count.
      replace (Z.of_nat (length (versions_of db q)) + 1)
        with (Z.of_nat (S (length (versions_of db q)))) by lia.
      rewrite seqZ_S. f_equal. f_equal. lia.
    + by rewrite app_nil_r, Z.add_0_r.
  - intros g Hg. rewrite Hreg in Hg.
    rewrite (version_count_inserted _ _ _ _ _ _ _ _ _ Hins). by apply H2.
  - by rewrite Hreg.
  - intros r Hr. rewrite Hreg. rewrite Hsnaps in Hr.
    apply elem_of_app in Hr as [Hr|Hr]; [by apply H4|].
    apply list_elem_of_singleton in Hr as ->.
    apply find_elem_of in Hsel as [_ Hm].
    apply andb_true_iff in Hm as [Hm _]. apply bool_decide_eq_true in Hm.
    by rewrite Hm.
Qed.

Lemma insert_snapshot_raised p v c now cs m db e :
  insert_snapshot p v c now cs m db = Raised e ->
  is_Some (select_snapshot db p v).
Proof.
  unfold insert_snapshot. rewrite existsb_find. unfold select_snapshot.
  destruct (find _ _); [eauto|done].
Qed.

Section HistoryInvariant.

Variable sha : pystr -> pystr.

Lemma snapshot_file_wf conn p c l f m now :
  store_wf (view conn) -> store_wf (committed conn) ->
  store_wf (view (snd (snapshot_file sha p c l f m now conn)))
  /\ store_wf (committed (snd (snapshot_file sha p c l f m now conn))).
Proof.
  intros Hv Hc.
  destruct (select_current_version (view conn) p) as [cur|] eqn:Hcur.
  - destruct (decide (current_checksum conn p = Some (_checksum sha c)))
      as [Hcs|Hcs].
    { by rewrite (snapshot_file_unchanged sha _ _ _ _ _ _ _ _ Hcur Hcs). }
    rewrite (snapshot_file_tracked sha _ _ _ _ _ _ _ _ Hcur Hcs). simpl.
    pose proof (store_wf_tracked _ _ _ Hv Hcur) as Hb.
    set (db := updated_registry (cur + 1) now p (view conn)).
    destruct (insert_snapshot p (cur + 1) c now (_checksum sha c) m db)
      as [db'|e] eqn:Hins; simpl.
    + assert (Hn : cur = version_count (view conn) p).
      { destruct (insert_snapshot_inv _ _ _ _ _ _ _ _ Hins) as (Hnone & _).
        destruct (decide (cur + 1 <= version_count (view conn) p)); [|lia].
        assert (Hsome : is_Some (select_snapshot (view conn) p (cur + 1)))
          by (apply store_wf_version_stored; [done|lia]).
        change (select_snapshot db p (cur + 1))
          with (select_snapshot (view conn) p (cur + 1)) in Hnone.
        rewrite Hnone in Hsome. by destruct Hsome. }
      assert (Hwf : store_wf db'); [|by split].
      destruct Hv as (H1 & H2 & H3 & H4).
      eapply (store_wf_insert p c now (_checksum sha c) m db).
      * intros q. apply H1.
      * intros g' (g & Hg & Hp & Hc')%updated_registry_elem.
        change (version_count db (reg_file_path g'))
          with (version_count (view conn) (reg_file_path g')).
        rewrite Hp. pose proof (H2 g Hg).
        destruct Hc' as [->|[Hgp ->]].
        -- destruct (decide _); lia.
        -- rewrite Hgp. rewrite decide_True by done. lia.
      * unfold db. by rewrite updated_registry_paths.
      * intros r Hr. unfold db. rewrite updated_registry_matches. by apply H4.
      * unfold db. rewrite updated_registry_matches.
        apply select_current_version_matches. by rewrite Hcur.
      * change (version_count db p) with (version_count (view conn) p).
        by rewrite <- Hn.
    + split; [|done]. apply store_wf_update; [done|].
      apply insert_snapshot_raised in Hins.
      apply (store_wf_version_stored (view conn) p (cur + 1) Hv) in Hins. lia.
  - rewrite (snapshot_file_untracked sha _ _ _ _ _ _ _ Hcur). simpl.
    pose proof (store_wf_untracked _ _ Hv Hcur) as Hn.
    set (row := {| reg_file_path := p; reg_current_version := 1;
                   reg_first_seen := now; reg_last_modified := now;
                   reg_language := l; reg_folder := f |}).
    set (db := {| snapshots := snapshots (view conn);
                  snapshots_seq := snapshots_seq (view conn);
                  file_registry := file_registry (view conn) ++ [row] |}).
    destruct (insert_snapshot p 1 c now (_checksum sha c) m db)
      as [db'|e] eqn:Hins; simpl.
    + assert (Hwf : store_wf db'); [|by split].
      destruct Hv as (H1 & H2 & H3 & H4).
      eapply (store_wf_insert p c now (_checksum sha c) m db).
      * intros q. apply H1.
      * intros g [Hg|Hg]%elem_of_app.
        -- change (version_count db (reg_file_path g))
             with (version_count (view conn) (reg_file_path g)).
           pose proof (H2 g Hg). destruct (decide _); lia.
        -- apply list_elem_of_singleton in Hg as ->. simpl.
           change (version_count db p) with (version_count (view conn) p).
           rewrite Hn, decide_True by done. lia.
      * simpl. rewrite fmap_app. apply NoDup_app. split; [done|].
        split; [|apply NoDup_singleton].
        intros q Hq ->%list_elem_of_singleton.
        by apply (select_current_version_None _ _ Hcur).
      * intros r Hr. simpl. rewrite existsb_app, (H4 r Hr). done.
      * simpl. rewrite existsb_app. simpl. unfold registry_matches at 2.
        simpl. rewrite bool_decide_eq_true_2 by done. by rewrite orb_true_r.
      * change (version_count db p) with (version_count (view conn) p).
        by rewrite Hn.
    + apply insert_snapshot_raised in Hins.
      change (select_snapshot db p 1) with (select_snapshot (view conn) p 1) in Hins.
      apply (store_wf_version_stored (view conn) p 1 Hv) in Hins. lia.
Qed.

Lemma restore_to_version_wf conn p v now :
  store_wf (view conn) -> store_wf (committed conn) ->
  store_wf (view (snd (restore_to_version p v now conn)))
  /\ store_wf (committed (snd (restore_to_version p v now conn))).
Proof.
  intros Hv Hc. rewrite restore_to_version_spec.
  destruct (select_snapshot (view conn) p v) eqn:Hs; [|done]. simpl.
  assert (store_wf (updated_registry v now p (view conn))); [|done].
  apply store_wf_update; [done|].
  apply (store_wf_version_stored (view conn) p v Hv). by rewrite Hs.
Qed.

Lemma reachable_wf conn :
  reachable sha conn -> store_wf (view conn) /\ store_wf (committed conn).
Proof.
  induction 1 as [|conn p c l f m now _ [Hv Hc]|conn p v now _ [Hv Hc]
                 |conn _ [_ Hc]].
  - assert (store_wf empty_database); [|done].
    split; [done|]. split; [|split; [constructor|]];
      intros x Hx; by apply elem_of_nil in Hx.
  - by apply snapshot_file_wf.
  - by apply restore_to_version_wf.
  - done.
Qed.

End HistoryInvariant.

Lemma reachable_store_v2 : reachable example_digest store_v2.
Proof.
  unfold store_v2, store_x. do 2 apply reachable_snapshot. apply reachable_init.
Qed.

Lemma reachable_store_rewound : reachable example_digest store_rewound.
Proof. unfold store_rewound. apply reachable_restore, reachable_store_v2. Qed.

(** ** What callers of the store can rely on *)

Lemma find_app {A} (f : A -> bool) l l' :
  find f (l ++ l') = match find f l with Some x => Some x | None => find f l' end.
Proof.
  induction l as [|y l IH]; simpl; [done|]. by destruct (f y).
Qed.



Lemma updated_registry_select_other v now p db q :
  p <> q ->
  select_current_version (updated_registry v now p db) q
  = select_current_version db q.
Proof.
  intros Hpq. unfold select_current_version. simpl.
  induction (file_registry db) as [|r l IH]; simpl; [done|].
  destruct (registry_matches p r) eqn:Hp; simpl.
  - unfold registry_matches in *. simpl.
    apply bool_decide_eq_true in Hp.
    rewrite !bool_decide_eq_false_2 by congruence. exact IH.
  - destruct (registry_matches q r); [done|exact IH].
Qed.

Lemma insert_snapshot_row p v c now cs m db db' :
  insert_snapshot p v c now cs m db = Returned db' ->
  exists row,
    snapshots db' = snapshots db ++ [row]
    /\ file_registry db' = file_registry db
    /\ snap_file_path row = p
    /\ snap_content row = c
    /\ select_snapshot db' p v = Some row.
Proof.
  unfold insert_snapshot. rewrite existsb_find. unfold select_snapshot.
  destruct (find _ (snapshots db)) eqn:Hf; [done|]. intros [= <-]. simpl.
  eexists. split; [reflexivity|]. do 3 (split; [reflexivity|]).
  rewrite (find_app_None _ _ _ Hf). simpl.
  unfold snapshot_matches. simpl. by rewrite !bool_decide_eq_true_2.
Qed.

Section HistoryFacts.

Variable sha : pystr -> pystr.

(** What one call of [snapshot_file] does to the tables, whatever it
    returns or raises: it appends at most rows of its own file to
    [snapshots] and leaves the registry rows of other files alone. *)
Lemma snapshot_file_effect conn p c l f m now :
  exists extra,
    snapshots (view (snd (snapshot_file sha p c l f m now conn)))
    = snapshots (view conn) ++ extra
    /\ Forall (fun r => snap_file_path r = p) extra
    /\ forall q, p <> q ->
         select_current_version
           (view (snd (snapshot_file sha p c l f m now conn))) q
         = select_current_version (view conn) q.
Proof.
  destruct (select_current_version (view conn) p) as [cur|] eqn:Hcur.
  - destruct (decide (current_checksum conn p = Some (_checksum sha c)))
      as [Hcs|Hcs].
    { rewrite (snapshot_file_unchanged sha _ _ _ _ _ _ _ _ Hcur Hcs).
      exists []. by rewrite app_nil_r. }
    rewrite (snapshot_file_tracked sha _ _ _ _ _ _ _ _ Hcur Hcs). simpl.
    destruct (insert_snapshot _ _ _ _ _ _ _) as [db'|e] eqn:Hins; simpl.
    + destruct (insert_snapshot_row _ _ _ _ _ _ _ _ Hins)
        as (row & Hsnaps & Hreg & Hrow & _).
      exists [row]. split; [exact Hsnaps|]. split.
      * constructor; [exact Hrow|constructor].
      * intros q Hpq. unfold select_current_version at 1. rewrite Hreg.
        by apply updated_registry_select_other.
    + exists []. split; [by rewrite app_nil_r|]. split; [constructor|].
      intros q Hpq. by apply updated_registry_select_other.
  - rewrite (snapshot_file_untracked sha _ _ _ _ _ _ _ Hcur). simpl.
    assert (Hother : forall q row, p <> q -> reg_file_path row = p ->
      find (registry_matches q) (file_registry (view conn) ++ [row])
      = find (registry_matches q) (file_registry (view conn))).
    { intros q row Hpq Hrow. rewrite find_app. simpl.
      unfold registry_matches at 2.
      rewrite bool_decide_eq_false_2 by congruence.
      by destruct (find _ _). }
    destruct (insert_snapshot _ _ _ _ _ _ _) as [db'|e] eqn:Hins; simpl.
    + destruct (insert_snapshot_row _ _ _ _ _ _ _ _ Hins)
        as (row & Hsnaps & Hreg & Hrow & _).
      exists [row]. split; [exact Hsnaps|]. split.
      * constructor; [exact Hrow|constructor].
      * intros q Hpq. unfold select_current_version. rewrite Hreg. simpl.
        by rewrite Hother.
    + exists []. split; [by rewrite app_nil_r|]. split; [constructor|].
      intros q Hpq. unfold select_current_version. simpl. by rewrite Hother.
Qed.

(** X9.  A snapshot that can be read stays readable, with the same content,
    after any further [snapshot_file] or [restore_to_version], whether
    that call returns or raises: stored versions are never rewritten. *)
Theorem get_snapshot_permanent conn q v content :
  fst (get_snapshot q v conn) = Returned (Some content) ->
  (forall p c l f m now,
     fst (get_snapshot q v (snd (snapshot_file sha p c l f m now conn)))
     = Returned (Some content))
  /\ (forall p v' now,
        fst (get_snapshot q v (snd (restore_to_version p v' now conn)))
        = Returned (Some content)).
Proof.
  rewrite get_snapshot_spec. simpl. intros Hget.
  destruct (select_snapshot (view conn) q v) as [r|] eqn:Hs; [|done].
  split.
  - intros p c l f m now.
    destruct (snapshot_file_effect conn p c l f m now) as (extra & He & _).
    unfold select_snapshot in *. rewrite He.
    by rewrite (find_app_Some _ _ _ _ Hs).
  - intros p v' now. rewrite restore_to_version_spec.
    destruct (select_snapshot (view conn) p v'); simpl; [|by rewrite Hs].
    unfold select_snapshot in *. rewrite updated_registry_snapshots.
    by rewrite Hs.
Qed.

(** X10.  Writing one file never changes what the store answers about
    another: its current version, its history and each of its snapshots
    are what they were, whether the call returns or raises. *)
Theorem writes_leave_other_files conn p q :
  p <> q ->
  (forall c l f m now,
     let conn' := snd (snapshot_file sha p c l f m now conn) in
     fst (get_latest_version q conn') = fst (get_latest_version q conn)
     /\ fst (get_file_history q conn') = fst (get_file_history q conn)
     /\ forall v, fst (get_snapshot q v conn') = fst (get_snapshot q v conn))
  /\ (forall v' now,
        let conn' := snd (restore_to_version p v' now conn) in
        fst (get_latest_version q conn') = fst (get_latest_version q conn)
        /\ fst (get_file_history q conn') = fst (get_file_history q conn)
        /\ forall v, fst (get_snapshot q v conn') = fst (get_snapshot q v conn)).
Proof.
  intros Hpq. split.
  - intros c l f m now conn'.
    destruct (snapshot_file_effect conn p c l f m now)
      as (extra & He & Hextra & Hreg).
    fold conn' in He, Hreg.
    assert (Hf : forall (P : snapshot_row -> bool),
               (forall r, snap_file_path r = p -> P r = false) ->
               find P extra = None).
    { intros P HP. clear He. induction Hextra as [|r ex Hr _ IH]; simpl; [done|].
      by rewrite (HP r Hr). }
    split; [|split].
    + rewrite !get_latest_version_spec. unfold current_version_of. simpl.
      by rewrite (Hreg q Hpq).
    + unfold get_file_history, snapshots_of. simpl. rewrite He, filter_app.
      replace (filter (fun r => snap_file_path r = q) extra) with (@nil snapshot_row);
        [by rewrite app_nil_r|].
      clear He Hf. induction Hextra as [|r ex Hr _ IH]; [done|].
      rewrite filter_cons_False by congruence. exact IH.
    + intros v. rewrite !get_snapshot_spec. simpl.
      unfold select_snapshot. rewrite He, find_app.
      destruct (find _ (snapshots (view conn))); [done|].
      rewrite Hf; [done|]. intros r Hr. unfold snapshot_matches.
      by rewrite bool_decide_eq_false_2 by congruence.
  - intros v' now conn'. unfold conn'. rewrite restore_to_version_spec.
    destruct (select_snapshot (view conn) p v'); cbn [snd]; [|done].
    split; [|done].
    rewrite !get_latest_version_spec. unfold current_version_of. simpl.
    by rewrite updated_registry_select_other.
Qed.

(** X13.  New content is stored as written: when [snapshot_file] returns [v]
    for content that is not the one at the current version, both
    [get_snapshot] at [v] and [get_latest_content] read that content
    back. *)
Theorem snapshot_file_round_trip conn p c l f m now v conn1 :
  reachable sha conn ->
  snapshot_file sha p c l f m now conn = (Returned v, conn1) ->
  current_checksum conn p <> Some (_checksum sha c) ->
  get_snapshot p v conn1 = (Returned (Some c), conn1)
  /\ get_latest_content p conn1 = (Returned (Some c), conn1).
Proof.
  intros [Hwf _]%reachable_wf Hcall Hnew.
  assert (Hrow : select_current_version (view conn1) p = Some v
                 /\ 1 <= v
                 /\ snap_content <$> select_snapshot (view conn1) p v = Some c).
  { destruct (select_current_version (view conn) p) as [cur|] eqn:Hcur.
    - rewrite (snapshot_file_tracked sha _ _ _ _ _ _ _ _ Hcur Hnew) in Hcall.
      simpl in Hcall.
      destruct (insert_snapshot _ _ _ _ _ _ _) as [db'|e] eqn:Hins;
        simplify_eq.
      destruct (insert_snapshot_row _ _ _ _ _ _ _ _ Hins)
        as (row & _ & Hreg & _ & Hc & Hsel).
      simpl. rewrite Hsel. simpl. rewrite Hc.
      pose proof (store_wf_tracked _ _ _ Hwf Hcur).
      split; [|split; [lia|done]].
      unfold select_current_version. rewrite Hreg.
      apply updated_registry_select. by rewrite Hcur.
    - rewrite (snapshot_file_untracked sha _ _ _ _ _ _ _ Hcur) in Hcall.
      simpl in Hcall.
      destruct (insert_snapshot _ _ _ _ _ _ _) as [db'|e] eqn:Hins;
        simplify_eq.
      destruct (insert_snapshot_row _ _ _ _ _ _ _ _ Hins)
        as (row & _ & Hreg & _ & Hc & Hsel).
      simpl. rewrite Hsel. simpl. rewrite Hc.
      split; [|done]. unfold select_current_version. rewrite Hreg. simpl.
      by erewrite select_appended_registry. }
  destruct Hrow as (Hv & Hpos & Hc).
  split; [by rewrite get_snapshot_spec, Hc|].
  unfold get_latest_content, mbind, M_bind.
  rewrite get_latest_version_spec. unfold current_version_of. rewrite Hv.
  simpl. replace (v =? 0) with false by (symmetry; apply Z.eqb_neq; lia).
  by rewrite get_snapshot_spec, Hc.
Qed.

End HistoryFacts.

Lemma get_snapshot_permanent_witness :
  fst (get_snapshot (py "src/x.py") 1 store_x) = Returned (Some (py "one"))
  /\ (forall p c l f m now,
        fst (get_snapshot (py "src/x.py") 1
               (snd (snapshot_file example_digest p c l f m now store_x)))
        = Returned (Some (py "one")))
  /\ (forall p v' now,
        fst (get_snapshot (py "src/x.py") 1
               (snd (restore_to_version p v' now store_x)))
        = Returned (Some (py "one"))).
Proof.
  assert (H : fst (get_snapshot (py "src/x.py") 1 store_x)
              = Returned (Some (py "one"))) by reflexivity.
  split; [exact H|].
  exact (get_snapshot_permanent example_digest store_x (py "src/x.py") 1
           (py "one") H).
Defined.

Lemma writes_leave_other_files_witness :
  py "srcx.py" <> py "src/x.py"
  /\ (forall c l f m now,
        let conn' :=
          snd (snapshot_file example_digest (py "srcx.py") c l f m now store_x)
        in
        fst (get_latest_version (py "src/x.py") conn')
        = fst (get_latest_version (py "src/x.py") store_x)
        /\ fst (get_file_history (py "src/x.py") conn')
           = fst (get_file_history (py "src/x.py") store_x)
        /\ forall v, fst (get_snapshot (py "src/x.py") v conn')
                     = fst (get_snapshot (py "src/x.py") v store_x))
  /\ (forall v' now,
        let conn' := snd (restore_to_version (py "srcx.py") v' now store_x) in
        fst (get_latest_version (py "src/x.py") conn')
        = fst (get_latest_version (py "src/x.py") store_x)
        /\ fst (get_file_history (py "src/x.py") conn')
           = fst (get_file_history (py "src/x.py") store_x)
        /\ forall v, fst (get_snapshot (py "src/x.py") v conn')
                     = fst (get_snapshot (py "src/x.py") v store_x)).
Proof.
  assert (H : py "srcx.py" <> py "src/x.py") by (vm_compute; discriminate).
  split; [exact H|].
  exact (writes_leave_other_files example_digest store_x (py "srcx.py")
           (py "src/x.py") H).
Defined.

Lemma reachable_store_x : reachable example_digest store_x.
Proof. unfold store_x. apply reachable_snapshot, reachable_init. Qed.

Lemma snapshot_file_round_trip_witness :
  reachable example_digest store_x
  /\ snapshot_file example_digest (py "src/x.py") (py "two") (py "python")
       (py "src") None 200 store_x = (Returned 2, store_v2)
  /\ current_checksum store_x (py "src/x.py")
     <> Some (_checksum example_digest (py "two"))
  /\ get_snapshot (py "src/x.py") 2 store_v2
     = (Returned (Some (py "two")), store_v2)
  /\ get_latest_content (py "src/x.py") store_v2
     = (Returned (Some (py "two")), store_v2).
Proof.
  assert (H : snapshot_file example_digest (py "src/x.py") (py "two")
                (py "python") (py "src") None 200 store_x
              = (Returned 2, store_v2)) by reflexivity.
  assert (Hn : current_checksum store_x (py "src/x.py")
               <> Some (_checksum example_digest (py "two")))
    by (vm_compute; discriminate).
  split; [exact reachable_store_x|]. split; [exact H|]. split; [exact Hn|].
  exact (snapshot_file_round_trip example_digest store_x (py "src/x.py")
           (py "two") (py "python") (py "src") None 200 2 store_v2
           reachable_store_x H Hn).
Defined.

(** ** Listing files *)







Lemma rstrip_char_trailing ch s n :
  rstrip_char ch (s ++ replicate n ch) = rstrip_char ch s.
Proof.
  unfold rstrip_char. f_equal. rewrite rev_app_distr.
  replace (rev (replicate n ch)) with (replicate n ch).
  - induction n as [|n IH]; simpl; [done|]. by rewrite N.eqb_refl.
  - induction n as [|n IH]; simpl; [done|]. rewrite <- IH.
    clear IH. induction n as [|n IH]; simpl; [done|]. by rewrite <- IH.
Qed.

(** X15.  Trailing slashes of the folder prefix do not matter: ["src"],
    ["src/"] and ["src//"] list the same files. *)
Theorem list_files_in_folder_trailing_slashes conn folder_prefix n :
  list_files_in_folder (folder_prefix ++ replicate n slash) conn
  = list_files_in_folder folder_prefix conn.
Proof.
  unfold list_files_in_folder. by rewrite rstrip_char_trailing.
Qed.


(* ===================================================================== *)
(** * Further properties of the vector store *)
(* ===================================================================== *)

(** ** The order of binary64 scores *)

Lemma is_nan_Prim2SF (x : float) :
  is_nan x = false -> Prim2SF x <> S754_nan.
Proof.
  unfold is_nan. rewrite FloatAxioms.eqb_spec. unfold SFeqb. intros H Hn.
  rewrite Hn in H. done.
Qed.

Lemma SFcompare_defined x y :
  x <> S754_nan -> y <> S754_nan -> is_Some (SFcompare x y).
Proof. destruct x, y; simpl; try done; eauto. Qed.

Lemma float_not_ltb_leb (x y : float) :
  is_nan x = false -> is_nan y = false ->
  (x <? y)%float = false -> (y <=? x)%float = true.
Proof.
  intros Hx%is_nan_Prim2SF Hy%is_nan_Prim2SF.
  rewrite ltb_spec, leb_spec. unfold SFltb, SFleb.
  rewrite (SFcompare_swap (Prim2SF x) (Prim2SF y)).
  destruct (SFcompare_defined _ _ Hx Hy) as [c ->]. by destruct c.
Qed.

Lemma float_ltb_leb (x y : float) :
  (x <? y)%float = true -> (x <=? y)%float = true.
Proof.
  rewrite ltb_spec, leb_spec. unfold SFltb, SFleb.
  by destruct (SFcompare _ _) as [[]|].
Qed.

Lemma SFleb_trans x y z :
  SFleb x y = true -> SFleb y z = true -> SFleb x z = true.
Proof.
  unfold SFleb.
  destruct x as [sx|sx| |sx mx ex], y as [sy|sy| |sy my ey],
    z as [sz|sz| |sz mz ez]; simpl; try done;
    try (by destruct sx); try (by destruct sy); try (by destruct sz);
    try (by destruct sx, sy); try (by destruct sy, sz);
    try (by destruct sx, sz); try (by destruct sx, sy, sz).
  change (Pos.compare_cont Eq mx my) with (mx ?= my)%positive.
  change (Pos.compare_cont Eq my mz) with (my ?= mz)%positive.
  change (Pos.compare_cont Eq mx mz) with (mx ?= mz)%positive.
  destruct sx, sy, sz; simpl; try done;
    destruct (Z.compare_spec ex ey), (Z.compare_spec ey ez),
      (Z.compare_spec ex ez); try done; try lia;
    destruct (Pos.compare_spec mx my), (Pos.compare_spec my mz),
      (Pos.compare_spec mx mz); simpl; try done; try lia.
Qed.

Lemma float_leb_trans (x y z : float) :
  (x <=? y)%float = true -> (y <=? z)%float = true -> (x <=? z)%float = true.
Proof. rewrite !leb_spec. apply SFleb_trans. Qed.

(** ** Sorting and cutting *)

Lemma insert_by_score_Permutation x l : insert_by_score x l ≡ₚ x :: l.
Proof.
  induction l as [|y l IH]; simpl; [done|].
  destruct (score x <? score y)%float; [|done].
  rewrite IH. apply perm_swap.
Qed.

Lemma sort_by_score_desc_Permutation l : sort_by_score_desc l ≡ₚ l.
Proof.
  induction l as [|x l IH]; simpl; [done|].
  by rewrite insert_by_score_Permutation, IH.
Qed.

Lemma insert_by_score_sorted x l :
  is_nan (score x) = false ->
  Forall (fun r => is_nan (score r) = false) l ->
  StronglySorted (fun a b => (score b <=? score a)%float = true) l ->
  StronglySorted (fun a b => (score b <=? score a)%float = true)
    (insert_by_score x l).
Proof.
  intros Hx Hl Hs. induction Hs as [|y l Hs IH Hy]; simpl.
  { by repeat constructor. }
  apply Forall_cons in Hl as [Hny Hl].
  destruct (score x <? score y)%float eqn:Hxy.
  - constructor; [by apply IH|].
    rewrite insert_by_score_Permutation. constructor; [|done].
    by apply float_ltb_leb.
  - assert (Hyx : (score y <=? score x)%float = true)
      by by apply float_not_ltb_leb.
    constructor; [by constructor|]. constructor; [done|].
    eapply Forall_impl; [exact Hy|]. simpl. intros z Hz.
    by eapply float_leb_trans.
Qed.

Lemma sort_by_score_desc_sorted l :
  Forall (fun r => is_nan (score r) = false) l ->
  StronglySorted (fun a b => (score b <=? score a)%float = true)
    (sort_by_score_desc l).
Proof.
  induction 1 as [|x l Hx Hl IH]; simpl; [constructor|].
  apply insert_by_score_sorted; [done| |done].
  by rewrite sort_by_score_desc_Permutation.
Qed.

Lemma py_slice_prefix {A} (l : list A) k :
  0 <= k -> py_slice l 0 k = take (Z.to_nat k) l.
Proof.
  intros Hk. unfold py_slice, slice_index.
  destruct (Z.ltb_spec 0 0); [lia|]. destruct (Z.ltb_spec k 0); [lia|].
  replace (Z.min 0 (Z.of_nat (length l))) with 0 by lia.
  rewrite Z.sub_0_r. change (Z.to_nat 0) with 0%nat. rewrite drop_0.
  destruct (Z.min_spec k (Z.of_nat (length l))) as [[_ ->]|[Hle ->]];
    [done|].
  rewrite Nat2Z.id, !take_ge; [done|lia..].
Qed.

(** ** Collection names *)

Import CollectionName.

Ltac not_among H :=
  vm_compute in H;
  repeat (apply elem_of_cons in H as [H|H]; [discriminate H|]);
  by apply elem_of_nil in H.

Lemma lstrip_chars_suffix chars s :
  exists k, lstrip_chars chars s = drop k s.
Proof.
  induction s as [|c s [k IH]]; simpl; [by exists 0%nat|].
  destruct (existsb _ _); [by exists (S k)|by exists 0%nat].
Qed.

Lemma lstrip_chars_elem chars s c : c ∈ lstrip_chars chars s -> c ∈ s.
Proof.
  destruct (lstrip_chars_suffix chars s) as [k ->].
  apply (subseteq_drop k s).
Qed.

Lemma rstrip_chars_elem chars s c : c ∈ rstrip_chars chars s -> c ∈ s.
Proof.
  unfold rstrip_chars. rewrite list_elem_of_In, <- in_rev, <- list_elem_of_In.
  intros H%lstrip_chars_elem.
  by rewrite list_elem_of_In, <- in_rev, <- list_elem_of_In in H.
Qed.

Lemma lstrip_chars_length chars s :
  (length (lstrip_chars chars s) <= length s)%nat.
Proof.
  destruct (lstrip_chars_suffix chars s) as [k ->]. rewrite length_drop. lia.
Qed.

Lemma rstrip_chars_length chars s :
  (length (rstrip_chars chars s) <= length s)%nat.
Proof.
  unfold rstrip_chars. rewrite length_rev.
  etrans; [apply lstrip_chars_length|]. by rewrite length_rev.
Qed.

(** What is left of a stripped string starts with a character that is
    not stripped. *)
Lemma lstrip_chars_head chars s c s' :
  lstrip_chars chars s = c :: s' -> existsb (N.eqb c) chars = false.
Proof.
  induction s as [|d s IH]; simpl; [done|].
  destruct (existsb (N.eqb d) chars) eqn:Hd; [exact IH|].
  by intros [= <- _].
Qed.

Lemma lstrip_chars_keeps_last chars s c :
  existsb (N.eqb c) chars = false -> lstrip_chars chars (s ++ [c]) <> [].
Proof.
  intros Hc. induction s as [|d s IH]; simpl; [by rewrite Hc|].
  by destruct (existsb (N.eqb d) chars).
Qed.

Lemma rstrip_chars_head chars c s :
  existsb (N.eqb c) chars = false ->
  exists s', rstrip_chars chars (c :: s) = c :: s'.
Proof.
  intros Hc. unfold rstrip_chars. simpl.
  destruct (lstrip_chars_suffix chars (rev s ++ [c])) as [k Hk].
  pose proof (lstrip_chars_keeps_last chars (rev s) c Hc) as Hne.
  rewrite Hk in *.
  destruct (decide (k <= length (rev s))%nat) as [Hle|Hgt].
  - rewrite drop_app_le by done. rewrite rev_app_distr. simpl. eauto.
  - rewrite drop_ge in Hne; [done|]. rewrite length_app. simpl. lia.
Qed.

Lemma strip_chars_head chars s c s' :
  strip_chars chars s = c :: s' -> existsb (N.eqb c) chars = false.
Proof.
  unfold strip_chars.
  destruct (lstrip_chars chars s) as [|d t] eqn:Hl; [done|].
  pose proof (lstrip_chars_head _ _ _ _ Hl) as Hd.
  destruct (rstrip_chars_head chars d t Hd) as [t' ->].
  by intros [= <- _].
Qed.

Lemma replace_char_elem old new s c :
  c ∈ replace_char old new s -> c = new \/ (c <> old /\ c ∈ s).
Proof.
  intros (d & -> & Hd)%list_elem_of_fmap.
  destruct (N.eqb_spec d old); [by left|by right].
Qed.

(** X18.  The name [_collection_name] gives a folder has from 1 to 63
    characters and neither a slash nor a backslash; it has at least 3
    characters when the folder path has at most 63. *)
Theorem collection_name_bounds folder :
  1 <= Z.of_nat (length (_collection_name folder)) <= 63
  /\ (HistoryStore.slash ∉ _collection_name folder)
  /\ (backslash ∉ _collection_name folder)
  /\ (3 <= Z.of_nat (length (_collection_name folder))
      \/ 63 < Z.of_nat (length folder)).
Proof.
  unfold _collection_name.
  destruct (bool_decide _).
  { split; [simpl; lia|]. split; [|split; [|left; simpl; lia]];
      intros H; not_among H. }
  set (replaced := replace_char backslash underscore
                     (replace_char HistoryStore.slash underscore folder)).
  set (stripped := strip_chars (py "_-.") replaced).
  set (name := if Z.of_nat (length stripped) <? 3
               then stripped ++ py "_col" else stripped).
  assert (Hlen : (length stripped <= length folder)%nat).
  { unfold stripped, strip_chars. etrans; [apply rstrip_chars_length|].
    etrans; [apply lstrip_chars_length|].
    unfold replaced, replace_char. by rewrite !length_map. }
  assert (Hno : forall c, c = HistoryStore.slash \/ c = backslash -> c ∉ name).
  { intros c Hc Hin.
    assert (Hin' : c ∈ stripped \/ c ∈ py "_col").
    { unfold name in Hin. destruct (_ <? 3); [|by left].
      by apply elem_of_app in Hin. }
    destruct Hin' as [Hin'|Hin'].
    - apply rstrip_chars_elem, lstrip_chars_elem in Hin'.
      apply replace_char_elem in Hin' as [->|[Hn1 Hin']];
        [by destruct Hc|].
      apply replace_char_elem in Hin' as [->|[Hn2 Hin']];
        [by destruct Hc|].
      by destruct Hc.
    - destruct Hc as [-> | ->]; not_among Hin'. }
  assert (Hname : 3 <= Z.of_nat (length name)).
  { unfold name. destruct (Z.ltb_spec (Z.of_nat (length stripped)) 3); [|done].
    rewrite length_app. simpl. lia. }
  destruct (Z.ltb_spec 63 (Z.of_nat (length name))) as [Hlong|Hshort].
  - assert (Hs : name = stripped).
    { unfold name in *.
      destruct (Z.ltb_spec (Z.of_nat (length stripped)) 3); [|done].
      rewrite length_app in Hlong. simpl in Hlong. lia. }
    split; [split|].
    + destruct name as [|c t] eqn:Hn; [simpl in Hlong; lia|].
      symmetry in Hs. apply strip_chars_head in Hs.
      rewrite py_slice_prefix by lia. simpl.
      destruct (rstrip_chars_head (py "_-") c (take 62 t)) as [t' Ht'].
      { simpl in *. apply orb_false_iff in Hs as [H1 Hs].
        apply orb_false_iff in Hs as [H2 _]. by rewrite H1, H2. }
      change (Pos.to_nat 63) with 63%nat. simpl take.
      rewrite Ht'. simpl. lia.
    + pose proof (rstrip_chars_length (py "_-") (py_slice name 0 63)).
      rewrite py_slice_prefix in * by lia.
      rewrite length_take in *. lia.
    + split; [|split].
      * intros H%rstrip_chars_elem. rewrite py_slice_prefix in H by lia.
        apply (subseteq_take _ name) in H. by apply (Hno HistoryStore.slash); [left|].
      * intros H%rstrip_chars_elem. rewrite py_slice_prefix in H by lia.
        apply (subseteq_take _ name) in H. by apply (Hno backslash); [right|].
      * right. rewrite Hs in Hlong. lia.
  - split; [lia|]. split; [by apply Hno; left|].
    split; [by apply Hno; right|by left].
Qed.

(** X19.  Different folders can get the same collection: a slash and an
    underscore in the same place give the same name. *)
Theorem collection_name_slash_underscore a b :
  a ++ b <> [] ->
  _collection_name (a ++ [HistoryStore.slash] ++ b)
  = _collection_name (a ++ [underscore] ++ b).
Proof.
  intros Hab. unfold _collection_name.
  assert (H1 : a ++ [HistoryStore.slash] ++ b ∉ [py "."; []; py "/"]).
  { intros H. destruct a as [|x [|y a]], b as [|z b]; try done;
      repeat (apply elem_of_cons in H as [H|H]; [discriminate H|]);
      by apply elem_of_nil in H. }
  assert (H2 : a ++ [underscore] ++ b ∉ [py "."; []; py "/"]).
  { intros H. destruct a as [|x [|y a]], b as [|z b]; try done;
      repeat (apply elem_of_cons in H as [H|H]; [discriminate H|]);
      by apply elem_of_nil in H. }
  rewrite !bool_decide_eq_false_2 by done.
  replace (replace_char HistoryStore.slash underscore
             (a ++ [HistoryStore.slash] ++ b))
    with (replace_char HistoryStore.slash underscore (a ++ [underscore] ++ b));
    [done|].
  unfold replace_char. by rewrite !map_app.
Qed.

Lemma collection_name_slash_underscore_witness :
  py "src" ++ py "auth" <> []
  /\ _collection_name (py "src" ++ [HistoryStore.slash] ++ py "auth")
     = _collection_name (py "src" ++ [underscore] ++ py "auth").
Proof.
  assert (H : py "src" ++ py "auth" <> []) by (vm_compute; discriminate).
  split; [exact H|].
  exact (collection_name_slash_underscore (py "src") (py "auth") H).
Defined.

(* ===================================================================== *)
(** * Further properties of the retrieval pipeline *)
(* ===================================================================== *)

Lemma chunk_preview_length r :
  Z.of_nat (length (chunk_preview r)) <= _MAX_CHUNK_CHARS.
Proof.
  unfold chunk_preview, _MAX_CHUNK_CHARS.
  rewrite py_slice_prefix by lia. rewrite length_take. lia.
Qed.

Lemma py_slice_nil {A} a b : py_slice (@nil A) a b = [].
Proof. unfold py_slice. by rewrite drop_nil, take_nil. Qed.

Lemma collection_results_empty query_embedding top_k col :
  count col = Returned 0 \/ (exists e, count col = Raised e) ->
  collection_results query_embedding top_k col = [].
Proof.
  unfold collection_results. by intros [-> | [e ->]].
Qed.

Lemma first_defined (a b c : option pystr) :
  default [] (a ∪ b ∪ c)
  = match a with
    | Some v => v
    | None => match b with Some v => v | None => default [] c end
    end.
Proof. by destruct a, b, c. Qed.

Section PipelineFacts.

Variable pf : platform.
Variable format_3f : float -> pystr.

Local Abbreviation ask' := (ask pf format_3f).

(** X20.  When at least one retrieved chunk reaches the threshold, [ask]
    hands the generation step exactly the chunks that reach it, in the
    order retrieved, and reports them as sources; the others are left
    out. *)
Theorem ask_uses_relevant_chunks
    question config embedder vector_store top_k folder threshold
    w query_embedding w1 results w2 r0 :
  embed_query embedder question w = (Returned query_embedding, w1) ->
  vs_query vector_store query_embedding folder top_k w1 = (Returned results, w2) ->
  r0 ∈ results ->
  (default _RELEVANCE_THRESHOLD threshold <=? score r0)%float = true ->
  let relevant :=
    filter (fun r => (default _RELEVANCE_THRESHOLD threshold <=? score r)%float
                     = true) results in
  ask' question config embedder vector_store top_k folder threshold w =
    match _call_llm pf question (context_string format_3f relevant) config w2
    with
    | (Returned a, w3) =>
        (Returned {| answer := a;
                     sources := map source_of relevant;
                     relevant_count := Z.of_nat (length relevant);
                     total_retrieved := Z.of_nat (length results) |}, w3)
    | (Raised e, w3) => (Raised e, w3)
    end
  /\ relevant `sublist_of` results
  /\ (1 <= length relevant <= length results)%nat
  /\ Forall (fun s => (default _RELEVANCE_THRESHOLD threshold <=? src_score s)%float
                      = true) (map source_of relevant).
Proof.
  intros He Hq Hin Hr0 relevant.
  assert (Hr : r0 ∈ relevant) by by apply list_elem_of_filter.
  assert (Hused : used_chunks threshold results = relevant).
  { unfold used_chunks. fold relevant. by destruct relevant;
      [apply elem_of_nil in Hr|]. }
  split; [|split; [|split]].
  - rewrite ask_spec, He, Hq. simpl. by rewrite Hused.
  - apply sublist_filter.
  - split; [|apply length_filter].
    destruct relevant; [by apply elem_of_nil in Hr|simpl; lia].
  - apply Forall_fmap, Forall_forall. intros r Hrel.
    by apply list_elem_of_filter in Hrel as [? _].
Qed.

(** X21.  Whatever [ask] returns: [relevant_count] is between 0 and
    [total_retrieved]; there is one source per relevant chunk, or one per
    retrieved chunk when none is relevant; no source preview is longer
    than 1200 characters. *)
Theorem ask_result_bounds
    question config embedder vector_store top_k folder threshold w
    (r : ask_result) w3 :
  ask pf format_3f question config embedder vector_store top_k folder
    threshold w
  = (Returned r, w3) ->
  0 <= relevant_count r <= total_retrieved r
  /\ Z.of_nat (length (sources r))
     = (if relevant_count r =? 0 then total_retrieved r else relevant_count r)
  /\ Forall (fun s => Z.of_nat (length (src_preview s)) <= 1200) (sources r).
Proof.
  rewrite ask_spec.
  destruct (embed_query embedder question w) as [[qe|e] w1]; [|done].
  destruct (vs_query vector_store qe folder top_k w1) as [[results|e] w2];
    [|done].
  simpl. destruct (_call_llm _ _ _ _ _) as [[a|e] w3']; [|done].
  intros [= <- <-]. simpl.
  set (relevant := filter _ results).
  pose proof (length_filter
                (fun r => (default _RELEVANCE_THRESHOLD threshold <=? score r)%float
                          = true) results) as Hlen.
  fold relevant in Hlen.
  split; [lia|]. split.
  - rewrite length_map. unfold used_chunks. fold relevant.
    destruct relevant as [|x l]; [done|].
    replace (Z.of_nat (length (x :: l)) =? 0) with false; [done|].
    symmetry. apply Z.eqb_neq. simpl. lia.
  - apply Forall_fmap, Forall_forall. intros x _. apply chunk_preview_length.
Qed.

(** X22.  With the vector store of the repository: when every searched
    collection is empty or fails to count, [ask] still calls the
    generation step, with the context "(No code chunks retrieved.)", and
    returns no source. *)
Theorem ask_on_empty_index
    question config embedder cl top_k folder threshold w query_embedding w1 :
  embed_query embedder question w = (Returned query_embedding, w1) ->
  (forall col, col ∈ searched cl folder ->
     count col = Returned 0 \/ exists e, count col = Raised e) ->
  ask' question config embedder (chroma_store cl) top_k folder threshold w =
    match _call_llm pf question (py "(No code chunks retrieved.)") config
            (snd (issue (IndexQuery folder top_k) w1))
    with
    | (Returned a, w3) =>
        (Returned {| answer := a; sources := []; relevant_count := 0;
                     total_retrieved := 0 |}, w3)
    | (Raised e, w3) => (Raised e, w3)
    end.
Proof.
  intros He Hempty.
  assert (Hq : VectorStore.query cl query_embedding folder top_k = []).
  { unfold VectorStore.query. fold (searched cl folder).
    replace (concat _) with (@nil result);
      [apply py_slice_nil|].
    symmetry. induction (searched cl folder) as [|col cols IH]; [done|].
    simpl. rewrite collection_results_empty, IH; [done| |].
    - intros c Hc. apply Hempty, elem_of_cons. by right.
    - apply Hempty, elem_of_cons. by left. }
  rewrite ask_spec, He. simpl. unfold mbind, M_bind. simpl. rewrite Hq.
  reflexivity.
Qed.

(** X23.  Where [_call_zai] takes the API key from, when python-dotenv and
    [openai] are installed: the process environment first, then the
    project's [.env], then the global one.  A variable that is set but
    empty hides the files.  Without a key nothing is sent; with one, a
    single request carrying it.  The values read from the files stay in
    the environment. *)
Theorem call_zai_key_lookup question context config w project_env global_env
    endpoint :
  dotenv pf = Some (project_env, global_env) ->
  openai pf = Some endpoint ->
  let k := api_key_env config in
  let key :=
    match environ w !! k with
    | Some v => v
    | None => match project_env !! k with
              | Some v => v
              | None => default [] (global_env !! k)
              end
    end in
  let out := _call_zai pf question context config w in
  environ (snd out) = environ w ∪ project_env ∪ global_env
  /\ (truthy key = false ->
      (exists msg, fst out = Raised (EnvironmentError msg))
      /\ calls (snd out) = calls w)
  /\ (truthy key = true ->
      exists req, calls (snd out) = calls w ++ [ChatCompletion req]
                  /\ req_api_key req = key).
Proof.
  intros Hdot Hopen k key out. unfold out.
  rewrite _call_zai_spec, Hopen. simpl.
  assert (Hkey : api_key pf config w = key).
  { unfold api_key, after_dotenv. rewrite Hdot. simpl.
    rewrite !lookup_union. apply first_defined. }
  assert (Henv : environ (after_dotenv pf w)
                 = environ w ∪ project_env ∪ global_env).
  { unfold after_dotenv. by rewrite Hdot. }
  assert (Hcalls : calls (after_dotenv pf w) = calls w).
  { unfold after_dotenv. by rewrite Hdot. }
  rewrite Hkey.
  destruct (truthy key) eqn:Ht; simpl.
  - set (req := request_of pf question context config w).
    assert (Hreq : req_api_key req = key) by exact Hkey.
    destruct (endpoint req) as [[|msg ?]|]; simpl;
      (split; [done|]); (split; [done|]); intros _; exists req;
      by rewrite Hcalls.
  - split; [done|]. split; [|done]. intros _. split; [eauto|done].
Qed.

End PipelineFacts.

(** The theorems at the small installation. *)

Lemma ask_uses_relevant_chunks_witness :
  let query_embedding := [0.5; 0.5]%float in
  let w1 := snd (embed_query example_embedder example_question keyed_world) in
  let results := VectorStore.query example_client query_embedding None 8 in
  let w2 := snd (vs_query example_store query_embedding None 8 w1) in
  let r0 := result_of_hit (example_hit "src/y.py" 0 4.0%float) in
  let relevant :=
    filter (fun r => (0.125 <=? score r)%float = true) results in
  r0 ∈ results
  /\ (0.125 <=? score r0)%float = true
  /\ relevant = [r0]
  /\ ask example_platform example_format example_question example_config
       example_embedder example_store 8 None (Some 0.125%float) keyed_world
     = match _call_llm example_platform example_question
               (context_string example_format relevant) example_config w2 with
       | (Returned a, w3) =>
           (Returned {| answer := a;
                        sources := map source_of relevant;
                        relevant_count := Z.of_nat (length relevant);
                        total_retrieved := Z.of_nat (length results) |}, w3)
       | (Raised e, w3) => (Raised e, w3)
       end.
Proof.
  intros query_embedding w1 results w2 r0 relevant.
  assert (Hin : r0 ∈ results) by (vm_compute; apply elem_of_cons; by left).
  assert (Hr0 : (default _RELEVANCE_THRESHOLD (Some 0.125%float) <=? score r0)%float
                = true) by reflexivity.
  split; [exact Hin|]. split; [exact Hr0|]. split; [by vm_compute|].
  exact (proj1 (ask_uses_relevant_chunks example_platform example_format
                  example_question example_config example_embedder
                  example_store 8 None (Some 0.125%float) keyed_world
                  query_embedding w1 results w2 r0 eq_refl eq_refl Hin Hr0)).
Defined.

Lemma ask_result_bounds_witness :
  exists r w3,
    ask example_platform example_format example_question example_config
      example_embedder example_store 8 None None keyed_world = (Returned r, w3)
    /\ 0 <= relevant_count r <= total_retrieved r
    /\ Z.of_nat (length (sources r))
       = (if relevant_count r =? 0 then total_retrieved r else relevant_count r)
    /\ Forall (fun s => Z.of_nat (length (src_preview s)) <= 1200) (sources r).
Proof.
  destruct (ask example_platform example_format example_question
              example_config example_embedder example_store 8 None None
              keyed_world) as [[r|e] w3] eqn:H.
  - exists r, w3. split; [reflexivity|].
    exact (ask_result_bounds example_platform example_format example_question
             example_config example_embedder example_store 8 None None
             keyed_world r w3 H).
  - exfalso. vm_compute in H. discriminate H.
Defined.

Lemma ask_on_empty_index_witness :
  let empty := {| count := Returned 0; col_query := fun _ _ => Returned [] |} in
  let cl := {| get_or_create_collection := fun _ => empty;
               list_collections := [empty] |} in
  let query_embedding := [0.5; 0.5]%float in
  let w1 := snd (embed_query example_embedder example_question keyed_world) in
  (forall col, col ∈ searched cl None ->
     count col = Returned 0 \/ exists e, count col = Raised e)
  /\ ask example_platform example_format example_question example_config
       example_embedder (chroma_store cl) 8 None None keyed_world
     = match _call_llm example_platform example_question
               (py "(No code chunks retrieved.)") example_config
               (snd (issue (IndexQuery None 8) w1)) with
       | (Returned a, w3) =>
           (Returned {| answer := a; sources := []; relevant_count := 0;
                        total_retrieved := 0 |}, w3)
       | (Raised e, w3) => (Raised e, w3)
       end.
Proof.
  intros empty cl query_embedding w1.
  assert (Hempty : forall col, col ∈ searched cl None ->
            count col = Returned 0 \/ exists e, count col = Raised e).
  { intros col Hc. apply list_elem_of_singleton in Hc as ->. by left. }
  split; [exact Hempty|].
  exact (ask_on_empty_index example_platform example_format example_question
           example_config example_embedder cl 8 None None keyed_world
           query_embedding w1 eq_refl Hempty).
Defined.

Lemma call_zai_key_lookup_witness :
  let project_env : gmap pystr pystr :=
    {[ py "ZAI_API_KEY" := py "from-project" ]} in
  let global_env : gmap pystr pystr :=
    {[ py "ZAI_API_KEY" := py "from-global" ]} in
  let endpoint := fun _ : chat_request => Returned [example_reply] in
  let pf := {| dotenv := Some (project_env, global_env);
               openai := Some endpoint |} in
  let out := _call_zai pf example_question [] example_config unkeyed_world in
  environ (snd out) = environ unkeyed_world ∪ project_env ∪ global_env
  /\ exists req, calls (snd out) = calls unkeyed_world ++ [ChatCompletion req]
                 /\ req_api_key req = py "from-project".
Proof.
  intros project_env global_env endpoint pf out.
  destruct (call_zai_key_lookup pf example_question [] example_config
              unkeyed_world project_env global_env endpoint eq_refl eq_refl)
    as (Henv & _ & Hsent).
  split; [exact Henv|]. exact (Hsent eq_refl).
Defined.

(* ===================================================================== *)
(** * Further properties of the watcher *)
(* ===================================================================== *)

Import WatcherRuns.

Section WatcherFacts.

Variable should_ignore : pystr -> bool.

Local Abbreviation after' := (after should_ignore).
Local Abbreviation run' := (run should_ignore).
Local Abbreviation accepted' := (accepted should_ignore).

(** One delivery is either left unserved, and then nothing is run, or
    served, and then its action is run. *)
Lemma after_served h d :
  performed (after' h d) = performed h
  \/ (eligible should_ignore d = true
      /\ performed (after' h d) = performed h ++ [action_of d]).
Proof.
  unfold after, dispatch, on_created, on_modified, on_deleted,
    _handle_event, eligible, action_of.
  destruct (dtype d); simpl;
    (destruct (is_directory (devent d)); [by left|]);
    (destruct (should_ignore (src_path (devent d))); [by left|]);
    unfold mbind, M_bind, _is_debounced; simpl;
    try (destruct (_ <? _)%float; simpl); auto.
Qed.

(** X24.  Whatever is delivered, in whatever order and at whatever times: the
    actions the handler runs are those of some of the deliveries, in the
    order delivered, one per delivery served, and every delivery served
    is for a file that is not ignored.  Nothing is run for a directory
    or an ignored path. *)
Theorem run_serves_eligible_deliveries (ds : list delivery) : forall h,
  exists served,
    served `sublist_of` ds
    /\ Forall (fun d => eligible should_ignore d = true) served
    /\ performed (run' h ds) = performed h ++ map action_of served.
Proof.
  induction ds as [|d ds IH]; intros h.
  { exists []. by rewrite app_nil_r. }
  destruct (IH (after' h d)) as (served & Hsub & Hel & Hperf).
  change (run' h (d :: ds)) with (run' (after' h d) ds).
  destruct (after_served h d) as [Hsame|[Hd Hran]].
  - exists served. split; [by apply sublist_cons|]. split; [done|].
    by rewrite Hperf, Hsame.
  - exists (d :: served). split; [by apply sublist_skip|].
    split; [by constructor|].
    rewrite Hperf, Hran. simpl. by rewrite <- app_assoc.
Qed.

(** When a create or modify delivery is accepted. *)
Lemma accepted_iff h d :
  accepted' h d
  <-> dtype d <> Deleted
      /\ eligible should_ignore d = true
      /\ within_window
           (default 0%float (_last_event h !! src_path (devent d))) d = false.
Proof.
  unfold accepted, after, dispatch, on_created, on_modified, on_deleted,
    _handle_event, eligible, within_window.
  assert (Hgrow : forall (l : list action) a, l = l ++ [a] -> False).
  { intros l a H. apply (f_equal length) in H. rewrite length_app in H.
    simpl in H. lia. }
  destruct (dtype d); simpl;
    (destruct (is_directory (devent d)); simpl;
       [split; [by intros ?%Hgrow|by intros (_ & ? & _)]|]);
    (destruct (should_ignore (src_path (devent d))); simpl;
       [split; [by intros ?%Hgrow|by intros (_ & ? & _)]|]);
    unfold mbind, M_bind, _is_debounced; simpl.
  - destruct (_ <? _)%float; simpl;
      [split; [by intros ?%Hgrow|by intros (_ & _ & ?)]|done].
  - destruct (_ <? _)%float; simpl;
      [split; [by intros ?%Hgrow|by intros (_ & _ & ?)]|done].
  - split; [|by intros (? & _)]. intros H. by apply app_inv_head in H.
Qed.

Lemma last_event_other_path h d p :
  src_path (devent d) <> p ->
  _last_event (after' h d) !! p = _last_event h !! p.
Proof.
  intros Hp.
  destruct (after_cases should_ignore h d) as [->|[(_ & _ & ->)|(_ & ->)]];
    [done| |done].
  simpl. by rewrite lookup_insert_ne.
Qed.

(** X25.  Debouncing is per path: deliveries for other paths, however many and
    whenever they come, do not change whether a delivery is accepted. *)
Theorem debounce_is_per_path h (ds : list delivery) d :
  Forall (fun d' => src_path (devent d') <> src_path (devent d)) ds ->
  accepted' (run' h ds) d <-> accepted' h d.
Proof.
  intros Hother.
  assert (Hlast : _last_event (run' h ds) !! src_path (devent d)
                  = _last_event h !! src_path (devent d)).
  { revert h. induction Hother as [|d' ds Hd' _ IH]; intros h; [done|].
    change (run' h (d' :: ds)) with (run' (after' h d') ds).
    rewrite IH. by apply last_event_other_path. }
  by rewrite !accepted_iff, Hlast.
Qed.

End WatcherFacts.

Lemma debounce_is_per_path_witness :
  let h := run nothing_ignored new_handler [modified "/proj/a.py" 100.0%float] in
  let ds := [modified "/proj/b.py" 100.25%float] in
  let d := modified "/proj/a.py" 100.5%float in
  Forall (fun d' => src_path (devent d') <> src_path (devent d)) ds
  /\ (accepted nothing_ignored (run nothing_ignored h ds) d
      <-> accepted nothing_ignored h d).
Proof.
  intros h ds d.
  assert (H : Forall (fun d' => src_path (devent d') <> src_path (devent d)) ds).
  { repeat constructor. vm_compute. discriminate. }
  split; [exact H|].
  exact (debounce_is_per_path nothing_ignored h ds d H).
Defined.

(* ===================================================================== *)
(** * Folders, the fallback chunker and the embed cache *)
(* ===================================================================== *)

Import IgnoreRules.

(** ** [get_folder] *)

Lemma join_with_cons sep p ps :
  ps <> [] -> join_with sep (p :: ps) = p ++ sep ++ join_with sep ps.
Proof. by destruct ps. Qed.

(** The pieces of a split: all but the last, and the last, which holds
    no separator. *)
Lemma split_from_snoc sep s : forall cur,
  exists init last,
    split_from sep cur s = init ++ [last]
    /\ (sep ∉ cur -> sep ∉ last)
    /\ (init = [] <-> sep ∉ s)
    /\ (init = [] -> last = cur ++ s)
    /\ (init <> [] -> join_with [sep] init ++ [sep] ++ last = cur ++ s).
Proof.
  induction s as [|c s IH]; intros cur; simpl.
  { exists [], cur. rewrite app_nil_r. split; [done|]. split; [done|].
    split; [|done]. split; [|done]. intros _ H. by apply elem_of_nil in H. }
  destruct (N.eqb_spec c sep) as [->|Hc].
  - destruct (IH []) as (init & last & -> & Hlast & Hinit & Hnil & Hjoin).
    exists (cur :: init), last. split; [done|].
    split; [intros _; apply Hlast; by intros ?%elem_of_nil|].
    split; [split; [done|intros H; destruct H; apply elem_of_cons; by left]|].
    split; [done|]. intros _.
    destruct init as [|i init].
    + simpl. by rewrite (Hnil eq_refl).
    + rewrite join_with_cons by done. rewrite <- !app_assoc.
      f_equal. simpl. f_equal. by apply (Hjoin ltac:(done)).
  - destruct (IH (cur ++ [c])) as (init & last & -> & Hlast & Hinit & Hnil & Hjoin).
    exists init, last. split; [done|].
    split.
    { intros Hcur. apply Hlast. intros [H|H]%elem_of_app; [done|].
      apply list_elem_of_singleton in H. congruence. }
    split.
    { rewrite Hinit. split.
      - intros Hs [H|H]%elem_of_cons; [congruence|done].
      - intros Hs H. apply Hs, elem_of_cons. by right. }
    split; [intros H; rewrite (Hnil H); by rewrite <- app_assoc|].
    intros H. etrans; [exact (Hjoin H)|]. by rewrite <- app_assoc.
Qed.

Lemma py_slice_without_last {A} (init : list A) (last : A) :
  py_slice (init ++ [last]) 0 (-1) = init.
Proof.
  unfold py_slice, slice_index. rewrite length_app. simpl.
  destruct (Z.ltb_spec 0 0); [lia|].
  replace (Z.min 0 (Z.of_nat (length init + 1))) with 0 by lia.
  replace (Z.max (-1 + Z.of_nat (length init + 1)) 0)
    with (Z.of_nat (length init)) by lia.
  rewrite Z.sub_0_r, Nat2Z.id. change (Z.to_nat 0) with 0%nat.
  rewrite drop_0. by rewrite take_app_length.
Qed.


Lemma get_folder_parts rel :
  (HistoryStore.slash ∉ rel -> get_folder rel = py ".")
  /\ (HistoryStore.slash ∈ rel ->
      exists file_name,
        (HistoryStore.slash ∉ file_name)
        /\ rel = get_folder rel ++ [HistoryStore.slash] ++ file_name).
Proof.
  unfold get_folder, split_char.
  destruct (split_from_snoc HistoryStore.slash rel [])
    as (init & last & -> & Hlast & Hinit & Hnil & Hjoin).
  rewrite py_slice_without_last, length_app. simpl. split.
  - intros Hno. apply Hinit in Hno as ->. done.
  - intros Hin. assert (Hne : init <> []) by (intros H; by apply Hinit in H).
    destruct (Z.leb_spec (Z.of_nat (length init + 1)) 1) as [Hle|_].
    { destruct init; [done|simpl in Hle; lia]. }
    exists last. split; [apply Hlast; by intros ?%elem_of_nil|].
    symmetry. exact (Hjoin Hne).
Qed.

(** X26.  A path without a slash is in folder ["."]; any other path is its
    folder, a slash, and a file name without a slash. *)
Theorem get_folder_spec rel :
  (HistoryStore.slash ∉ rel -> get_folder rel = py ".")
  /\ (HistoryStore.slash ∈ rel ->
      exists file_name,
        (HistoryStore.slash ∉ file_name)
        /\ rel = get_folder rel ++ [HistoryStore.slash] ++ file_name).
Proof. apply get_folder_parts. Qed.



(** ** [_fallback_chunk] *)

(** X28.  The fallback returns one [SmartChunk] per chunk of the fixed-size
    chunker, in order, with its text and line range, of kind ["chunk"],
    and named after the chunk's own index. *)
Theorem fallback_chunk_follows_chunker content chunk_size overlap :
  exists raw smart,
    chunk_content content chunk_size overlap = Some raw
    /\ SmartChunker._fallback_chunk content chunk_size overlap = Some smart
    /\ length smart = length raw
    /\ forall i c, raw !! i = Some c ->
         smart !! i
         = Some {| SmartChunker.text := chunk_text c;
                   SmartChunker.start_line := Chunker.start_line c;
                   SmartChunker.end_line := Chunker.end_line c;
                   SmartChunker.kind := py "chunk";
                   SmartChunker.name :=
                     py "chunk_" ++ py (pretty (Chunker.chunk_index c)) |}.
Proof.
  assert (Hidx : exists raw,
            chunk_content content chunk_size overlap = Some raw
            /\ forall i c, raw !! i = Some c ->
                 Chunker.chunk_index c = Z.of_nat i).
  { destruct (truthy (strip content)) eqn:Hs.
    - destruct (chunk_content_emits content chunk_size overlap Hs)
        as (_ & cs & Hcs & Hrun).
      exists cs. split; [done|]. intros i c Hc.
      rewrite (runs_index _ _ _ _ _ _ _ _ Hrun _ _ Hc). lia.
    - exists []. split; [|done].
      unfold chunk_content. by rewrite Hs, orb_true_r. }
  destruct Hidx as (raw & Hraw & Hidx).
  unfold SmartChunker._fallback_chunk. rewrite Hraw.
  do 2 eexists. split; [reflexivity|]. split; [reflexivity|].
  split; [by rewrite length_imap|].
  intros i c Hc. rewrite list_lookup_imap, <- (Hidx i c Hc).
  unfold chunk in *. rewrite Hc. by destruct c as [[[? ?] ?] ?].
Qed.

(** ** The embed-checksum cache *)

Import EmbedCache.



(* ===================================================================== *)
(** * The history store with its parameter conversions *)
(* ===================================================================== *)

Import Sqlite3Params Sqlite3Spec.

Lemma bind_None params :
  bind params = None <-> forallb convertible params = true.
Proof.
  induction params as [|[s|z|] ps IH]; simpl; [done| | |done].
  - destruct (encodable s); simpl; [done|]. split; discriminate.
  - destruct (int64 z); simpl; [done|]. split; discriminate.
Qed.

Lemma bound_run {St} params (st : St) :
  bound params st
  = match bind params with
    | Some e => (Raised e, st)
    | None => (Returned tt, st)
    end.
Proof. unfold bound. by destruct (bind params). Qed.

#[local] Arguments bind : simpl never.

Section Sqlite3Proofs.

Variable sha : pystr -> pystr.

(** [snapshot_file] with its conversions, stage by stage: where it can
    stop, what it leaves, and that it is [HistoryStore.snapshot_file]
    once every parameter converted. *)
Lemma sqlite3_snapshot_file_shape conn p c l f m now :
  Sqlite3Store.snapshot_file sha p c l f m now conn =
  if encodable c then
    match bind [Text p] with
    | Some e => (Raised e, conn)
    | None =>
        match select_current_version (view conn) p with
        | Some cur =>
            match bind [Text p; Integer cur] with
            | Some e => (Raised e, conn)
            | None =>
                if decide (current_checksum conn p = Some (_checksum sha c))
                then (Returned cur, conn)
                else
                  match bind [Integer (cur + 1); Integer now; Text p] with
                  | Some e => (Raised e, conn)
                  | None =>
                      match bind [Text p; Integer (cur + 1); Text c;
                                  Integer now; optional_text m] with
                      | Some e =>
                          (Raised e,
                           {| view := updated_registry (cur + 1) now p (view conn);
                              committed := committed conn |})
                      | None => snapshot_file sha p c l f m now conn
                      end
                  end
            end
        | None =>
            match bind [Text p; Integer 1; Integer now; Integer now;
                        Text l; Text f] with
            | Some e => (Raised e, conn)
            | None =>
                match bind [Text p; Integer 1; Text c; Integer now;
                            optional_text m] with
                | Some e =>
                    (Raised e,
                     {| view :=
                          {| snapshots := snapshots (view conn);
                             snapshots_seq := snapshots_seq (view conn);
                             file_registry :=
                               file_registry (view conn)
                               ++ [{| reg_file_path := p;
                                      reg_current_version := 1;
                                      reg_first_seen := now;
                                      reg_last_modified := now;
                                      reg_language := l;
                                      reg_folder := f |}] |};
                        committed := committed conn |})
                | None => snapshot_file sha p c l f m now conn
                end
            end
        end
    end
  else (Raised UnicodeEncodeError, conn).
Proof.
  unfold Sqlite3Store.snapshot_file, Sqlite3Store._checksum.
  destruct (encodable c); [|reflexivity].
  unfold mbind at 1, M_bind at 1, mret, M_ret.
  unfold mbind at 1, M_bind at 1. rewrite bound_run.
  destruct (bind [Text p]) as [e|]; [reflexivity|].
  unfold mbind at 1, M_bind at 1, fetchone at 1.
  destruct (select_current_version (view conn) p) as [cur|] eqn:Hcur.
  - unfold mbind at 1, M_bind at 1. rewrite bound_run.
    destruct (bind [Text p; Integer cur]) as [e|]; [reflexivity|].
    destruct (decide (current_checksum conn p = Some (_checksum sha c)))
      as [Hcs|Hcs].
    + pose proof Hcs as Hcs'. unfold current_checksum in Hcs'.
      rewrite Hcur in Hcs'. simpl in Hcs'.
      unfold mbind, M_bind, fetchone.
      destruct (select_snapshot (view conn) p cur) as [s|]; simplify_eq/=.
      by rewrite bool_decide_eq_true_2.
    + assert (Hno : match select_snapshot (view conn) p cur with
                    | Some s => bool_decide (snap_checksum s = _checksum sha c)
                    | None => false
                    end = false).
      { unfold current_checksum in Hcs. rewrite Hcur in Hcs. simpl in Hcs.
        destruct (select_snapshot (view conn) p cur) as [s|]; [|done].
        simpl in Hcs. apply bool_decide_eq_false_2. congruence. }
      unfold mbind at 1, M_bind at 1, fetchone at 1. rewrite Hno.
      unfold mbind at 1, M_bind at 1. rewrite bound_run.
      destruct (bind [Integer (cur + 1); Integer now; Text p]) as [e|];
        [reflexivity|].
      unfold mbind at 1, M_bind at 1, execute at 1. simpl.
      unfold mbind at 1, M_bind at 1. rewrite bound_run.
      destruct (bind [Text p; Integer (cur + 1); Text c; Integer now;
                      optional_text m]) as [e|]; [reflexivity|].
      rewrite (snapshot_file_tracked sha conn p c l f m now cur Hcur Hcs).
      unfold mbind, M_bind, execute, commit, mret, M_ret. simpl.
      by destruct (insert_snapshot _ _ _ _ _ _ _).
  - unfold mbind at 1, M_bind at 1. rewrite bound_run.
    destruct (bind [Text p; Integer 1; Integer now; Integer now;
                    Text l; Text f]) as [e|]; [reflexivity|].
    assert (Hex : existsb (registry_matches p) (file_registry (view conn))
                  = false).
    { rewrite existsb_find. unfold select_current_version in Hcur.
      by destruct (find _ _). }
    unfold mbind at 1, M_bind at 1, execute at 1, insert_registry. simpl.
    rewrite Hex.
    unfold mbind at 1, M_bind at 1. rewrite bound_run.
    destruct (bind [Text p; Integer 1; Text c; Integer now;
                    optional_text m]) as [e|]; [reflexivity|].
    rewrite (snapshot_file_untracked sha conn p c l f m now Hcur).
    unfold mbind, M_bind, execute, commit, mret, M_ret. simpl.
    by destruct (insert_snapshot _ _ _ _ _ _ _).
Qed.

End Sqlite3Proofs.






(** ** What reachable connections satisfy *)




Section Sqlite3Invariant.

Variable sha : pystr -> pystr.

(** On parameters that all convert, the two models of [snapshot_file]
    are the same call. *)
Lemma sqlite3_snapshot_file_converts conn p c l f m now :
  forallb convertible [Text p; Text c; Text l; Text f; optional_text m;
                       Integer now;
                       Integer (current_version_of conn p);
                       Integer (current_version_of conn p + 1)] = true ->
  Sqlite3Store.snapshot_file sha p c l f m now conn
  = snapshot_file sha p c l f m now conn.
Proof.
  simpl. rewrite !andb_true_iff.
  intros (Hp & Hc & Hl & Hf & Hm & Hnow & Hcur & Hnext & _).
  rewrite sqlite3_snapshot_file_shape, Hc.
  assert (Hb : forall ps, forallb convertible ps = true -> bind ps = None)
    by (intros ps; apply bind_None).
  rewrite (Hb [Text p]) by (simpl; by rewrite Hp).
  unfold current_version_of in Hcur, Hnext.
  destruct (select_current_version (view conn) p) as [cur|] eqn:Hsel;
    simpl in Hcur, Hnext.
  - rewrite (Hb [Text p; Integer cur]) by (simpl; by rewrite Hp, Hcur).
    destruct (decide _) as [Hcs|Hcs].
    + by rewrite (snapshot_file_unchanged sha _ _ _ _ _ _ _ _ Hsel Hcs).
    + rewrite (Hb [Integer (cur + 1); Integer now; Text p])
        by (simpl; by rewrite Hp, Hnext, Hnow).
      by rewrite (Hb [Text p; Integer (cur + 1); Text c; Integer now;
                      optional_text m])
        by (simpl; by rewrite Hp, Hnext, Hc, Hnow, Hm).
  - rewrite (Hb [Text p; Integer 1; Integer now; Integer now; Text l; Text f])
      by (simpl; by rewrite Hp, Hnow, Hl, Hf).
    by rewrite (Hb [Text p; Integer 1; Text c; Integer now; optional_text m])
      by (simpl; by rewrite Hp, Hc, Hnow, Hm).
Qed.





End Sqlite3Invariant.

(** ** What callers of the store can rely on *)

Section Sqlite3Facts.

Variable sha : pystr -> pystr.








End Sqlite3Facts.

(** The small stores are reached with messages that convert. *)





(** Why the message has to convert: a message UTF-8 cannot encode (here
    the lone surrogate U+D800) makes [snapshot_file] raise after it
    moved the registry to version 2, and the next call then stores
    version 3; the file has versions 1 and 3 and no version 2. *)
Lemma unconvertible_message_leaves_a_gap :
  let call content message now conn :=
    Sqlite3Store.snapshot_file example_digest (py "src/x.py") content
      (py "python") (py "src") message now conn in
  let conn1 := snd (call (py "two") (Some [55296%N]) 200 store_x) in
  let conn2 := snd (call (py "three") None 300 conn1) in
  fst (call (py "two") (Some [55296%N]) 200 store_x)
  = Raised UnicodeEncodeError
  /\ versions_of (view conn1) (py "src/x.py") = [1]
  /\ current_version_of conn1 (py "src/x.py") = 2
  /\ fst (call (py "three") None 300 conn1) = Returned 3
  /\ versions_of (view conn2) (py "src/x.py") = [1; 3].
Proof. by vm_compute. Qed.







(* ===================================================================== *)
(** * [VectorStore.query] with its division *)
(* ===================================================================== *)

Lemma collection_results_hits query_embedding top_k col :
  collection_results query_embedding top_k col
  = map VectorStore.result_of_hit
      (ScoredQuery.collection_hits query_embedding top_k col).
Proof.
  unfold collection_results, ScoredQuery.collection_hits.
  destruct (count col) as [cnt|]; [|done].
  destruct (cnt =? 0); [done|].
  by destruct (col_query col query_embedding (Z.min top_k cnt)).
Qed.

Lemma available_retrieved cl query_embedding folder top_k :
  available cl query_embedding folder top_k
  = map VectorStore.result_of_hit
      (ScoredQuery.retrieved cl query_embedding folder top_k).
Proof.
  unfold available, ScoredQuery.retrieved.
  induction (searched cl folder) as [|col cols IH]; simpl; [done|].
  by rewrite map_app, IH, collection_results_hits.
Qed.

Lemma append_results_returns hits : forall results,
  Forall (fun h => (1.0 + hit_distance h =? 0)%float = false) hits ->
  ScoredQuery.append_results hits results
  = Returned (results ++ map VectorStore.result_of_hit hits).
Proof.
  induction hits as [|h hits IH]; intros results Hok; simpl.
  { by rewrite app_nil_r. }
  apply Forall_cons in Hok as [Hh Hok].
  unfold ScoredQuery.result_of_hit. rewrite Hh, (IH _ Hok).
  by rewrite <- app_assoc.
Qed.

Lemma append_results_raises hits : forall results,
  Exists (fun h => (1.0 + hit_distance h =? 0)%float = true) hits ->
  ScoredQuery.append_results hits results = Raised ZeroDivisionError.
Proof.
  induction hits as [|h hits IH]; intros results Hex; simpl.
  { by apply Exists_nil in Hex. }
  unfold ScoredQuery.result_of_hit.
  destruct (1.0 + hit_distance h =? 0)%float eqn:Hh; [done|].
  apply Exists_cons in Hex as [Hex|Hex]; [congruence|]. by apply IH.
Qed.

Lemma collect_returns query_embedding top_k collections : forall results,
  Forall (fun h => (1.0 + hit_distance h =? 0)%float = false)
    (concat (map (ScoredQuery.collection_hits query_embedding top_k)
                 collections)) ->
  ScoredQuery.collect query_embedding top_k collections results
  = Returned
      (results
       ++ map VectorStore.result_of_hit
            (concat (map (ScoredQuery.collection_hits query_embedding top_k)
                         collections))).
Proof.
  induction collections as [|col cols IH]; intros results Hok; simpl.
  { by rewrite app_nil_r. }
  simpl in Hok. apply Forall_app in Hok as [Hcol Hcols].
  rewrite (append_results_returns _ _ Hcol), (IH _ Hcols).
  by rewrite map_app, app_assoc.
Qed.

Lemma collect_raises query_embedding top_k collections : forall results,
  Exists (fun h => (1.0 + hit_distance h =? 0)%float = true)
    (concat (map (ScoredQuery.collection_hits query_embedding top_k)
                 collections)) ->
  ScoredQuery.collect query_embedding top_k collections results
  = Raised ZeroDivisionError.
Proof.
  induction collections as [|col cols IH]; intros results Hex; simpl.
  { by apply Exists_nil in Hex. }
  simpl in Hex.
  destruct (decide (Exists (fun h => (1.0 + hit_distance h =? 0)%float = true)
                      (ScoredQuery.collection_hits query_embedding top_k col)))
    as [Hcol|Hcol].
  - by rewrite (append_results_raises _ _ Hcol).
  - apply Exists_app in Hex as [Hex|Hex]; [done|].
    apply not_Exists_Forall in Hcol; [|intros h; apply _].
    rewrite append_results_returns.
    + by apply IH.
    + eapply Forall_impl; [exact Hcol|]. simpl. intros h Hh.
      by destruct (1.0 + hit_distance h =? 0)%float.
Qed.

(** X17.  What [query] does with the rows the searched collections
    gave.  If for one of them [1.0 + dist] is zero, it raises
    ZeroDivisionError.  Otherwise it returns, and for [top_k >= 0] and
    scores that are not NaN it returns the best: with the results it
    leaves out put after the ones it returns, the list is a
    rearrangement of all the results in which each scores at least as
    much as every later one; and it returns [top_k] of them, or all when
    there are fewer. *)
Theorem query_returns_best cl query_embedding folder top_k :
  let hits := ScoredQuery.retrieved cl query_embedding folder top_k in
  (Exists (fun h => (1.0 + hit_distance h =? 0)%float = true) hits ->
   ScoredQuery.query cl query_embedding folder top_k
   = Raised ZeroDivisionError)
  /\ (Forall (fun h => (1.0 + hit_distance h =? 0)%float = false) hits ->
      (exists results,
         ScoredQuery.query cl query_embedding folder top_k = Returned results)
      /\ (0 <= top_k ->
          Forall (fun h => is_nan (score (VectorStore.result_of_hit h)) = false)
            hits ->
          exists results rest,
            ScoredQuery.query cl query_embedding folder top_k
            = Returned results
            /\ results ++ rest ≡ₚ map VectorStore.result_of_hit hits
            /\ StronglySorted
                 (fun a b => (score b <=? score a)%float = true)
                 (results ++ rest)
            /\ Z.of_nat (length results)
               = Z.min top_k (Z.of_nat (length hits)))).
Proof.
  intros hits. unfold hits, ScoredQuery.retrieved, ScoredQuery.query.
  fold (searched cl folder). split.
  - intros Hex. by rewrite (collect_raises _ _ _ _ Hex).
  - intros Hok. rewrite (collect_returns _ _ _ _ Hok). simpl.
    split; [eauto|]. intros Hk Hnan.
    set (all := map VectorStore.result_of_hit _).
    exists (py_slice (sort_by_score_desc all) 0 top_k),
      (drop (Z.to_nat top_k) (sort_by_score_desc all)).
    split; [done|].
    rewrite py_slice_prefix by done. rewrite take_drop.
    split; [apply sort_by_score_desc_Permutation|].
    split.
    + apply sort_by_score_desc_sorted. unfold all. by apply Forall_fmap.
    + rewrite length_take, sort_by_score_desc_length. unfold all.
      rewrite length_map. lia.
Qed.

Lemma query_returns_best_witness :
  let hits := ScoredQuery.retrieved example_client [] None 2 in
  Forall (fun h => (1.0 + hit_distance h =? 0)%float = false) hits
  /\ 0 <= 2
  /\ Forall (fun h => is_nan (score (VectorStore.result_of_hit h)) = false) hits
  /\ exists results rest,
       ScoredQuery.query example_client [] None 2 = Returned results
       /\ results ++ rest ≡ₚ map VectorStore.result_of_hit hits
       /\ StronglySorted (fun a b => (score b <=? score a)%float = true)
            (results ++ rest)
       /\ Z.of_nat (length results) = Z.min 2 (Z.of_nat (length hits)).
Proof.
  intros hits.
  assert (Hok : Forall (fun h => (1.0 + hit_distance h =? 0)%float = false)
                  hits) by (vm_compute; repeat constructor).
  assert (Hk : 0 <= 2) by lia.
  assert (Hn : Forall (fun h => is_nan (score (VectorStore.result_of_hit h))
                                = false) hits)
    by (vm_compute; repeat constructor).
  split; [exact Hok|]. split; [exact Hk|]. split; [exact Hn|].
  exact (proj2 (proj2 (query_returns_best example_client [] None 2) Hok)
           Hk Hn).
Defined.

(** At distance -1.0 the divisor is zero and [query] raises. *)
Lemma query_raises_at_distance_minus_one :
  let col := {| count := Returned 1;
                col_query := fun _ _ =>
                  Returned [example_hit "src/x.py" 0 (-1.0)%float] |} in
  let cl := {| get_or_create_collection := fun _ => col;
               list_collections := [col] |} in
  ScoredQuery.query cl [] None 5 = Raised ZeroDivisionError.
Proof. reflexivity. Qed.
